(** * simulate.c: parsing and report layer of the GeoSteiner simulation wrapper

    Shallow embedding of the parsers of [simulate.c] (convergence gap,
    terminal table, coverage flags, tree dump, selected trees), of the
    coordinate scaling and of the drawing and marking loops of
    [create_rich_visualization], together with the properties the
    specification states about them.

    Conventions.
    - A C string is a [list ascii]; a [FILE*] opened for reading is the list
      of characters still to be read, [None] when [fopen] fails.
    - A [double] is a binary64 primitive float ([PrimFloat.float]); [isnan],
      [fabs] and the comparisons are the IEEE ones.
    - An [int] is a [Z]; conversions that C leaves to the implementation
      follow glibc on x86-64 and say so where they are defined. *)

From Stdlib Require Import ZArith List Bool Ascii String Floats Lia FinFun.
Import ListNotations.
Local Open Scope Z_scope.

(** ** C strings and <ctype.h> *)

Definition cstring : Type := list ascii.

Definition lit (s : string) : cstring := list_ascii_of_string s.

Definition NUL : ascii := ascii_of_nat 0.
Definition NL : ascii := ascii_of_nat 10.
Definition TAB : ascii := ascii_of_nat 9.

Definition code (c : ascii) : N := N_of_ascii c.

(** [isspace] in the C locale: space, and [\t \n \v \f \r]. *)
Definition isspace (c : ascii) : bool :=
  (code c =? 32)%N || ((9 <=? code c)%N && (code c <=? 13)%N).

Definition isdigit (c : ascii) : bool :=
  (48 <=? code c)%N && (code c <=? 57)%N.

Definition tolower (c : ascii) : ascii :=
  if ((65 <=? code c)%N && (code c <=? 90)%N)%bool
  then ascii_of_N (code c + 32) else c.

Definition digit_val (c : ascii) : Z := Z.of_N (code c) - 48.

Definition hex_val (c : ascii) : option Z :=
  if isdigit c then Some (digit_val c)
  else let l := code (tolower c) in
       if ((97 <=? l)%N && (l <=? 102)%N)%bool then Some (Z.of_N l - 87) else None.

(** The contents of a [char] buffer read as a C string: up to the first NUL. *)
Fixpoint c_str (buf : cstring) : cstring :=
  match buf with
  | [] => []
  | c :: r => if Ascii.eqb c NUL then [] else c :: c_str r
  end.

Fixpoint skip_ws (s : cstring) : cstring :=
  match s with
  | c :: r => if isspace c then skip_ws r else s
  | [] => []
  end.

Fixpoint prefix (p s : cstring) : bool :=
  match p, s with
  | [], _ => true
  | a :: p', b :: s' => Ascii.eqb a b && prefix p' s'
  | _ :: _, [] => false
  end.

(** [strstr h n]: the suffix of [h] at the first occurrence of [n]. *)
Fixpoint strstr (h n : cstring) : option cstring :=
  if prefix n h then Some h
  else match h with
       | [] => None
       | _ :: h' => strstr h' n
       end.

Definition contains (h : cstring) (n : string) : bool :=
  match strstr h (lit n) with Some _ => true | None => false end.

(** [strchr s c]: the suffix of [s] at the first [c]. *)
Fixpoint strchr (s : cstring) (c : ascii) : option cstring :=
  match s with
  | [] => None
  | a :: r => if Ascii.eqb a c then Some s else strchr r c
  end.

(** [line[strcspn(line, "\n")] = 0]: the line cut at its first newline. *)
Fixpoint cut_newline (s : cstring) : cstring :=
  match s with
  | [] => []
  | c :: r => if Ascii.eqb c NL then [] else c :: cut_newline r
  end.

(** ** <stdio.h>: reading lines *)

Fixpoint fgets_buf (room : nat) (fp : cstring) : cstring * cstring :=
  match room, fp with
  | S room', c :: fp' =>
      if Ascii.eqb c NL then ([c], fp')
      else let (l, r) := fgets_buf room' fp' in (c :: l, r)
  | _, _ => ([], fp)
  end.

(** [fgets(line, size, fp)]: [None] at end of file, otherwise the line read
    (at most [size - 1] characters, a newline included and ending it) and
    the stream after it. *)
Definition fgets (size : nat) (fp : cstring) : option (cstring * cstring) :=
  match fp with
  | [] => None
  | _ => let (buf, fp') := fgets_buf (size - 1) fp in Some (c_str buf, fp')
  end.

(** [while (fgets(line, size, fp)) ...]: the lines a loop that never seeks
    gets to see.  Every successful [fgets] consumes a character, so the
    length of the stream is enough fuel. *)
Fixpoint fgets_loop (fuel size : nat) (fp : cstring) : list cstring :=
  match fuel with
  | O => []
  | S k =>
      match fgets size fp with
      | None => []
      | Some (line, fp') => line :: fgets_loop k size fp'
      end
  end.

Definition read_lines (size : nat) (fp : cstring) : list cstring :=
  fgets_loop (List.length fp) size fp.

(** ** Integer conversions *)

Definition INT_MIN : Z := - 2 ^ 31.
Definition INT_MAX : Z := 2 ^ 31 - 1.
Definition LONG_MIN : Z := - 2 ^ 63.
Definition LONG_MAX : Z := 2 ^ 63 - 1.

(** [strtol] saturates at the range of [long]. *)
Definition strtol_clamp (z : Z) : Z := Z.max LONG_MIN (Z.min LONG_MAX z).

(** Conversion of a [long] to [int]: the low 32 bits, two's complement. *)
Definition to_int (z : Z) : Z := (z + 2 ^ 31) mod 2 ^ 32 - 2 ^ 31.

Fixpoint span_digits (s : cstring) : cstring * cstring :=
  match s with
  | c :: r =>
      if isdigit c then let (ds, rest) := span_digits r in (c :: ds, rest)
      else ([], s)
  | [] => ([], [])
  end.

Definition digits_value (ds : cstring) : Z :=
  fold_left (fun acc c => 10 * acc + digit_val c) ds 0.

Definition scan_sign (s : cstring) : bool * cstring :=
  match s with
  | c :: r =>
      if Ascii.eqb c "-" then (true, r)
      else if Ascii.eqb c "+" then (false, r)
      else (false, s)
  | [] => (false, [])
  end.

(** A decimal integer at the head of [s] (no leading white space): optional
    sign and at least one digit.  The value is the one [strtol] returns,
    stored in an [int]. *)
Definition scan_int (s : cstring) : option (Z * cstring) :=
  let (neg, s1) := scan_sign s in
  let (ds, rest) := span_digits s1 in
  match ds with
  | [] => None
  | _ => let v := digits_value ds in
         Some (to_int (strtol_clamp (if neg then - v else v)), rest)
  end.

(** [atoi(s)] is [(int) strtol(s, NULL, 10)]: leading white space, optional
    sign, digits; 0 when there is no digit. *)
Definition atoi (s : cstring) : Z :=
  match scan_int (skip_ws s) with
  | Some (v, _) => v
  | None => 0
  end.

(** ** Doubles *)

Definition fabs : float -> float := PrimFloat.abs.
Definition isnan : float -> bool := PrimFloat.is_nan.
Definition NAN : float := PrimFloat.nan.

(** [a != b] on doubles: true as soon as one side is a NaN. *)
Definition fneq (a b : float) : bool := negb (PrimFloat.eqb a b).

(** The double nearest to [m * 2 ^ k] (ties to even), with the sign [neg]. *)
Definition bin_to_double (neg : bool) (m k : Z) : float :=
  match m with
  | Zpos _ => SF2Prim (binary_normalize prec emax (if neg then - m else m) k false)
  | _ => if neg then neg_zero else zero
  end.

(** The double nearest to [m * 10 ^ k] (ties to even), with the sign [neg]:
    what [strtod] returns for the decimal digits [m] scaled by [10 ^ k]. *)
Definition dec_to_double (neg : bool) (m k : Z) : float :=
  match m with
  | Zpos p =>
      match k with
      | Zneg q =>
          SF2Prim (SFdiv prec emax (S754_finite neg p 0)
                                   (S754_finite false (10 ^ q)%positive 0))
      | _ => bin_to_double neg (m * 10 ^ k) 0
      end
  | _ => if neg then neg_zero else zero
  end.

(** Conversion of an [int] to [double] (always exact). *)
Definition int_to_double (z : Z) : float :=
  SF2Prim (binary_normalize prec emax z 0 false).

(** The integer part of a finite double, rounded toward zero. *)
Definition trunc_SF (x : spec_float) : option Z :=
  match x with
  | S754_zero _ => Some 0
  | S754_finite s m e =>
      let a := match e with
               | Zneg n => Z.pos m / 2 ^ Z.pos n
               | _ => Z.pos m * 2 ^ e
               end in
      Some (if s then - a else a)
  | _ => None
  end.

(** [(int) x].  C leaves the conversion undefined when the integer part does
    not fit an [int] or [x] is not finite; x86-64 ([cvttsd2si]) then yields
    [INT_MIN], which is the value taken here. *)
Definition double_to_int (x : float) : Z :=
  match trunc_SF (Prim2SF x) with
  | Some z => if (INT_MIN <=? z) && (z <=? INT_MAX) then z else INT_MIN
  | None => INT_MIN
  end.

(** *** Reading a double ([%lf], [strtod] syntax) *)

Fixpoint span_hex (s : cstring) : list Z * cstring :=
  match s with
  | c :: r =>
      match hex_val c with
      | Some d => let (ds, rest) := span_hex r in (d :: ds, rest)
      | None => ([], s)
      end
  | [] => ([], [])
  end.

Definition hex_value (ds : list Z) : Z :=
  fold_left (fun acc d => 16 * acc + d) ds 0.

(** Case-insensitive match of the lower-case word [p] at the head of [s]. *)
Fixpoint strip_prefix_ci (p s : cstring) : option cstring :=
  match p, s with
  | [], _ => Some s
  | a :: p', b :: s' =>
      if Ascii.eqb a (tolower b) then strip_prefix_ci p' s' else None
  | _ :: _, [] => None
  end.

(** The exponent part after a mantissa with a digit, introduced by the
    letter [e] ([e] or [p], in either case).  [scanf] of glibc takes the
    letter, a sign right after it and the digits that follow, and hands the
    characters taken to [strtod]: without a digit the letter and the sign
    are consumed all the same and the exponent is 0, so that [1e+] reads
    as 1. *)
Definition scan_exponent (e : ascii) (s : cstring) : Z * cstring :=
  match s with
  | c :: r =>
      if Ascii.eqb (tolower c) e then
        let (neg, r1) := scan_sign r in
        let (ds, rest) := span_digits r1 in
        match ds with
        | [] => (0, rest)
        | _ => (if neg then - digits_value ds else digits_value ds, rest)
        end
      else (0, s)
  | [] => (0, [])
  end.

(** Digits, a point, digits, an exponent part.  Without any digit nothing
    is converted, whether a point was taken or not. *)
Definition scan_decimal (neg : bool) (s : cstring) : option (float * cstring) :=
  let (ip, s1) := span_digits s in
  let (fp, s2) := match s1 with
                  | c :: r => if Ascii.eqb c "." then span_digits r else ([], s1)
                  | [] => ([], [])
                  end in
  match ip ++ fp with
  | [] => None
  | ds =>
      let (e, rest) := scan_exponent "e" s2 in
      Some (dec_to_double neg (digits_value ds) (e - Z.of_nat (List.length fp)), rest)
  end.

(** The same after [0x].  Without any digit [scanf] of glibc gives up when
    nothing follows [0x]; when it took a point, [strtod] finds the number 0
    in the characters [0x.] and the conversion succeeds with it. *)
Definition scan_hexfloat (neg : bool) (s : cstring) : option (float * cstring) :=
  let (ip, s1) := span_hex s in
  let '(dot, fp, s2) := match s1 with
                        | c :: r =>
                            if Ascii.eqb c "."
                            then let (fp, s2) := span_hex r in (true, fp, s2)
                            else (false, [], s1)
                        | [] => (false, [], [])
                        end in
  match ip ++ fp with
  | [] => if dot then Some (if neg then neg_zero else zero, s2) else None
  | ds =>
      let (e, rest) := scan_exponent "p" s2 in
      Some (bin_to_double neg (hex_value ds) (e - 4 * Z.of_nat (List.length fp)), rest)
  end.

(** A floating-point number at the head of [s] (no leading white space), as
    [scanf] of glibc reads it for [%lf]: an optional sign, then [inf] or
    [infinity], [nan], a hexadecimal or a decimal number, in either case of
    the letters.  The characters are taken one by one as long as they can
    go on a number and are then converted by [strtod]; this differs from
    ISO C where a number is left unfinished: an exponent without digits is
    consumed and ignored, and of [nan(...)] only [nan] is taken, the
    parenthesis staying in the input.  [None] is a matching failure. *)
Definition scan_double (s : cstring) : option (float * cstring) :=
  let (neg, s1) := scan_sign s in
  match strip_prefix_ci (lit "inf") s1 with
  | Some r =>
      let inf := if neg then neg_infinity else infinity in
      match r with
      | c :: _ =>
          if Ascii.eqb (tolower c) "i" then
            match strip_prefix_ci (lit "inity") r with
            | Some r' => Some (inf, r')
            | None => None
            end
          else Some (inf, r)
      | [] => Some (inf, [])
      end
  | None =>
      match strip_prefix_ci (lit "nan") s1 with
      | Some r => Some (NAN, r)
      | None =>
          match strip_prefix_ci (lit "0x") s1 with
          | Some r => scan_hexfloat neg r
          | None => scan_decimal neg s1
          end
      end
  end.

(** ** <stdio.h>: [sscanf] and [fscanf] *)

Inductive directive : Type :=
| D_ws                  (* white space in the format *)
| D_lit (c : ascii)     (* an ordinary character *)
| D_pct                 (* %% *)
| D_int                 (* %d *)
| D_double              (* %lf *)
| D_skip                (* %*s *)
| D_char                (* %c *)
| D_bad.                (* a conversion the program does not use *)

Fixpoint parse_format (f : cstring) : list directive :=
  match f with
  | [] => []
  | c :: r =>
      if Ascii.eqb c "%" then
        match r with
        | c1 :: r1 =>
            if Ascii.eqb c1 "%" then D_pct :: parse_format r1
            else if Ascii.eqb c1 "d" then D_int :: parse_format r1
            else if Ascii.eqb c1 "c" then D_char :: parse_format r1
            else
              match r1 with
              | c2 :: r2 =>
                  if Ascii.eqb c1 "l" && Ascii.eqb c2 "f" then D_double :: parse_format r2
                  else if Ascii.eqb c1 "*" && Ascii.eqb c2 "s" then D_skip :: parse_format r2
                  else [D_bad]
              | [] => [D_bad]
              end
        | [] => [D_bad]
        end
      else if isspace c then D_ws :: parse_format r
      else D_lit c :: parse_format r
  end.

Inductive scan_val : Type :=
| V_int (z : Z)
| V_double (f : float)
| V_char (c : ascii).

Definition EOF : Z := -1.

(** What a call returns: the [int] result, the values assigned to the
    argument pointers in order, and the input left unread. *)
Record scan_result : Type := mk_scan
  { sr_ret : Z; sr_vals : list scan_val; sr_rest : cstring }.

Definition matching_failure (vals : list scan_val) (rest : cstring) : scan_result :=
  mk_scan (Z.of_nat (List.length vals)) vals rest.

(** End of input before a directive could read: [EOF] when nothing has been
    assigned yet. *)
Definition input_failure (vals : list scan_val) : scan_result :=
  mk_scan (match vals with [] => EOF | _ => Z.of_nat (List.length vals) end) vals [].

Definition skip_nonws : cstring -> cstring :=
  fix go (s : cstring) : cstring :=
    match s with
    | c :: r => if isspace c then s else go r
    | [] => []
    end.

Fixpoint run_scanf (ds : list directive) (inp : cstring) (vals : list scan_val)
  : scan_result :=
  match ds with
  | [] => matching_failure vals inp
  | d :: ds' =>
      match d with
      | D_ws => run_scanf ds' (skip_ws inp) vals
      | D_lit c =>
          match inp with
          | [] => input_failure vals
          | a :: inp' =>
              if Ascii.eqb a c then run_scanf ds' inp' vals
              else matching_failure vals inp
          end
      | D_pct =>
          match skip_ws inp with
          | [] => input_failure vals
          | a :: inp' =>
              if Ascii.eqb a "%" then run_scanf ds' inp' vals
              else matching_failure vals (a :: inp')
          end
      | D_int =>
          match skip_ws inp with
          | [] => input_failure vals
          | inp1 =>
              match scan_int inp1 with
              | Some (z, inp') => run_scanf ds' inp' (vals ++ [V_int z])
              | None => matching_failure vals inp1
              end
          end
      | D_double =>
          match skip_ws inp with
          | [] => input_failure vals
          | inp1 =>
              match scan_double inp1 with
              | Some (f, inp') => run_scanf ds' inp' (vals ++ [V_double f])
              | None => matching_failure vals inp1
              end
          end
      | D_skip =>
          match skip_ws inp with
          | [] => input_failure vals
          | inp1 => run_scanf ds' (skip_nonws inp1) vals
          end
      | D_char =>
          match inp with
          | [] => input_failure vals
          | a :: inp' => run_scanf ds' inp' (vals ++ [V_char a])
          end
      | D_bad => matching_failure vals inp
      end
  end.

Definition sscanf (s : cstring) (fmt : string) : scan_result :=
  run_scanf (parse_format (lit fmt)) s [].

(** [sscanf(s, fmt, ...) == n], with the values assigned. *)
Definition sscanf_is (n : Z) (s : cstring) (fmt : string) : option (list scan_val) :=
  let r := sscanf s fmt in
  if sr_ret r =? n then Some (sr_vals r) else None.

(** A parser returns the entries it stored, or [None] for the [-1] it
    returns when [fopen] fails. *)
Definition count {A : Type} (r : option (list A)) : Z :=
  match r with
  | Some l => Z.of_nat (List.length l)
  | None => -1
  end.

(** The entries a loop [for (i = 0; i < n; i++)] over the result visits. *)
Definition entries {A : Type} (r : option (list A)) : list A :=
  match r with
  | Some l => l
  | None => []
  end.

(** ** Data structures *)

Record Terminal : Type := mkTerminal
  { t_x : float; t_y : float; battery : float; covered : Z; terminal_id : Z }.

Record SteinerPoint : Type := mkSteinerPoint { sp_x : float; sp_y : float }.

(** [num_terminals] is the length of [terminal_ids]; [steiner_points] holds
    the entries of the array that have been written. *)
Record FST : Type := mkFST
  { selected : bool;
    terminal_ids : list Z;
    num_steiner_points : Z;
    steiner_points : list SteinerPoint;
    cost : float;
    fst_id : Z }.

Definition num_terminals (f : FST) : Z := Z.of_nat (List.length (terminal_ids f)).

(** ** parse_final_mip_gap *)

Record gap_regs : Type := mkGap
  { best_bound : float; incumbent : float; gap : float;
    latest_best_z : float; latest_branch_z0 : float; latest_branch_z1 : float }.

Definition gap_init : gap_regs := mkGap NAN NAN NAN NAN NAN NAN.

Definition relative_gap (bound inc : float) : float :=
  PrimFloat.div (fabs (PrimFloat.sub bound inc)) (fabs inc).

(** Pattern "Best bound = X, Best integer = Y". *)
Definition match_best_bound (line : cstring) : option (float * float) :=
  match sscanf_is 2 line "Best bound = %lf , Best integer = %lf" with
  | Some [V_double bb; V_double bi] => Some (bb, bi)
  | _ => None
  end.

Definition try_best_bound (line : cstring) (st : gap_regs) : gap_regs :=
  match match_best_bound line with
  | Some (bb, bi) =>
      mkGap bb bi
        (if negb (isnan bb) && negb (isnan bi) && fneq bi 0
         then PrimFloat.div (fabs (PrimFloat.sub bi bb)) (fabs bi)
         else gap st)
        (latest_best_z st) (latest_branch_z0 st) (latest_branch_z1 st)
  | None => st
  end.

(** Pattern "MIP gap = Z%". *)
Definition match_mip_gap (line : cstring) : option float :=
  match sscanf_is 1 line "MIP gap = %lf%%" with
  | Some [V_double g] => Some g
  | _ => None
  end.

Definition set_gap (st : gap_regs) (g : float) : gap_regs :=
  mkGap (best_bound st) (incumbent st) g
        (latest_best_z st) (latest_branch_z0 st) (latest_branch_z1 st).

Definition try_mip_gap (line : cstring) (st : gap_regs) : gap_regs :=
  match match_mip_gap line with
  | Some g => set_gap st (PrimFloat.div g 100)
  | None => st
  end.

(** Pattern "Solution status X: MIP optimal, tolerance (Z%)". *)
Definition match_mip_optimal (line : cstring) : option float :=
  if contains line "MIP optimal" && contains line "tolerance" then
    match strstr line (lit "(") with
    | Some gap_str =>
        match sscanf_is 1 (tl gap_str) "%lf%%" with
        | Some [V_double g] => Some g
        | _ => None
        end
    | None => None
    end
  else None.

Definition try_mip_optimal (line : cstring) (st : gap_regs) : gap_regs :=
  match match_mip_optimal line with
  | Some g => set_gap st (PrimFloat.div g 100)
  | None => st
  end.

(** Pattern "New best: x..., Z = value". *)
Definition match_new_best (line : cstring) : option float :=
  if contains line "New best:" && contains line "Z =" then
    match strstr line (lit "Z =") with
    | Some z_pos =>
        match sscanf_is 1 z_pos "Z = %lf" with
        | Some [V_double z_val] => Some z_val
        | _ => None
        end
    | None => None
    end
  else None.

Definition try_new_best (line : cstring) (st : gap_regs) : gap_regs :=
  match match_new_best line with
  | Some z_val =>
      mkGap (best_bound st) (incumbent st) (gap st)
            z_val (latest_branch_z0 st) (latest_branch_z1 st)
  | None => st
  end.

(** Pattern "Best branch is x..., Z0 = val1, Z1 = val2". *)
Definition match_best_branch (line : cstring) : option (float * float) :=
  if contains line "Best branch is" && contains line "Z0 =" && contains line "Z1 =" then
    match strstr line (lit "Z0 ="), strstr line (lit "Z1 =") with
    | Some z0_pos, Some z1_pos =>
        match sscanf_is 1 z0_pos "Z0 = %lf", sscanf_is 1 z1_pos "Z1 = %lf" with
        | Some [V_double z0_val], Some [V_double z1_val] => Some (z0_val, z1_val)
        | _, _ => None
        end
    | _, _ => None
    end
  else None.

Definition try_best_branch (line : cstring) (st : gap_regs) : gap_regs :=
  match match_best_branch line with
  | Some (z0_val, z1_val) =>
      if negb (isnan z0_val) && negb (isnan z1_val) then
        let inc := if PrimFloat.ltb z0_val z1_val then z0_val else z1_val in
        let bnd := if PrimFloat.ltb z1_val z0_val then z0_val else z1_val in
        mkGap bnd inc
              (if fneq inc 0 then relative_gap bnd inc else gap st)
              (latest_best_z st) z0_val z1_val
      else
        mkGap (best_bound st) (incumbent st) (gap st)
              (latest_best_z st) z0_val z1_val
  | None => st
  end.

(** The body of the [while (fgets(...))] loop: the five matchers in order. *)
Definition gap_line (st : gap_regs) (line : cstring) : gap_regs :=
  try_best_branch line
    (try_new_best line
       (try_mip_optimal line
          (try_mip_gap line
             (try_best_bound line st)))).

(** The estimate made after the loop when no gap was computed. *)
Definition gap_fallback (st : gap_regs) : gap_regs :=
  if isnan (gap st) && negb (isnan (latest_best_z st))
     && negb (isnan (latest_branch_z0 st)) && negb (isnan (latest_branch_z1 st))
  then
    let inc := latest_best_z st in
    let bnd := if PrimFloat.ltb (latest_branch_z1 st) (latest_branch_z0 st)
               then latest_branch_z0 st else latest_branch_z1 st in
    mkGap bnd inc
          (if fneq inc 0 then relative_gap bnd inc else gap st)
          (latest_best_z st) (latest_branch_z0 st) (latest_branch_z1 st)
  else st.

Definition parse_final_mip_gap (solution_file : option cstring) : float :=
  match solution_file with
  | None => (-1)%float
  | Some fp => gap (gap_fallback (fold_left gap_line (read_lines 4096 fp) gap_init))
  end.

(** The test [final_gap >= 0.0] both callers make before printing the gap;
    otherwise they print that it is not available. *)
Definition gap_available (final_gap : float) : bool := PrimFloat.leb 0 final_gap.

(** ** parse_terminals *)

Fixpoint parse_terminals_loop (fuel : nat) (fp : cstring) (cnt : Z) : list Terminal :=
  match fuel with
  | O => []
  | S k =>
      let r := run_scanf (parse_format (lit "%lf %lf %lf")) fp [] in
      if sr_ret r =? 3 then
        match sr_vals r with
        | [V_double x; V_double y; V_double b] =>
            mkTerminal x y b 1 cnt :: parse_terminals_loop k (sr_rest r) (cnt + 1)
        | _ => []
        end
      else []
  end.

Definition parse_terminals (terminals_file : option cstring) (max_terminals : Z)
  : option (list Terminal) :=
  match terminals_file with
  | None => None
  | Some fp => Some (parse_terminals_loop (Z.to_nat max_terminals) fp 0)
  end.

(** ** parse_solution_coverage *)

(** [a[i] = v] for [i] inside the array. *)
Fixpoint store {A : Type} (a : list A) (i : nat) (v : A) : list A :=
  match a, i with
  | [], _ => []
  | _ :: r, O => v :: r
  | x :: r, S j => x :: store r j v
  end.

(** The line test of the coverage scan: [Some (terminal_id, value)] when the
    line holds the two markers and scans as
    "% DEBUG LP_VARS: not_covered[X] = Y". *)
Definition match_not_covered (line : cstring) : option (Z * float) :=
  if contains line "not_covered[" && contains line "] =" then
    match sscanf_is 2 line "%*s %*s %*s not_covered[%d] = %lf" with
    | Some [V_int terminal_id; V_double not_covered_value] =>
        Some (terminal_id, not_covered_value)
    | _ => None
    end
  else None.

Definition coverage_line (max_terminals : Z) (final_not_covered : list float)
  (line : cstring) : list float :=
  match match_not_covered line with
  | Some (terminal_id, v) =>
      if (0 <=? terminal_id) && (terminal_id <? max_terminals)
      then store final_not_covered (Z.to_nat terminal_id) v
      else final_not_covered
  | None => final_not_covered
  end.

Definition final_not_covered (max_terminals : Z) (fp : cstring) : list float :=
  fold_left (coverage_line max_terminals) (read_lines 1024 fp)
            (repeat 0%float (Z.to_nat max_terminals)).

(** The value returned and the [coverage] array left to the caller. *)
Definition parse_solution_coverage (solution_file : option cstring) (max_terminals : Z)
  : Z * list Z :=
  match solution_file with
  | None => (-1, repeat 1 (Z.to_nat max_terminals))
  | Some fp =>
      (0, map (fun v => if PrimFloat.ltb v 0.5 then 1 else 0)
              (final_not_covered max_terminals fp))
  end.

(** ** scale_coordinates *)

Definition margin : Z := 50.
Definition width : Z := 800.
Definition height : Z := 600.

Definition scale_coordinates (x y : float) : Z * Z :=
  (to_int (margin + double_to_int (PrimFloat.mul x (int_to_double (width - 2 * margin)))),
   to_int (margin + double_to_int
                      (PrimFloat.mul (PrimFloat.sub 1 y)
                                     (int_to_double (height - 2 * margin))))).

(** ** parse_fsts_from_solution *)

Fixpoint ints_of (vals : list scan_val) : list Z :=
  match vals with
  | V_int z :: r => z :: ints_of r
  | _ => []
  end.

(** The test "% fs#:" both header scans make on a line, after trimming. *)
Definition match_fs_header (trimmed : cstring) : option Z :=
  if contains trimmed "% fs" && contains trimmed ":" then
    match sscanf_is 1 trimmed "%% fs%d:" with
    | Some [V_int fst_id] => Some fst_id
    | _ => None
    end
  else None.

(** The terminal list after the colon of a header; [None] when [count > 0]
    fails. *)
Definition header_terminals (trimmed : cstring) : option (list Z) :=
  match strchr trimmed ":" with
  | Some colon =>
      let r := sscanf (skip_ws (tl colon)) "%d %d %d %d %d %d %d %d %d %d" in
      if 0 <? sr_ret r then Some (ints_of (sr_vals r)) else None
  | None => None
  end.

(** A line "x y id T S": a connection from the Steiner point to a terminal. *)
Definition match_steiner_line (trimmed : cstring) : option (float * float) :=
  match sscanf_is 4 trimmed "%lf %lf %d %c S" with
  | Some [V_double x; V_double y; V_int _; V_char t_char] =>
      if Ascii.eqb t_char "T" then Some (x, y) else None
  | _ => None
  end.

Definition set_steiner (f : FST) (x y : float) : FST :=
  if num_steiner_points f =? 0
  then mkFST (selected f) (terminal_ids f) 1 [mkSteinerPoint x y] (cost f) (fst_id f)
  else f.

(** The inner loop, looking for the Steiner point in the lines after a
    header.  [fp] is the stream, [current_pos] the position saved by
    [ftell]; the result is the tree and the stream the outer loop goes on
    with ([fseek] to [current_pos] before the [break]). *)
Fixpoint steiner_lookahead (fuel : nat) (fp current_pos : cstring) (f : FST)
  : FST * cstring :=
  match fuel with
  | O => (f, fp)
  | S k =>
      match fgets 1024 fp with
      | None => (f, fp)
      | Some (line, fp') =>
          let trimmed := skip_ws line in
          match match_steiner_line trimmed with
          | Some (x, y) => steiner_lookahead k fp' fp' (set_steiner f x y)
          | None =>
              if contains trimmed "% fs" || contains trimmed "EndPlot"
              then (f, current_pos)
              else steiner_lookahead k fp' fp' f
          end
      end
  end.

Fixpoint solution_loop (fuel : nat) (fp : cstring) (max_fsts : Z) (fsts : list FST)
  : list FST :=
  match fuel with
  | O => fsts
  | S k =>
      match fgets 1024 fp with
      | None => fsts
      | Some (line, fp') =>
          if Z.of_nat (List.length fsts) <? max_fsts then
            let trimmed := skip_ws line in
            match match_fs_header trimmed with
            | Some id =>
                match header_terminals trimmed with
                | Some tids =>
                    let (f, fp'') :=
                      steiner_lookahead (List.length fp') fp' fp'
                        (mkFST true tids 0 [] 0 id) in
                    solution_loop k fp'' max_fsts (fsts ++ [f])
                | None => solution_loop k fp' max_fsts fsts
                end
            | None => solution_loop k fp' max_fsts fsts
            end
          else fsts
      end
  end.

Definition parse_fsts_from_solution (solution_file : option cstring) (max_fsts : Z)
  : option (list FST) :=
  match solution_file with
  | None => None
  | Some fp => Some (solution_loop (List.length fp) fp max_fsts [])
  end.

(** ** parse_selected_fst_ids *)

Fixpoint selected_ids_loop (lines : list cstring) (max_fsts : Z) (selected_ids : list Z)
  : list Z :=
  match lines with
  | [] => selected_ids
  | line :: rest =>
      if Z.of_nat (List.length selected_ids) <? max_fsts then
        match match_fs_header (skip_ws line) with
        | Some id => selected_ids_loop rest max_fsts (selected_ids ++ [id])
        | None => selected_ids_loop rest max_fsts selected_ids
        end
      else selected_ids
  end.

Definition parse_selected_fst_ids (solution_file : option cstring) (max_fsts : Z)
  : option (list Z) :=
  match solution_file with
  | None => None
  | Some fp => Some (selected_ids_loop (read_lines 1024 fp) max_fsts [])
  end.

(** ** parse_fsts_from_dump *)

Definition is_delim (c : ascii) : bool := Ascii.eqb c " " || Ascii.eqb c TAB.

(** The tokens successive calls of [strtok_r(., " \t", &saveptr)] return;
    [cur] is the token being read, last character first. *)
Fixpoint tokenize (cur : cstring) (s : cstring) : list cstring :=
  match s with
  | [] => match cur with [] => [] | _ => [rev cur] end
  | c :: r =>
      if is_delim c then
        match cur with
        | [] => tokenize [] r
        | _ => rev cur :: tokenize [] r
        end
      else tokenize (c :: cur) r
  end.

(** [isdigit(token[0]) || (token[0] == '-' && isdigit(token[1]))] *)
Definition token_is_number (token : cstring) : bool :=
  match token with
  | c0 :: r =>
      isdigit c0
      || (Ascii.eqb c0 "-" && match r with c1 :: _ => isdigit c1 | [] => false end)
  | [] => false
  end.

(** The loop [while (token && num_terminals < 10)]. *)
Fixpoint collect_terminals (toks : list cstring) (terminals : list Z) : list Z :=
  match toks with
  | [] => terminals
  | token :: rest =>
      if Z.of_nat (List.length terminals) <? 10 then
        collect_terminals rest
          (if token_is_number token then
             let term := atoi token in
             if (0 <=? term) && (term <? 50) then terminals ++ [term] else terminals
           else terminals)
      else terminals
  end.

(** The terminals of a dump line; [None] for a line the loop skips with
    [continue] (debug or empty). *)
Definition dump_line_terminals (line : cstring) : option (list Z) :=
  let trimmed := skip_ws (cut_newline line) in
  if contains trimmed "DEBUG" || (List.length trimmed =? 0)%nat then None
  else Some (collect_terminals (tokenize [] trimmed) []).

Definition dump_fst (cnt : Z) (terminals : list Z) : FST :=
  mkFST false terminals
        (if 2 <? Z.of_nat (List.length terminals) then 1 else 0) []
        (int_to_double (to_int (100000 + cnt * 10000))) cnt.

Fixpoint dump_loop (lines : list cstring) (max_fsts : Z) (fsts : list FST) : list FST :=
  match lines with
  | [] => fsts
  | line :: rest =>
      if Z.of_nat (List.length fsts) <? max_fsts then
        match dump_line_terminals line with
        | Some terminals =>
            if 2 <=? Z.of_nat (List.length terminals)
            then dump_loop rest max_fsts
                   (fsts ++ [dump_fst (Z.of_nat (List.length fsts)) terminals])
            else dump_loop rest max_fsts fsts
        | None => dump_loop rest max_fsts fsts
        end
      else fsts
  end.

Definition parse_fsts_from_dump (dump_file : option cstring) (max_fsts : Z)
  : option (list FST) :=
  match dump_file with
  | None => None
  | Some fp => Some (dump_loop (read_lines 1024 fp) max_fsts [])
  end.

(** ** get_battery_color *)

Definition get_battery_color (b : float) : string :=
  if PrimFloat.leb 80 b then "#27ae60"
  else if PrimFloat.leb 60 b then "#52c41a"
  else if PrimFloat.leb 40 b then "#f39c12"
  else if PrimFloat.leb 20 b then "#e67e22"
  else "#e74c3c".

(** ** create_rich_visualization *)

(** The elements written into the SVG canvas. *)
Inductive svg : Type :=
| Line (x1 y1 x2 y2 : Z)
| SteinerCircle (cx cy : Z)
| TerminalCircle (cx cy : Z) (color : string) (is_covered : bool) (label : Z) (b : float).

(** *** Marking the universe (the loop over [all_fsts]) *)

(** The inner loop over [selected_fst_ids], left by [break] at the first
    match. *)
Fixpoint id_listed (id : Z) (selected_fst_ids : list Z) : bool :=
  match selected_fst_ids with
  | [] => false
  | s :: rest => if id =? s then true else id_listed id rest
  end.

Definition set_selected (f : FST) (b : bool) : FST :=
  mkFST b (terminal_ids f) (num_steiner_points f) (steiner_points f) (cost f) (fst_id f).

Definition mark_selected (all_fsts : list FST) (selected_fst_ids : list Z) : list FST :=
  map (fun f => set_selected f (id_listed (fst_id f) selected_fst_ids)) all_fsts.

(** *** Drawing the selected trees *)

(** The array access [terminals[i]]: [None] outside the entries that
    [parse_terminals] filled. *)
Definition terminal_at (terminals : list Terminal) (i : Z) : option Terminal :=
  if 0 <=? i then nth_error terminals (Z.to_nat i) else None.

Definition scale_terminal (t : Terminal) : Z * Z := scale_coordinates (t_x t) (t_y t).

Section Drawing.
Variable terminals : list Terminal.

(** [term_id >= 0 && term_id < num_terminals], where [num_terminals] is the
    number of entries [parse_terminals] filled. *)
Definition in_table (term_id : Z) : bool :=
  (0 <=? term_id) && (term_id <? Z.of_nat (List.length terminals)).

(** Lines from the Steiner point to each terminal of the tree. *)
Fixpoint draw_spokes (sx sy : Z) (ids : list Z) : option (list svg) :=
  match ids with
  | [] => Some []
  | term_id :: rest =>
      if in_table term_id then
        match terminal_at terminals term_id, draw_spokes sx sy rest with
        | Some t, Some ls =>
            let (tx, ty) := scale_terminal t in Some (Line sx sy tx ty :: ls)
        | _, _ => None
        end
      else draw_spokes sx sy rest
  end.

(** Direct connections between consecutive terminals of the tree. *)
Fixpoint draw_path (ids : list Z) : option (list svg) :=
  match ids with
  | t1 :: rest =>
      match rest with
      | t2 :: _ =>
          if in_table t1 && in_table t2 then
            match terminal_at terminals t1, terminal_at terminals t2, draw_path rest with
            | Some a, Some b, Some ls =>
                let (x1, y1) := scale_terminal a in
                let (x2, y2) := scale_terminal b in
                Some (Line x1 y1 x2 y2 :: ls)
            | _, _, _ => None
            end
          else draw_path rest
      | [] => Some []
      end
  | [] => Some []
  end.

Definition draw_fst (f : FST) : option (list svg) :=
  if 0 <? num_steiner_points f then
    match nth_error (steiner_points f) 0 with
    | Some sp =>
        let (sx, sy) := scale_coordinates (sp_x sp) (sp_y sp) in
        match draw_spokes sx sy (terminal_ids f) with
        | Some ls => Some (ls ++ [SteinerCircle sx sy])
        | None => None
        end
    | None => None
    end
  else draw_path (terminal_ids f).

(** The loop over [selected_fsts]; [None] if an array was read outside
    its entries. *)
Fixpoint draw_selected_fsts (selected_fsts : list FST) : option (list svg) :=
  match selected_fsts with
  | [] => Some []
  | f :: rest =>
      match draw_fst f, draw_selected_fsts rest with
      | Some a, Some b => Some (a ++ b)
      | _, _ => None
      end
  end.
End Drawing.

Definition draw_terminal (i : Z) (t : Terminal) : svg :=
  let (scaled_x, scaled_y) := scale_terminal t in
  TerminalCircle scaled_x scaled_y (get_battery_color (battery t))
                 (negb (covered t =? 0)) i (battery t).

Fixpoint draw_terminals (i : Z) (terminals : list Terminal) : list svg :=
  match terminals with
  | [] => []
  | t :: rest => draw_terminal i t :: draw_terminals (i + 1) rest
  end.

(** [terminals[i].covered = coverage[i]; terminals[i].terminal_id = i;] *)
Fixpoint update_coverage (i : Z) (terminals : list Terminal) (coverage : list Z)
  : list Terminal :=
  match terminals with
  | [] => []
  | t :: rest =>
      mkTerminal (t_x t) (t_y t) (battery t) (nth (Z.to_nat i) coverage 0) i
        :: update_coverage (i + 1) rest coverage
  end.

(** *** The files and programs around the process *)

Record env : Type := mkEnv
  { fopen_r : string -> option cstring;   (* fopen(path, "r"): the contents *)
    fopen_w : string -> bool;             (* fopen(path, "w") succeeds *)
    access : string -> bool;              (* access(path, F_OK) == 0 *)
    run_command : string -> Z }.          (* exit status of system(command) *)

(** The data that the report written to [html_file] depends on; the fixed
    text around it is left out. *)
Record report : Type := mkReport
  { rp_svg : list svg;
    rp_num_selected : Z;
    rp_num_all_fsts : Z;
    rp_num_terminals : Z;
    rp_covered_count : Z;
    rp_final_gap : float;
    rp_rows : list FST }.

(** The name of the dump file: the directory of [fsts_file], then
    "fsts_dump.txt".  The program builds it in [char fsts_dump_file[512]]
    with [strncpy] and [strcat], without a check of the length: the name
    here is the one it builds when the buffer holds it, that is for a
    directory part of at most 498 characters, slash included; for a longer
    one the behaviour of the C program is undefined. *)
Fixpoint dir_prefix (s : cstring) : cstring :=
  match s with
  | [] => []
  | c :: r =>
      if existsb (Ascii.eqb "/") r then c :: dir_prefix r
      else if Ascii.eqb c "/" then [c] else []
  end.

Definition fsts_dump_path (fsts_file : string) : string :=
  (string_of_list_ascii (dir_prefix (lit fsts_file)) ++ "fsts_dump.txt")%string.

Definition count_if {A : Type} (p : A -> bool) (l : list A) : Z :=
  Z.of_nat (List.length (filter p l)).

(** What a call leaves behind: the messages written to [stderr] (one per
    [fprintf], without the newline) and the report, if one was written.
    The function returns to its caller in every case. *)
Definition create_rich_visualization (w : env)
  (terminals_file fsts_file solution_file html_file : string)
  : list string * option report :=
  let parsed := parse_terminals (fopen_r w terminals_file) 50 in
  if count parsed <=? 0 then (["Error: Could not parse terminals file"%string], None)
  else
    let coverage := snd (parse_solution_coverage (fopen_r w solution_file) 50) in
    let terminals := update_coverage 0 (entries parsed) coverage in
    if negb (fopen_w w html_file)
    then ([("Error: Cannot create HTML file: " ++ html_file)%string], None)
    else
      let all_fsts := parse_fsts_from_dump (fopen_r w (fsts_dump_path fsts_file)) 100 in
      let selected_fst_ids := parse_selected_fst_ids (fopen_r w solution_file) 50 in
      let marked := mark_selected (entries all_fsts) (entries selected_fst_ids) in
      let selected_fsts := parse_fsts_from_solution (fopen_r w solution_file) 50 in
      match draw_selected_fsts terminals (entries selected_fsts) with
      | None => ([], None)
      | Some edges =>
          ([], Some (mkReport
                       (edges ++ draw_terminals 0 terminals)
                       (count_if selected marked)
                       (count all_fsts)
                       (count parsed)
                       (count_if (fun t => negb (covered t =? 0)) terminals)
                       (parse_final_mip_gap (fopen_r w solution_file))
                       marked))
      end.

(** ** run_visualization_only and main *)

(** How a function that may call [exit] ends. *)
Inductive ending : Type :=
| Returns
| Exits (status : Z).

Definition dquote : string := String (ascii_of_nat 34) EmptyString.

Definition python_command (terminals_file fsts_file solution_file html_file : string)
  : string :=
  ("python3 html_generator.py --terminals " ++ dquote ++ terminals_file ++ dquote
   ++ " --fsts " ++ dquote ++ fsts_file ++ dquote
   ++ " --solution " ++ dquote ++ solution_file ++ dquote
   ++ " --output " ++ dquote ++ html_file ++ dquote ++ " 2>/dev/null")%string.

Definition run_visualization_only (w : env)
  (terminals_file fsts_file solution_file html_file : string)
  : list string * ending :=
  if negb (access w terminals_file)
  then ([("Error: Terminals file not found: " ++ terminals_file)%string], Exits 1)
  else if negb (access w fsts_file)
  then ([("Error: FSTs file not found: " ++ fsts_file)%string], Exits 1)
  else if negb (access w solution_file)
  then ([("Error: Solution file not found: " ++ solution_file)%string], Exits 1)
  else if access w "html_generator.py"
          && (run_command w (python_command terminals_file fsts_file solution_file html_file) =? 0)
  then ([], Returns)
  else
    (fst (create_rich_visualization w terminals_file fsts_file solution_file html_file),
     Returns).

Definition no_text (s : string) : bool := (String.length s =? 0)%nat.

(** [main] in visualization-only mode (options [-t -f -r -w]): the messages
    on [stderr] and the exit status of the process. *)
Definition main_visualization_only (w : env)
  (viz_terminals viz_fsts viz_solution viz_output : string) : list string * Z :=
  if no_text viz_terminals || no_text viz_fsts || no_text viz_solution || no_text viz_output
  then (["Error: Visualization mode requires all four files:";
         "  -t <terminals_file>"; "  -f <fsts_file>";
         "  -r <solution_file>"; "  -w <output_html_file>"]%string, 1)
  else
    match run_visualization_only w viz_terminals viz_fsts viz_solution viz_output with
    | (err, Exits status) => (err, status)
    | (err, Returns) => (err, 0)
    end.

(** [main] in full-simulation mode from step 4 on.  Steps 1 to 3 create the
    output directory and run the external tools, and leave the files of
    [w]; step 4 calls [create_rich_visualization] and [main] goes on to its
    [return 0]. *)
Definition main_simulation_report (w : env) (output_dir : string) : list string * Z :=
  let terminals_file := (output_dir ++ "/terminals.txt")%string in
  let fsts_file := (output_dir ++ "/fsts.txt")%string in
  let solution_file := (output_dir ++ "/solution.txt")%string in
  let html_file := (output_dir ++ "/visualization.html")%string in
  (fst (create_rich_visualization w terminals_file fsts_file solution_file html_file), 0).

(** ** <stdio.h>: [printf] conversions *)

Definition digit_char (d : Z) : ascii := ascii_of_N (Z.to_N (48 + d)).

(** The decimal digits of [n >= 0], least significant first; [fuel] bounds
    their number. *)
Fixpoint digits_rev (fuel : nat) (n : Z) : cstring :=
  match fuel with
  | O => []
  | S k => digit_char (n mod 10) :: (if n / 10 =? 0 then [] else digits_rev k (n / 10))
  end.

(** [%u]: the digits of [n >= 0], without leading zero. *)
Definition print_uint (n : Z) : cstring :=
  rev (digits_rev (S (Z.to_nat (Z.log2 n))) n).

(** [%d] *)
Definition print_int (z : Z) : cstring :=
  if z <? 0 then "-"%char :: print_uint (- z) else print_uint z.

(** The last [w] decimal digits of [n], most significant first. *)
Fixpoint fixed_digits (w : nat) (n : Z) : cstring :=
  match w with
  | O => []
  | S k => digit_char ((n / 10 ^ Z.of_nat k) mod 10) :: fixed_digits k n
  end.

(** [a / b] rounded to the nearest integer, ties to even. *)
Definition div_rne (a b : Z) : Z :=
  let q := a / b in
  match 2 * (a mod b) ?= b with
  | Lt => q
  | Eq => if Z.even q then q else q + 1
  | Gt => q + 1
  end.

(** [m * 2 ^ e * 10 ^ p] rounded to an integer, ties to even: the digits
    [printf] keeps of a double with [p] digits after the point. *)
Definition scaled_round (p : nat) (m : positive) (e : Z) : Z :=
  match e with
  | Zneg q => div_rne (Z.pos m * 10 ^ Z.of_nat p) (2 ^ Z.pos q)
  | _ => Z.pos m * 2 ^ e * 10 ^ Z.of_nat p
  end.

Definition print_sign (s : bool) : cstring := if s then ["-"%char] else [].

(** [%.pf]: the exact value of the double rounded to [p] digits after the
    point (to nearest, ties to even, as glibc does in the default rounding
    mode).  The sign of a NaN is not kept by [float]; it is printed
    without. *)
Definition print_fixed (p : nat) (x : float) : cstring :=
  match Prim2SF x with
  | S754_nan => lit "nan"
  | S754_infinity s => print_sign s ++ lit "inf"
  | S754_zero s =>
      print_sign s ++ "0"%char :: (match p with O => [] | _ => "."%char :: fixed_digits p 0 end)
  | S754_finite s m e =>
      let n := scaled_round p m e in
      print_sign s ++ print_uint (n / 10 ^ Z.of_nat p)
        ++ (match p with
            | O => []
            | _ => "."%char :: fixed_digits p (n mod 10 ^ Z.of_nat p)
            end)
  end.

(** [snprintf(buf, size, ...)]: the text, cut to fit the buffer with its
    closing NUL. *)
Definition snprintf (size : nat) (text : string) : string := substring 0 (size - 1) text.

(** [strncpy(dst, src, n); dst[n] = 0] *)
Definition strncpy (n : nat) (src : string) : string := substring 0 n src.

Definition text_of (s : cstring) : string := string_of_list_ascii s.

(** ** random_double and random_battery_level *)

Definition RAND_MAX : Z := 2147483647.

(** The pseudo-random generator after [srand(seed)] is the sequence of the
    values its calls return; a function draws from it at the index of the
    next call and hands back the index after its own calls. *)
Definition random_double (rand : nat -> Z) (i : nat) : float * nat :=
  (PrimFloat.div (int_to_double (rand i)) (int_to_double RAND_MAX), S i).

Definition random_battery_level (rand : nat -> Z) (i : nat) : float * nat :=
  let (r, i1) := random_double rand i in
  let (d, i2) := random_double rand i1 in
  if PrimFloat.ltb r 0.2 then (PrimFloat.add 10 (PrimFloat.mul d 30), i2)
  else if PrimFloat.ltb r 0.8 then (PrimFloat.add 40 (PrimFloat.mul d 40), i2)
  else (PrimFloat.add 80 (PrimFloat.mul d 20), i2).

(** ** parse_selected_fsts *)

(** The line test of the flag scan: the marker " % fs", with the blank
    before the percent sign, and a colon. *)
Definition match_selected_marker (line : cstring) : option Z :=
  if contains line " % fs" && contains line ":" then
    match sscanf_is 1 line " %% fs%d:" with
    | Some [V_int fst_id] => Some fst_id
    | _ => None
    end
  else None.

Definition selected_line (max_fsts : Z) (selected_fsts : list Z) (line : cstring)
  : list Z :=
  match match_selected_marker line with
  | Some fst_id =>
      if (0 <=? fst_id) && (fst_id <? max_fsts)
      then store selected_fsts (Z.to_nat fst_id) 1
      else selected_fsts
  | None => selected_fsts
  end.

(** The value returned and the [selected_fsts] array left to the caller. *)
Definition parse_selected_fsts (solution_file : option cstring) (max_fsts : Z)
  : Z * list Z :=
  match solution_file with
  | None => (-1, repeat 0 (Z.to_nat max_fsts))
  | Some fp =>
      (0, fold_left (selected_line max_fsts) (read_lines 1024 fp)
                    (repeat 0 (Z.to_nat max_fsts)))
  end.

(** ** The pipeline: main and the stages it runs *)

(** The system under the process.  Every field answers for the moment the
    program asks. *)
Record os : Type := mkOs
  { os_open : string -> option cstring;  (* fopen(path, "r"): the contents *)
    os_create : string -> bool;          (* fopen(path, "w") succeeds *)
    os_access : string -> bool;          (* access(path, F_OK) == 0 *)
    os_system : string -> string + Z;    (* system(command): the wait status, or
                                            -1 with the text of errno *)
    os_stat : string -> option bool;     (* stat(path, &st) == 0: S_ISDIR(st.st_mode) *)
    os_mkdir : string -> option string;  (* mkdir(path, 0755): the text of errno
                                            when it fails *)
    os_time : Z;                         (* time(NULL) *)
    os_rand : Z -> nat -> Z }.           (* srand(seed): the values the calls of
                                            rand() return from then on *)

(** What the process does to the outside, in order.  Text written to
    [stdout] is left out, and with it the verbose flag, which changes
    nothing else. *)
Inductive event : Type :=
| Stderr (msg : string)              (* one fprintf(stderr, ...), without its newline *)
| Executed (command : string)        (* system(command) *)
| Directory (path : string)          (* mkdir(path, 0755) succeeded *)
| File (path : string) (text : cstring)   (* the terminals file, written and closed *)
| Page (path : string) (r : report). (* the report of create_rich_visualization *)

(** A stage: what it does, and whether it returns or ends the process. *)
Definition stage : Type := (list event * ending)%type.

Definition and_then (p q : stage) : stage :=
  match p with
  | (done, Returns) => (done ++ fst q, snd q)
  | (done, Exits status) => (done, Exits status)
  end.

Module Process.

Notation "p ;; q" := (and_then p q) (at level 61, right associativity).

(** [((status) & 0xff00) >> 8] *)
Definition WEXITSTATUS (status : Z) : Z := Z.shiftr (Z.land status 65280) 8.

Definition run_command (w : os) (command : string) : list event * Z :=
  match os_system w command with
  | inl errno_text =>
      ([Executed command;
        Stderr ("Error: Failed to execute command: " ++ errno_text)%string], -1)
  | inr result => ([Executed command], WEXITSTATUS result)
  end.

Definition create_directory (w : os) (dir_path : string) : stage :=
  match os_stat w dir_path with
  | Some true => ([], Returns)
  | Some false =>
      ([Stderr ("Error: " ++ dir_path ++ " exists but is not a directory")%string], Exits 1)
  | None =>
      match os_mkdir w dir_path with
      | Some errno_text =>
          ([Stderr ("Error: Cannot create directory " ++ dir_path ++ ": "
                    ++ errno_text)%string], Exits 1)
      | None => ([Directory dir_path], Returns)
      end
  end.

(** The lines [fprintf(fp, "%.6f %.6f %.1f\n", x, y, battery)] writes for
    [n] terminals, drawing from [rand] at index [i]. *)
Fixpoint terminal_records (n : nat) (rand : nat -> Z) (i : nat) : cstring :=
  match n with
  | O => []
  | S k =>
      let (x, i1) := random_double rand i in
      let (y, i2) := random_double rand i1 in
      let (battery, i3) := random_battery_level rand i2 in
      print_fixed 6 x ++ " "%char :: print_fixed 6 y ++ " "%char :: print_fixed 1 battery
        ++ NL :: terminal_records k rand i3
  end.

(** [rand] is the generator as [srand(seed)] in [main] left it. *)
Definition generate_terminals (w : os) (rand : nat -> Z) (n_terminals : Z)
  (output_dir : string) : stage :=
  let terminals_file := snprintf 512 (output_dir ++ "/terminals.txt")%string in
  if os_create w terminals_file then
    ([File terminals_file (terminal_records (Z.to_nat n_terminals) rand 0)], Returns)
  else
    ([Stderr ("Error: Cannot create terminals file: " ++ terminals_file)%string], Exits 1).

Definition efst_command (terminals_file fsts_file : string) : string :=
  snprintf 1024 ("./efst < " ++ dquote ++ terminals_file ++ dquote
                 ++ " > " ++ dquote ++ fsts_file ++ dquote ++ " 2>/dev/null")%string.

Definition generate_fsts (w : os) (terminals_file fsts_file : string) : stage :=
  let (done, result) := run_command w (efst_command terminals_file fsts_file) in
  if result =? 0 then (done, Returns)
  else
    (done ++ [Stderr ("Error: FST generation failed (exit code "
                      ++ text_of (print_int result) ++ ")")%string], Exits 1).

Definition dumpfst_command (fsts_file dump_file : string) : string :=
  snprintf 1024 ("./dumpfst < " ++ dquote ++ fsts_file ++ dquote
                 ++ " > " ++ dquote ++ dump_file ++ dquote ++ " 2>/dev/null")%string.

Definition generate_fst_dump (w : os) (fsts_file dump_file : string) : stage :=
  let (done, result) := run_command w (dumpfst_command fsts_file dump_file) in
  if result =? 0 then (done, Returns)
  else
    (done ++ [Stderr ("Error: FST dump generation failed (exit code "
                      ++ text_of (print_int result) ++ ")")%string], Exits 1).

Definition bb_command (fsts_file solution_file : string) (budget : Z) : string :=
  let env_var := snprintf 64 ("GEOSTEINER_BUDGET=" ++ text_of (print_int budget))%string in
  snprintf 1024 (env_var ++ " timeout 300s ./bb < " ++ dquote ++ fsts_file ++ dquote
                 ++ " > " ++ dquote ++ solution_file ++ dquote ++ " 2>&1")%string.

Definition solve_smt (w : os) (fsts_file solution_file : string) (budget : Z) : stage :=
  let (done, result) := run_command w (bb_command fsts_file solution_file budget) in
  if negb (result =? 0) && negb (result =? 124) then
    (done ++ [Stderr ("Warning: SMT solver returned exit code "
                      ++ text_of (print_int result))%string], Returns)
  else (done, Returns).

(** The files and programs as the report stage sees them. *)
Definition env_of (w : os) : env :=
  mkEnv (os_open w) (os_create w) (os_access w) (fun command => snd (run_command w command)).

Definition report_stage (w : os) (terminals_file fsts_file solution_file html_file : string)
  : stage :=
  let (err, page) :=
    create_rich_visualization (env_of w) terminals_file fsts_file solution_file html_file in
  (map Stderr err ++ match page with Some r => [Page html_file r] | None => [] end, Returns).

(** *** Options *)

Record options : Type := mkOptions
  { n_terminals : Z; budget : Z; seed : Z; output_dir : string;
    visualization_only : bool;
    viz_terminals : string; viz_fsts : string; viz_solution : string; viz_output : string }.

Definition defaults : options :=
  mkOptions 0 0 0 "simulation_output" false "" "" "" "".

(** The body of the [switch]: the options after [opt] with its [optarg],
    or the status of the [exit] taken. *)
Definition set_option (o : options) (opt : ascii) (optarg : string) : options + Z :=
  let (n, b, s, d, v, t, f, r, out) := o in
  if Ascii.eqb opt "n" then inl (mkOptions (atoi (lit optarg)) b s d v t f r out)
  else if Ascii.eqb opt "b" then inl (mkOptions n (atoi (lit optarg)) s d v t f r out)
  else if Ascii.eqb opt "s" then inl (mkOptions n b (atoi (lit optarg)) d v t f r out)
  else if Ascii.eqb opt "o" then inl (mkOptions n b s (strncpy 255 optarg) v t f r out)
  else if Ascii.eqb opt "v" then inl o
  else if Ascii.eqb opt "h" then inr 0
  else if Ascii.eqb opt "t" then inl (mkOptions n b s d true (strncpy 511 optarg) f r out)
  else if Ascii.eqb opt "f" then inl (mkOptions n b s d true t (strncpy 511 optarg) r out)
  else if Ascii.eqb opt "r" then inl (mkOptions n b s d true t f (strncpy 511 optarg) out)
  else if Ascii.eqb opt "w" then inl (mkOptions n b s d true t f r (strncpy 511 optarg))
  else inr 1.

(** The loop [while ((opt = getopt(...)) != -1)], on the options [getopt]
    returns one after the other, each with its [optarg]. *)
Fixpoint read_options (args : list (ascii * string)) (o : options) : options + Z :=
  match args with
  | [] => inl o
  | (opt, optarg) :: rest =>
      match set_option o opt optarg with
      | inl o' => read_options rest o'
      | inr status => inr status
      end
  end.

(** *** main *)

(** The full simulation, from the validation of [-n] and [-b] on.  Between
    [solve_smt] and the report, [main] calls [parse_final_mip_gap] and prints
    the gap to [stdout]; the call changes nothing else and is left out with
    the other text on [stdout]. *)
Definition simulation (w : os) (o : options) : stage :=
  if n_terminals o <=? 0
  then ([Stderr "Error: Number of terminals (-n) must be positive"], Exits 1)
  else if budget o <=? 0
  then ([Stderr "Error: Budget (-b) must be positive"], Exits 1)
  else
    let seed := if seed o =? 0 then to_int (os_time w) else seed o in
    let terminals_file := snprintf 512 (output_dir o ++ "/terminals.txt")%string in
    let fsts_file := snprintf 512 (output_dir o ++ "/fsts.txt")%string in
    let solution_file := snprintf 512 (output_dir o ++ "/solution.txt")%string in
    let html_file := snprintf 512 (output_dir o ++ "/visualization.html")%string in
    let fsts_dump_file := snprintf 512 (output_dir o ++ "/fsts_dump.txt")%string in
    create_directory w (output_dir o) ;;
    generate_terminals w (os_rand w seed) (n_terminals o) (output_dir o) ;;
    generate_fsts w terminals_file fsts_file ;;
    generate_fst_dump w fsts_file fsts_dump_file ;;
    solve_smt w fsts_file solution_file (budget o) ;;
    report_stage w terminals_file fsts_file solution_file html_file.

Definition run_visualization_only (w : os)
  (terminals_file fsts_file solution_file html_file : string) : stage :=
  if negb (os_access w terminals_file)
  then ([Stderr ("Error: Terminals file not found: " ++ terminals_file)%string], Exits 1)
  else if negb (os_access w fsts_file)
  then ([Stderr ("Error: FSTs file not found: " ++ fsts_file)%string], Exits 1)
  else if negb (os_access w solution_file)
  then ([Stderr ("Error: Solution file not found: " ++ solution_file)%string], Exits 1)
  else if os_access w "html_generator.py" then
    let (done, result) :=
      run_command w (snprintf 2048 (python_command terminals_file fsts_file
                                                   solution_file html_file)) in
    if result =? 0 then (done, Returns)
    else (done, Returns) ;; report_stage w terminals_file fsts_file solution_file html_file
  else report_stage w terminals_file fsts_file solution_file html_file.



End Process.

(** * Specification-level definitions

    What the properties below are stated with: the lines of a log seen
    declaratively, and the arithmetic of binary64 rounding.  None of them is
    part of the program. *)

(** A log given line by line, every line ended by a newline. *)
Definition log_lines (ls : list string) : option cstring :=
  Some (flat_map (fun s => lit s ++ [NL]) ls).

Definition log_of (s : string) : option cstring := log_lines [s].

(** ** Convergence gap *)

(** None of the five matchers of [parse_final_mip_gap] fires on the line. *)
Definition no_gap_pattern (line : cstring) : Prop :=
  match_best_bound line = None /\ match_mip_gap line = None
  /\ match_mip_optimal line = None /\ match_new_best line = None
  /\ match_best_branch line = None.

(** ** Coverage *)

(** The assignments [not_covered[i] = v] the coverage scan accepts, in the
    order of the log. *)
Definition assignments (lines : list cstring) : list (Z * float) :=
  flat_map (fun l => match match_not_covered l with Some a => [a] | None => [] end) lines.

(** The value of the last assignment to index [i], if there is one. *)
Fixpoint last_assigned (i : Z) (asg : list (Z * float)) : option float :=
  match asg with
  | [] => None
  | (j, v) :: rest =>
      match last_assigned i rest with
      | Some w => Some w
      | None => if j =? i then Some v else None
      end
  end.

(** The marker scan as the specification words it: the marker
    [not_covered[<i>]] wherever it stands in the line, followed by [= <v>]. *)
Definition spec_match_not_covered (line : cstring) : option (Z * float) :=
  match strstr line (lit "not_covered[") with
  | Some at_marker =>
      match sscanf_is 2 at_marker "not_covered[%d] = %lf" with
      | Some [V_int i; V_double v] => Some (i, v)
      | _ => None
      end
  | None => None
  end.

Definition spec_assignments (lines : list cstring) : list (Z * float) :=
  flat_map (fun l => match spec_match_not_covered l with Some a => [a] | None => [] end)
           lines.

(** Coverage of terminal [i] as the specification words it. *)
Definition spec_covered (fp : cstring) (i : Z) : bool :=
  match last_assigned i (spec_assignments (read_lines 1024 fp)) with
  | Some v => PrimFloat.ltb v 0.5
  | None => true
  end.

(** ** Selected trees *)

(** A line the outer scan of [parse_fsts_from_solution] records: its tree id
    and terminal list. *)
Definition header_of (line : cstring) : option (Z * list Z) :=
  let trimmed := skip_ws line in
  match match_fs_header trimmed with
  | Some id =>
      match header_terminals trimmed with
      | Some tids => Some (id, tids)
      | None => None
      end
  | None => None
  end.

Definition headers (lines : list cstring) : list (Z * list Z) :=
  flat_map (fun l => match header_of l with Some h => [h] | None => [] end) lines.

Definition fst_key (f : FST) : Z * list Z := (fst_id f, terminal_ids f).


(** The inner loop read on the lines after a header: the tree with the
    first Steiner line met before the next marker. *)
Fixpoint lookahead_lines (f : FST) (lines : list cstring) : FST :=
  match lines with
  | [] => f
  | line :: rest =>
      match match_steiner_line (skip_ws line) with
      | Some (x, y) => lookahead_lines (set_steiner f x y) rest
      | None =>
          if contains (skip_ws line) "% fs" || contains (skip_ws line) "EndPlot"
          then f
          else lookahead_lines f rest
      end
  end.

(** The selected trees of a log read line by line, without any stream
    position: every header line gives a tree, completed from the lines that
    follow it. *)
Fixpoint trees_of_lines (lines : list cstring) : list FST :=
  match lines with
  | [] => []
  | line :: rest =>
      match header_of line with
      | Some (id, tids) =>
          lookahead_lines (mkFST true tids 0 [] 0 id) rest :: trees_of_lines rest
      | None => trees_of_lines rest
      end
  end.

(** ** Tree dump *)

(** The terminal index a token contributes, if any. *)
Definition token_terminal (token : cstring) : option Z :=
  if token_is_number token then
    let term := atoi token in
    if (0 <=? term) && (term <? 50) then Some term else None
  else None.

Definition valid_terminals (toks : list cstring) : list Z :=
  flat_map (fun t => match token_terminal t with Some z => [z] | None => [] end) toks.

(** The terminal lists of the lines accepted as trees, in the order of the
    file. *)
Definition accepted_lines (lines : list cstring) : list (list Z) :=
  flat_map (fun l => match dump_line_terminals l with
                     | Some ts => if 2 <=? Z.of_nat (List.length ts) then [ts] else []
                     | None => []
                     end) lines.

Fixpoint number_from (k : Z) (trees : list (list Z)) : list FST :=
  match trees with
  | [] => []
  | ts :: rest => dump_fst k ts :: number_from (k + 1) rest
  end.

(** ** Drawing *)

Definition default_terminal : Terminal := mkTerminal 0 0 0 0 0.

(** [terminals[i]] for an index inside the table. *)
Definition table_entry (terminals : list Terminal) (i : Z) : Terminal :=
  nth (Z.to_nat i) terminals default_terminal.

Definition spoke (terminals : list Terminal) (sx sy : Z) (i : Z) : svg :=
  let (tx, ty) := scale_terminal (table_entry terminals i) in Line sx sy tx ty.

Definition edge (terminals : list Terminal) (p : Z * Z) : svg :=
  let (x1, y1) := scale_terminal (table_entry terminals (fst p)) in
  let (x2, y2) := scale_terminal (table_entry terminals (snd p)) in
  Line x1 y1 x2 y2.

(** The pairs [(ids[j], ids[j + 1])]. *)
Fixpoint consecutive (ids : list Z) : list (Z * Z) :=
  match ids with
  | t1 :: rest =>
      match rest with
      | t2 :: _ => (t1, t2) :: consecutive rest
      | [] => []
      end
  | [] => []
  end.

Definition both_in_table (terminals : list Terminal) (p : Z * Z) : bool :=
  in_table terminals (fst p) && in_table terminals (snd p).


(** ** The process and its files *)

(** A directory that holds the three input files and no Python helper; the
    terminal file has the given lines, the other files cannot be opened. *)
Definition viz_env (terminals_text : list string) (creatable : bool) : env :=
  mkEnv (fun path => if String.eqb path "terminals.txt"
                     then log_lines terminals_text else None)
        (fun _ => creatable)
        (fun path => negb (String.eqb path "html_generator.py"))
        (fun _ => 127).

(** ** Binary64 rounding on integers

    The doubles that occur in [scale_coordinates] for coordinates of the
    unit square are multiples of [2 ^ (- K)]; their values are handled as
    integers, scaled by [2 ^ K]. *)

Definition K : Z := 1200.

(** [v / 2 ^ s] rounded to the nearest integer, ties to even. *)
Definition rne (v s : Z) : Z :=
  let q := v / 2 ^ s in
  match 2 * (v mod 2 ^ s) ?= 2 ^ s with
  | Lt => q
  | Eq => if Z.even q then q else q + 1
  | Gt => q + 1
  end.

(** The exponent of the last place of the double nearest to [v * 2 ^ (- K)],
    plus [K]. *)
Definition grid (v : Z) : Z := Z.max (Z.log2 v + 1 - 53) (K - 1074).

(** The double nearest to [v * 2 ^ (- K)], scaled by [2 ^ K]. *)
Definition rnd (v : Z) : Z := rne v (grid v) * 2 ^ grid v.

(** The record [shr_1] reaches after [k >= 1] shifts of the mantissa [M]. *)
Definition shifted (M k : Z) : shr_record :=
  Build_shr_record (M / 2 ^ k) (Z.odd (M / 2 ^ (k - 1))) (negb (M mod 2 ^ (k - 1) =? 0)).

(** Zero, or a positive finite double whose exponent is at least [- K]. *)
Definition nonneg_SF (r : spec_float) : Prop :=
  match r with
  | S754_zero _ => True
  | S754_finite false _ e => - K <= e
  | _ => False
  end.

(** The value of such a double, scaled by [2 ^ K]. *)
Definition sval (x : spec_float) : Z :=
  match x with
  | S754_finite false m e => Z.pos m * 2 ^ (e + K)
  | _ => 0
  end.

Definition SF_one : spec_float := S754_finite false 4503599627370496 (-52).

(** [0.0 <= x && x <= 1.0] *)
Definition in_unit (x : float) : Prop :=
  PrimFloat.leb 0 x = true /\ PrimFloat.leb x 1 = true.

(** [scaled_x - margin] and [scaled_y - margin] in terms of the value of the
    coordinate. *)
Definition x_offset (x : float) : Z := rnd (700 * sval (Prim2SF x)) / 2 ^ K.

Definition y_offset (y : float) : Z :=
  rnd (500 * rnd (2 ^ K - sval (Prim2SF y))) / 2 ^ K.

(** Patterns 2 and 3 of the gap scan with the closing percent sign left out
    of the format. *)
Definition match_mip_gap_number (line : cstring) : option float :=
  match sscanf_is 1 line "MIP gap = %lf" with
  | Some [V_double g] => Some g
  | _ => None
  end.

Definition match_mip_optimal_number (line : cstring) : option float :=
  if contains line "MIP optimal" && contains line "tolerance" then
    match strstr line (lit "(") with
    | Some gap_str =>
        match sscanf_is 1 (tl gap_str) "%lf" with
        | Some [V_double g] => Some g
        | _ => None
        end
    | None => None
    end
  else None.

(** The ids of the lines both header scans take for a tree header. *)
Definition header_ids (lines : list cstring) : list Z :=
  flat_map (fun l => match match_fs_header (skip_ws l) with
                     | Some id => [id]
                     | None => []
                     end) lines.

(** Neither a NaN nor below zero: zero, a positive number or [+inf]. *)
Definition not_negative (x : spec_float) : Prop :=
  match x with
  | S754_zero _ => True
  | S754_infinity s | S754_finite s _ _ => s = false
  | S754_nan => False
  end.

(** The lines that raise the flag of index [i]. *)
Definition raises (i : Z) (l : cstring) : bool :=
  match match_selected_marker l with
  | Some id => id =? i
  | None => false
  end.

Definition is_terminal_circle (e : svg) : bool :=
  match e with
  | TerminalCircle _ _ _ _ _ _ => true
  | _ => false
  end.

(** Coverage of terminal [k] as the solver log gives it: the last value
    assigned to [not_covered[k]] is below 0.5, or there is none. *)
Definition covered_in_log (solution_file : option cstring) (k : Z) : bool :=
  match solution_file with
  | Some fp =>
      match last_assigned k (assignments (read_lines 1024 fp)) with
      | Some v => PrimFloat.ltb v 0.5
      | None => true
      end
  | None => true
  end.

(** The circle drawn for entry [k] of the terminal table. *)
Definition circle_of (solution_file : option cstring) (k : Z) (t : Terminal) : svg :=
  let (x, y) := scale_coordinates (t_x t) (t_y t) in
  TerminalCircle x y (get_battery_color (battery t)) (covered_in_log solution_file k)
                 k (battery t).

(** The directives of a format that assign a value. *)
Definition converts (d : directive) : bool :=
  match d with
  | D_int | D_double | D_char => true
  | _ => false
  end.

Definition is_int (v : scan_val) : bool :=
  match v with
  | V_int _ => true
  | _ => false
  end.

(** What a tree of [parse_fsts_from_solution] looks like: marked selected,
    without cost, with one to ten terminal ids and the junction it was given,
    if any. *)
Definition solution_tree (f : FST) : Prop :=
  selected f = true
  /\ 1 <= num_terminals f <= 10
  /\ (num_steiner_points f = 0 \/ num_steiner_points f = 1)
  /\ Z.of_nat (List.length (steiner_points f)) = num_steiner_points f
  /\ cost f = 0%float.

(** A text line as [fgets] can take it whole into a buffer of [size] bytes:
    no newline and no NUL inside, and room for the newline and the closing
    NUL. *)
Definition fits_buffer (size : nat) (s : cstring) : Prop :=
  (List.length s + 2 <= size)%nat
  /\ existsb (Ascii.eqb NL) s = false /\ existsb (Ascii.eqb NUL) s = false.

(** The commands a run handed to [system], in order. *)
Definition commands (done : list event) : list string :=
  flat_map (fun e => match e with Executed c => [c] | _ => [] end) done.




(** The output directory exists, or can be created. *)
Definition directory_ready (w : os) (dir_path : string) : Prop :=
  os_stat w dir_path = Some true \/ (os_stat w dir_path = None /\ os_mkdir w dir_path = None).

(** The options as the option loop leaves them: every string fits the
    buffer it was copied to, every number is an [int]. *)
Definition options_fit (o : Process.options) : Prop :=
  (String.length (Process.output_dir o) <= 255)%nat
  /\ INT_MIN <= Process.n_terminals o <= INT_MAX
  /\ INT_MIN <= Process.budget o <= INT_MAX
  /\ INT_MIN <= Process.seed o <= INT_MAX
  /\ (String.length (Process.viz_terminals o) <= 511)%nat
  /\ (String.length (Process.viz_fsts o) <= 511)%nat
  /\ (String.length (Process.viz_solution o) <= 511)%nat
  /\ (String.length (Process.viz_output o) <= 511)%nat.

(** The two bits below the mantissa that a rounding location stands for. *)
Definition loc_bits (l : location) : Z :=
  match l with
  | loc_Exact => 0
  | loc_Inexact Lt => 1
  | loc_Inexact Eq => 2
  | loc_Inexact Gt => 3
  end.

(** [lo <= x && x <= hi] on doubles. *)
Definition between (lo hi x : float) : Prop :=
  PrimFloat.leb lo x = true /\ PrimFloat.leb x hi = true.

(** The generator returns values of the range of [rand()]. *)
Definition in_rand_range (rand : nat -> Z) : Prop :=
  forall i : nat, 0 <= rand i <= RAND_MAX.

(** A double that is zero or positive, with its value scaled by [2 ^ K]
    between [lo * 2 ^ K] and [hi * 2 ^ K]. *)
Definition in_range (lo hi : Z) (x : float) : Prop :=
  nonneg_SF (Prim2SF x)
  /\ lo * 2 ^ K <= sval (Prim2SF x) <= hi * 2 ^ K.

(** The value of digits given least significant first. *)
Definition value_rev (ds : cstring) : Z :=
  fold_right (fun c acc => 10 * acc + digit_val c) 0 ds.

(** The sign bit is clear on a zero or a finite number. *)
Definition sign_clear (x : spec_float) : Prop :=
  match x with
  | S754_zero s | S754_finite s _ _ => s = false
  | _ => False
  end.

(** The digits [%.pf] prints for [x], as one integer: [x * 10 ^ p], rounded. *)
Definition printed_digits (p : nat) (x : float) : Z :=
  match Prim2SF x with
  | S754_finite _ m e => scaled_round p m e
  | _ => 0
  end.

(** The double [%lf] reads from the text [%.pf] printed for [x]. *)
Definition reread (p : nat) (x : float) : float :=
  dec_to_double false (printed_digits p x) (- Z.of_nat p).

(** What may follow a number in the terminals file: a blank or a newline. *)
Definition separator (c : ascii) : Prop := c = " "%char \/ c = NL.

(** The terminal [parse_terminals] reads from line [k] of the file
    [generate_terminals] wrote: each line takes four values of the generator,
    and the numbers come back as they were printed. *)
Definition read_back (rand : nat -> Z) (k : nat) : Terminal :=
  mkTerminal (reread 6 (fst (random_double rand (4 * k))))
             (reread 6 (fst (random_double rand (4 * k + 1))))
             (reread 1 (fst (random_battery_level rand (4 * k + 2))))
             1 (Z.of_nat k).

(** The name of the dump file fits the buffer of 512 bytes that
    [create_rich_visualization] builds it in: the directory part of
    [fsts_file] with its slash, the 13 characters of "fsts_dump.txt" and the
    closing NUL.  Beyond that the C program writes past the buffer. *)
Definition dump_path_fits (fsts_file : string) : Prop :=
  (List.length (dir_prefix (lit fsts_file)) + 14 <= 512)%nat.

(** A directory that holds the terminal file and the solver log with the
    given lines and no dump file; the report can be created. *)
Definition report_env (terminals_text solution_text : list string) : env :=
  mkEnv (fun path => if String.eqb path "terminals.txt" then log_lines terminals_text
                     else if String.eqb path "solution.txt" then log_lines solution_text
                     else None)
        (fun _ => true)
        (fun path => negb (String.eqb path "html_generator.py"))
        (fun _ => 127).

(** The label and the coverage of the circles of a drawing, in order. *)
Definition circle_flags (drawing : list svg) : list (Z * bool) :=
  flat_map (fun e => match e with
                     | TerminalCircle _ _ _ is_covered label _ => [(label, is_covered)]
                     | _ => []
                     end) drawing.

(** * Properties *)

(** ** Reading lines *)

Lemma fgets_buf_split room fp l r : fgets_buf room fp = (l, r) -> fp = l ++ r.
Proof.
  revert fp l r.
  induction room as [|k IH]; intros [|c fp] l r; simpl;
    try (intros [= <- <-]; reflexivity).
  destruct (Ascii.eqb c NL).
  - intros [= <- <-]. reflexivity.
  - destruct (fgets_buf k fp) as [l' r'] eqn:E. intros [= <- <-].
    simpl. f_equal. now apply IH.
Qed.

Lemma fgets_buf_progress room c fp : fst (fgets_buf (S room) (c :: fp)) <> [].
Proof.
  simpl. destruct (Ascii.eqb c NL); [discriminate|].
  destruct (fgets_buf room fp); discriminate.
Qed.

(** A successful [fgets] consumes at least one character. *)
Lemma fgets_shorter size fp line fp' :
  (2 <= size)%nat -> fgets size fp = Some (line, fp') ->
  (List.length fp' < List.length fp)%nat.
Proof.
  intros Hs. unfold fgets. destruct fp as [|c fp]; [discriminate|].
  destruct (fgets_buf (size - 1) (c :: fp)) as [buf r] eqn:E. intros [= _ <-].
  pose proof (fgets_buf_split _ _ _ _ E) as Hsplit.
  assert (Hne : buf <> []).
  { replace (size - 1)%nat with (S (size - 2)) in E by lia.
    pose proof (fgets_buf_progress (size - 2) c fp) as P. now rewrite E in P. }
  apply (f_equal (@List.length ascii)) in Hsplit. rewrite length_app in Hsplit.
  destruct buf; [congruence|]. simpl in *. lia.
Qed.

(** The length of the stream is enough fuel for [fgets_loop]. *)
Lemma fgets_loop_fuel size n m fp :
  (2 <= size)%nat -> (List.length fp <= n)%nat -> (List.length fp <= m)%nat ->
  fgets_loop n size fp = fgets_loop m size fp.
Proof.
  intros Hs. revert m fp. induction n as [|n IH]; intros m fp Hn Hm.
  - destruct fp; [|simpl in Hn; lia]. destruct m; reflexivity.
  - destruct m as [|m].
    + destruct fp; [reflexivity|simpl in Hm; lia].
    + simpl. destruct (fgets size fp) as [[line fp']|] eqn:E; [|reflexivity].
      pose proof (fgets_shorter _ _ _ _ Hs E). f_equal. apply IH; lia.
Qed.

Lemma read_lines_step size fp :
  (2 <= size)%nat ->
  read_lines size fp =
  match fgets size fp with
  | Some (line, fp') => line :: read_lines size fp'
  | None => []
  end.
Proof.
  intros Hs. unfold read_lines. destruct fp as [|c fp]; [reflexivity|].
  cbn [List.length fgets_loop].
  destruct (fgets size (c :: fp)) as [[line fp']|] eqn:E; [|reflexivity].
  pose proof (fgets_shorter _ _ _ _ Hs E) as L. simpl in L.
  f_equal. apply fgets_loop_fuel; [assumption|lia|lia].
Qed.

(** ** [sscanf] on the first directive *)

Lemma run_scanf_lit c ds a l vals :
  run_scanf (D_lit c :: ds) (a :: l) vals
  = if Ascii.eqb a c then run_scanf ds l vals else matching_failure vals (a :: l).
Proof. reflexivity. Qed.

Lemma run_scanf_pct ds inp vals :
  run_scanf (D_pct :: ds) inp vals =
  match skip_ws inp with
  | [] => input_failure vals
  | a :: inp' =>
      if Ascii.eqb a "%" then run_scanf ds inp' vals
      else matching_failure vals (a :: inp')
  end.
Proof. reflexivity. Qed.

Lemma run_scanf_double ds inp vals :
  run_scanf (D_double :: ds) inp vals =
  match skip_ws inp with
  | [] => input_failure vals
  | c :: r =>
      match scan_double (c :: r) with
      | Some (f, inp') => run_scanf ds inp' (vals ++ [V_double f])
      | None => matching_failure vals (c :: r)
      end
  end.
Proof. simpl. destruct (skip_ws inp); reflexivity. Qed.

Lemma scan_double_percent r : scan_double ("%"%char :: r) = None.
Proof. reflexivity. Qed.

(** ** Convergence gap *)

Lemma gap_line_no_pattern st line : no_gap_pattern line -> gap_line st line = st.
Proof.
  intros (H1 & H2 & H3 & H4 & H5).
  unfold gap_line, try_best_branch, try_new_best, try_mip_optimal, try_mip_gap,
    try_best_bound.
  now rewrite H1, H2, H3, H4, H5.
Qed.

Lemma fold_gap_no_pattern lines st :
  (forall line, In line lines -> no_gap_pattern line) ->
  fold_left gap_line lines st = st.
Proof.
  revert st. induction lines as [|l ls IH]; intros st H; simpl; [reflexivity|].
  rewrite gap_line_no_pattern by (apply H; now left).
  apply IH. intros; apply H; now right.
Qed.

(** A line that starts the "Best bound" pattern does not start "MIP gap". *)
Lemma best_bound_not_mip_gap line p :
  match_best_bound line = Some p -> match_mip_gap line = None.
Proof.
  unfold match_best_bound, match_mip_gap, sscanf_is, sscanf.
  set (f1 := parse_format (lit "Best bound = %lf , Best integer = %lf")).
  set (f2 := parse_format (lit "MIP gap = %lf%%")).
  vm_compute in f1, f2.
  destruct line as [|a l]; [discriminate|].
  subst f1 f2. rewrite !run_scanf_lit.
  destruct (Ascii.eqb a "B") eqn:E; [|discriminate].
  apply Ascii.eqb_eq in E. subst a. reflexivity.
Qed.

(** C5: on a line that scans as "Best bound = b , Best integer = i" the gap
    extractor stores b and i; when both are numbers and i is not zero it
    sets gap to |i - b| / |i|; when i is zero it leaves the gap as it was, also
    after the whole line if no later matcher fires on it, so that nothing
    is divided by zero (a b or i read from the text "nan" leaves the gap
    as it was, too).  The log "Best bound = 100.0 , Best integer = 120.0"
    gives |120 - 100| / 120, the double 0.16666666666666666; with
    "Best integer = 0.0" the result is the unavailable value.  The numbers
    are the ones [%lf] reads: "Best bound = 1e , Best integer = 2e" stores
    1 and 2 and gives 0.5; on "Best bound = nan(abc) , ..." the scan stops
    at the parenthesis and the line is not taken; and a line with
    "Best integer = 0.0" that goes on with "MIP optimal, tolerance (1e+%)"
    gets its gap, 0.01, from that matcher. *)
Theorem best_bound_gap :
  (forall (line : cstring) (st : gap_regs) (b i : float),
      match_best_bound line = Some (b, i) ->
      let st' := try_best_bound line st in
      best_bound st' = b /\ incumbent st' = i
      /\ (isnan b = false -> isnan i = false -> fneq i 0 = true ->
          gap st' = PrimFloat.div (fabs (PrimFloat.sub i b)) (fabs i))
      /\ (PrimFloat.eqb i 0 = true ->
          gap st' = gap st
          /\ (match_mip_optimal line = None -> match_best_branch line = None ->
              gap (gap_line st line) = gap st))
      /\ (isnan b = true \/ isnan i = true -> gap st' = gap st))
  /\ parse_final_mip_gap (log_of "Best bound = 100.0 , Best integer = 120.0")
     = PrimFloat.div (fabs (PrimFloat.sub 120 100)) (fabs 120)
  /\ parse_final_mip_gap (log_of "Best bound = 100.0 , Best integer = 120.0")
     = 0.16666666666666666%float
  /\ isnan (parse_final_mip_gap (log_of "Best bound = 100.0 , Best integer = 0.0")) = true
  /\ gap_available (parse_final_mip_gap (log_of "Best bound = 100.0 , Best integer = 0.0"))
     = false
  /\ match_best_bound (lit "Best bound = 1e , Best integer = 2e") = Some (1%float, 2%float)
  /\ parse_final_mip_gap (log_of "Best bound = 1e , Best integer = 2e") = 0.5%float
  /\ match_best_bound (lit "Best bound = nan(abc) , Best integer = 120.0") = None
  /\ isnan (parse_final_mip_gap (log_of "Best bound = nan(abc) , Best integer = 120.0"))
     = true
  /\ parse_final_mip_gap
       (log_of "Best bound = 100.0 , Best integer = 0.0 MIP optimal, tolerance (1e+%)")
     = 0.01%float.
Proof.
  split; [|repeat split; vm_compute; reflexivity].
  intros line st b i H st'. subst st'. unfold try_best_bound at 1 2 3 4 5.
  rewrite H. cbn [best_bound incumbent gap].
  repeat split.
  - intros Hb Hi Hz. now rewrite Hb, Hi, Hz.
  - unfold fneq. rewrite H0. now rewrite andb_false_r.
  - intros H3 H5.
    unfold gap_line, try_best_branch, try_new_best, try_mip_optimal, try_mip_gap.
    rewrite H3, H5, (best_bound_not_mip_gap _ _ H).
    unfold try_best_bound. rewrite H. unfold fneq. rewrite H0, andb_false_r.
    destruct (match_new_best line); reflexivity.
  - intros [N|N]; rewrite N; cbn [negb andb]; [reflexivity|].
    now rewrite andb_false_r.
Qed.

Lemma best_bound_gap_witness :
  gap (try_best_bound (lit "Best bound = 100.0 , Best integer = 120.0") gap_init)
  = PrimFloat.div (fabs (PrimFloat.sub 120 100)) (fabs 120).
Proof.
  refine (proj1 (proj2 (proj2
            (proj1 best_bound_gap (lit "Best bound = 100.0 , Best integer = 120.0")
                   gap_init 100%float 120%float _))) _ _ _);
    vm_compute; reflexivity.
Defined.

(** C6: when no line of the log fires any of the five matchers the result is
    the NaN the scan starts from, which both callers report as not
    available and which is not 0; a gap computed as exactly 0 is reported
    as available.  A log that cannot be opened gives -1, reported as not
    available as well.  A line matches as [sscanf] takes it: "MIP gap = 1e+%"
    is a match (the exponent without digits is read over) and gives the gap
    0.01, not the unavailable value. *)
Theorem gap_unavailable_without_match :
  (forall fp : cstring,
      (forall line, In line (read_lines 4096 fp) -> no_gap_pattern line) ->
      isnan (parse_final_mip_gap (Some fp)) = true
      /\ gap_available (parse_final_mip_gap (Some fp)) = false
      /\ PrimFloat.eqb (parse_final_mip_gap (Some fp)) 0 = false)
  /\ gap_available 0 = true
  /\ parse_final_mip_gap None = (-1)%float
  /\ gap_available (parse_final_mip_gap None) = false
  /\ match_mip_gap (lit "MIP gap = 1e+%") = Some 1%float
  /\ parse_final_mip_gap (log_of "MIP gap = 1e+%") = 0.01%float.
Proof.
  split; [|repeat split; vm_compute; reflexivity].
  intros fp H. unfold parse_final_mip_gap.
  rewrite (fold_gap_no_pattern _ _ H). repeat split; reflexivity.
Qed.

Lemma gap_unavailable_witness :
  isnan (parse_final_mip_gap (log_of "Cplex: no usable statistics")) = true
  /\ gap_available (parse_final_mip_gap (log_of "Cplex: no usable statistics")) = false
  /\ PrimFloat.eqb (parse_final_mip_gap (log_of "Cplex: no usable statistics")) 0 = false.
Proof.
  apply (proj1 gap_unavailable_without_match).
  intros line H. vm_compute in H. destruct H as [<-|[]].
  repeat split; vm_compute; reflexivity.
Defined.

(** C9: on a line that scans as "MIP gap = g%" the gap extractor sets gap to
    g / 100, and that is the gap after the whole line unless the "MIP
    optimal" or "Best branch" matcher fires on the same line.  The log
    "MIP gap = 2.50%" gives exactly the double 0.025.  The number is the
    one [%lf] reads: "MIP gap = 1e+%" gives 0.01, and on the line
    "MIP gap = 2.50% MIP optimal, tolerance (1e+%)" the "MIP optimal"
    matcher fires after it and leaves 0.01. *)
Theorem mip_gap_percent :
  (forall (line : cstring) (st : gap_regs) (g : float),
      match_mip_gap line = Some g ->
      gap (try_mip_gap line st) = PrimFloat.div g 100
      /\ (match_mip_optimal line = None -> match_best_branch line = None ->
          gap (gap_line st line) = PrimFloat.div g 100))
  /\ parse_final_mip_gap (log_of "MIP gap = 2.50%") = 0.025%float
  /\ match_mip_gap (lit "MIP gap = 1e+%") = Some 1%float
  /\ parse_final_mip_gap (log_of "MIP gap = 1e+%") = 0.01%float
  /\ match_mip_optimal (lit "MIP gap = 2.50% MIP optimal, tolerance (1e+%)") = Some 1%float
  /\ parse_final_mip_gap (log_of "MIP gap = 2.50% MIP optimal, tolerance (1e+%)")
     = 0.01%float.
Proof.
  split; [|repeat split; vm_compute; reflexivity].
  intros line st g H. split.
  - unfold try_mip_gap. now rewrite H.
  - intros H3 H5.
    unfold gap_line, try_best_branch, try_new_best, try_mip_optimal, try_mip_gap.
    rewrite H, H3, H5. destruct (match_new_best line); reflexivity.
Qed.

Lemma mip_gap_percent_witness :
  gap (try_mip_gap (lit "MIP gap = 2.50%") gap_init) = PrimFloat.div 2.5 100.
Proof.
  refine (proj1 (proj1 mip_gap_percent (lit "MIP gap = 2.50%") gap_init 2.5%float _)).
  vm_compute. reflexivity.
Defined.

(** ** Coverage *)

Lemma store_length {A} (a : list A) i v : List.length (store a i v) = List.length a.
Proof. revert i. induction a as [|x a IH]; intros [|i]; simpl; auto. Qed.

Lemma store_same {A} (a : list A) i v :
  (i < List.length a)%nat -> nth_error (store a i v) i = Some v.
Proof.
  revert i. induction a as [|x a IH]; intros [|i]; simpl; intros H; try lia; auto.
  apply IH. lia.
Qed.

Lemma store_other {A} (a : list A) i j v :
  i <> j -> nth_error (store a j v) i = nth_error a i.
Proof.
  revert i j.
  induction a as [|x a IH]; intros [|i] [|j]; simpl; intros H; auto; try congruence.
Qed.

Lemma coverage_line_length max_terminals a line :
  List.length (coverage_line max_terminals a line) = List.length a.
Proof.
  unfold coverage_line. destruct (match_not_covered line) as [[t v]|]; [|reflexivity].
  destruct ((0 <=? t) && (t <? max_terminals)); [apply store_length|reflexivity].
Qed.

Lemma coverage_fold_length max_terminals lines : forall a,
  List.length (fold_left (coverage_line max_terminals) lines a) = List.length a.
Proof.
  induction lines as [|l lines IH]; intros a; simpl; [reflexivity|].
  now rewrite IH, coverage_line_length.
Qed.

(** The register of index [i] after the scan holds the last value assigned
    to [i], or its initial value. *)
Lemma coverage_fold_last max_terminals lines : forall a i d,
  0 <= i < max_terminals -> Z.to_nat max_terminals = List.length a ->
  nth (Z.to_nat i) (fold_left (coverage_line max_terminals) lines a) d
  = match last_assigned i (assignments lines) with
    | Some v => v
    | None => nth (Z.to_nat i) a d
    end.
Proof.
  induction lines as [|l lines IH]; intros a i d Hi Ha; simpl; [reflexivity|].
  rewrite IH by (rewrite ?coverage_line_length; assumption).
  unfold assignments. simpl. fold (assignments lines). unfold coverage_line.
  destruct (match_not_covered l) as [[t v]|]; simpl; [|reflexivity].
  destruct (last_assigned i (assignments lines)); [reflexivity|].
  destruct (t =? i) eqn:E.
  - apply Z.eqb_eq in E. subst t.
    replace ((0 <=? i) && (i <? max_terminals)) with true
      by (symmetry; apply andb_true_iff; split; [apply Z.leb_le|apply Z.ltb_lt]; lia).
    apply nth_error_nth. apply store_same. lia.
  - apply Z.eqb_neq in E.
    destruct ((0 <=? t) && (t <? max_terminals)) eqn:R; [|reflexivity].
    apply andb_true_iff in R. destruct R as [R0 R1]. apply Z.leb_le in R0.
    assert (N : nth_error (store a (Z.to_nat t) v) (Z.to_nat i) = nth_error a (Z.to_nat i))
      by (apply store_other; lia).
    rewrite (nth_error_nth' (store a (Z.to_nat t) v) d) in N by (rewrite store_length; lia).
    rewrite (nth_error_nth' a d) in N by lia. congruence.
Qed.

(** C1 (as amended): the coverage extractor takes an assignment from every
    line that holds the markers "not_covered[" and "] =" and scans as
    three words followed by "not_covered[i] = v" (the solver's
    "% DEBUG LP_VARS: not_covered[i] = v"); for every index i of the table
    (at most 50 entries) terminal i is covered iff the last value assigned
    to i is < 0.5, a terminal never assigned is covered, and an index
    outside the table changes nothing.  With the solver's prefix, 0.9
    followed by 0.2 for index 3 leaves terminal 3 covered; the bare lines
    "not_covered[3] = ..." are not taken and leave every terminal covered.
    The value is the one [%lf] reads: "not_covered[2] = 1e" assigns 1 and
    leaves terminal 2 uncovered. *)
Theorem coverage_last_write_wins :
  (forall (fp : cstring) (max_terminals i : Z),
      0 <= i < max_terminals -> max_terminals <= 50 ->
      nth_error (snd (parse_solution_coverage (Some fp) max_terminals)) (Z.to_nat i)
      = Some (match last_assigned i (assignments (read_lines 1024 fp)) with
              | Some v => if PrimFloat.ltb v 0.5 then 1 else 0
              | None => 1
              end))
  /\ (forall (solution_file : option cstring) (max_terminals : Z),
         List.length (snd (parse_solution_coverage solution_file max_terminals))
         = Z.to_nat max_terminals)
  /\ snd (parse_solution_coverage
            (log_lines ["  % DEBUG LP_VARS: not_covered[3] = 0.9 (terminal 3)";
                        "  % DEBUG LP_VARS: not_covered[70] = 1.0 (terminal 70)";
                        "  % DEBUG LP_VARS: not_covered[1] = 1.0 (terminal 1)";
                        "  % DEBUG LP_VARS: not_covered[3] = 0.2 (terminal 3)"]%string) 5)
     = [1; 0; 1; 1; 1]
  /\ match_not_covered (lit "not_covered[3] = 0.9") = None
  /\ snd (parse_solution_coverage
            (log_lines ["not_covered[3] = 0.9"; "not_covered[3] = 0.2"]%string) 5)
     = [1; 1; 1; 1; 1]
  /\ match_not_covered (lit "  % DEBUG LP_VARS: not_covered[2] = 1e") = Some (2, 1%float)
  /\ snd (parse_solution_coverage
            (log_lines ["  % DEBUG LP_VARS: not_covered[2] = 1e"]%string) 5)
     = [1; 1; 0; 1; 1].
Proof.
  split; [|split; [|repeat split; vm_compute; reflexivity]].
  - intros fp max_terminals i Hi _. simpl. unfold final_not_covered.
    rewrite nth_error_map.
    rewrite (nth_error_nth' _ 0%float)
      by (rewrite coverage_fold_length, repeat_length; lia).
    rewrite coverage_fold_last by (rewrite ?repeat_length; auto).
    simpl. destruct (last_assigned i (assignments (read_lines 1024 fp))); [reflexivity|].
    rewrite nth_repeat. reflexivity.
  - intros [fp|] max_terminals; simpl.
    + unfold final_not_covered.
      now rewrite length_map, coverage_fold_length, repeat_length.
    + apply repeat_length.
Qed.

Lemma coverage_last_write_wins_witness :
  nth_error (snd (parse_solution_coverage
                    (log_lines ["  % DEBUG LP_VARS: not_covered[3] = 0.9 (terminal 3)";
                                "  % DEBUG LP_VARS: not_covered[3] = 0.2 (terminal 3)"]%string)
                    50)) 3
  = Some 1.
Proof.
  refine (eq_trans (proj1 coverage_last_write_wins _ 50 3 _ _) _).
  - lia.
  - lia.
  - vm_compute. reflexivity.
Defined.

(** C1 as stated fails: the line "not_covered[3] = 0.9" bears the marker
    with the value 0.9, which is not < 0.5, and is the only line of the
    log, yet the extractor reports terminal 3 as covered. *)
Lemma coverage_marker_counterexample :
  spec_match_not_covered (lit "not_covered[3] = 0.9") = Some (3, 0.9%float)
  /\ ~ (nth 3 (snd (parse_solution_coverage
                      (log_lines ["not_covered[3] = 0.9"]%string) 50)) 0 = 1
        <-> spec_covered (lit "not_covered[3] = 0.9" ++ [NL]) 3 = true).
Proof.
  split; [vm_compute; reflexivity|].
  intros [H _].
  assert (C : spec_covered (lit "not_covered[3] = 0.9" ++ [NL]) 3 = false)
    by (vm_compute; reflexivity).
  rewrite C in H. discriminate H. vm_compute. reflexivity.
Qed.

(** ** Lists *)

Lemma Forall_firstn {A} (P : A -> Prop) n l : Forall P l -> Forall P (firstn n l).
Proof.
  intros H. revert n. induction H; intros [|n]; simpl; constructor; auto.
Qed.

Lemma In_firstn {A} (x : A) n : forall l, In x (firstn n l) -> In x l.
Proof.
  induction n as [|n IH]; intros [|y l]; simpl; try tauto.
  intros [->|H]; [now left|right; now apply IH].
Qed.

(** ** Selected trees *)

(** A header line does not scan as a Steiner line: it starts with [%]. *)
Lemma header_not_steiner trimmed id :
  match_fs_header trimmed = Some id -> match_steiner_line trimmed = None.
Proof.
  unfold match_fs_header, match_steiner_line, sscanf_is, sscanf.
  destruct (contains trimmed "% fs" && contains trimmed ":"); [|discriminate].
  set (f1 := parse_format (lit "%% fs%d:")).
  set (f2 := parse_format (lit "%lf %lf %d %c S")).
  vm_compute in f1, f2. subst f1 f2.
  rewrite run_scanf_pct, run_scanf_double.
  destruct (skip_ws trimmed) as [|a r]; [discriminate|].
  destruct (Ascii.eqb a "%") eqn:E; [|discriminate].
  apply Ascii.eqb_eq in E. subst a. rewrite scan_double_percent. reflexivity.
Qed.

Lemma header_has_marker trimmed id :
  match_fs_header trimmed = Some id -> contains trimmed "% fs" = true.
Proof.
  unfold match_fs_header. destruct (contains trimmed "% fs"); [reflexivity|discriminate].
Qed.

Lemma header_of_steiner line p :
  match_steiner_line (skip_ws line) = Some p -> header_of line = None.
Proof.
  intros H. unfold header_of.
  destruct (match_fs_header (skip_ws line)) eqn:E; [|reflexivity].
  apply header_not_steiner in E. congruence.
Qed.

Lemma header_of_unmarked line :
  contains (skip_ws line) "% fs" = false -> header_of line = None.
Proof.
  intros H. unfold header_of.
  destruct (match_fs_header (skip_ws line)) eqn:E; [|reflexivity].
  apply header_has_marker in E. congruence.
Qed.

Lemma set_steiner_key f x y : fst_key (set_steiner f x y) = fst_key f.
Proof. unfold set_steiner. destruct (num_steiner_points f =? 0); reflexivity. Qed.


Lemma lookahead_lines_key lines : forall f,
  fst_key (lookahead_lines f lines) = fst_key f.
Proof.
  induction lines as [|l lines IH]; intros f; simpl; [reflexivity|].
  destruct (match_steiner_line (skip_ws l)) as [[x y]|].
  - now rewrite IH, set_steiner_key.
  - destruct (contains (skip_ws l) "% fs" || contains (skip_ws l) "EndPlot"); auto.
Qed.


(** Once the Steiner point is set the lookahead leaves the tree alone. *)
Lemma lookahead_lines_keeps lines : forall f,
  num_steiner_points f <> 0 -> lookahead_lines f lines = f.
Proof.
  induction lines as [|l lines IH]; intros f H; simpl; [reflexivity|].
  destruct (match_steiner_line (skip_ws l)) as [[x y]|].
  - assert (E : set_steiner f x y = f).
    { unfold set_steiner. destruct (Z.eqb_spec (num_steiner_points f) 0); congruence. }
    rewrite E. now apply IH.
  - destruct (contains (skip_ws l) "% fs" || contains (skip_ws l) "EndPlot"); auto.
Qed.

Lemma trees_of_lines_keys lines : map fst_key (trees_of_lines lines) = headers lines.
Proof.
  unfold headers. induction lines as [|l lines IH]; simpl; [reflexivity|].
  destruct (header_of l) as [[id tids]|]; simpl; [|exact IH].
  now rewrite lookahead_lines_key, IH.
Qed.


(** The lookahead on the stream is the lookahead on the lines, and it
    consumes no header line: the stream it hands back yields the same trees
    as the stream it was given. *)
Lemma steiner_lookahead_spec fuel : forall fp f,
  (List.length fp <= fuel)%nat ->
  let r := steiner_lookahead fuel fp fp f in
  fst r = lookahead_lines f (read_lines 1024 fp)
  /\ (List.length (snd r) <= List.length fp)%nat
  /\ trees_of_lines (read_lines 1024 (snd r)) = trees_of_lines (read_lines 1024 fp).
Proof.
  induction fuel as [|k IH]; intros fp f Hlen; cbn zeta.
  - destruct fp; [|simpl in Hlen; lia]. simpl. auto.
  - cbn [steiner_lookahead]. rewrite (read_lines_step 1024 fp) by lia.
    destruct (fgets 1024 fp) as [[line fp']|] eqn:E.
    2:{ cbn [fst snd]. rewrite (read_lines_step 1024 fp) by lia. rewrite E. auto. }
    pose proof (fgets_shorter 1024 _ _ _ ltac:(lia) E) as L.
    assert (Hk : (List.length fp' <= k)%nat) by lia.
    cbn [lookahead_lines trees_of_lines].
    destruct (match_steiner_line (skip_ws line)) as [[x y]|] eqn:S.
    + rewrite (header_of_steiner _ _ S).
      destruct (IH fp' (set_steiner f x y) Hk) as (F & Le & T).
      repeat split; auto. lia.
    + destruct (contains (skip_ws line) "% fs" || contains (skip_ws line) "EndPlot") eqn:M;
        cbn [fst snd].
      * rewrite (read_lines_step 1024 fp) by lia. rewrite E. auto.
      * apply orb_false_iff in M. destruct M as [M _].
        rewrite (header_of_unmarked _ M).
        destruct (IH fp' f Hk) as (F & Le & T). repeat split; auto. lia.
Qed.

(** The two-level scan with rewind returns the trees of the lines. *)
Lemma solution_loop_spec fuel : forall fp max_fsts acc,
  (List.length fp <= fuel)%nat ->
  solution_loop fuel fp max_fsts acc
  = acc ++ firstn (Z.to_nat max_fsts - List.length acc)
             (trees_of_lines (read_lines 1024 fp)).
Proof.
  induction fuel as [|k IH]; intros fp max_fsts acc Hlen.
  - destruct fp; [|simpl in Hlen; lia]. simpl. now rewrite firstn_nil, app_nil_r.
  - cbn [solution_loop]. rewrite (read_lines_step 1024 fp) by lia.
    destruct (fgets 1024 fp) as [[line fp']|] eqn:E.
    2:{ now rewrite firstn_nil, app_nil_r. }
    pose proof (fgets_shorter 1024 _ _ _ ltac:(lia) E) as L.
    cbn [trees_of_lines]. unfold header_of.
    destruct (Z.of_nat (List.length acc) <? max_fsts) eqn:C.
    2:{ apply Z.ltb_ge in C.
        replace (Z.to_nat max_fsts - List.length acc)%nat with O by lia.
        simpl. now rewrite app_nil_r. }
    apply Z.ltb_lt in C.
    destruct (match_fs_header (skip_ws line)) as [id|]; [|apply IH; lia].
    destruct (header_terminals (skip_ws line)) as [tids|]; [|apply IH; lia].
    pose proof (steiner_lookahead_spec (List.length fp') fp'
                  (mkFST true tids 0 [] 0 id) (le_n _)) as S.
    cbn zeta in S.
    destruct (steiner_lookahead (List.length fp') fp' fp' (mkFST true tids 0 [] 0 id))
      as [f fp''] eqn:LA.
    cbn [fst snd] in S. destruct S as (F & Le & T).
    rewrite IH by lia. rewrite T, F, length_app, <- app_assoc. cbn [List.length app].
    replace (Z.to_nat max_fsts - List.length acc)%nat
      with (S (Z.to_nat max_fsts - (List.length acc + 1))) by lia.
    reflexivity.
Qed.

Lemma parse_fsts_from_solution_spec fp max_fsts :
  entries (parse_fsts_from_solution (Some fp) max_fsts)
  = firstn (Z.to_nat max_fsts) (trees_of_lines (read_lines 1024 fp)).
Proof.
  simpl. rewrite solution_loop_spec by apply le_n. simpl. now rewrite Nat.sub_0_r.
Qed.


(** C4: the log "% fs2: 0 1 2", "0.5 0.5 1 T S" gives one tree with id 2,
    terminals [0,1,2] and the single junction (0.5,0.5), and in every log a
    header line followed by a geometry line gives a tree with that
    junction.  For every log the two-level scan returns the trees of the
    lines read in order (up to max_fsts), one per header line: when the
    lookahead meets a header line it hands back the stream positioned
    before that line, so the outer scan reads it again and no header is
    skipped, as in the log of two adjacent headers. *)
Theorem selected_tree_parser_keeps_headers :
  parse_fsts_from_solution (log_lines ["% fs2: 0 1 2"; "0.5 0.5 1 T S"]%string) 50
  = Some [mkFST true [0; 1; 2] 1 [mkSteinerPoint 0.5 0.5] 0 2]
  /\ (forall (fp : cstring) (max_fsts : Z),
         entries (parse_fsts_from_solution (Some fp) max_fsts)
         = firstn (Z.to_nat max_fsts) (trees_of_lines (read_lines 1024 fp))
         /\ map fst_key (entries (parse_fsts_from_solution (Some fp) max_fsts))
            = firstn (Z.to_nat max_fsts) (headers (read_lines 1024 fp)))
  /\ (forall (line geometry : cstring) (rest : list cstring)
             (id : Z) (tids : list Z) (x y : float),
         header_of line = Some (id, tids) ->
         match_steiner_line (skip_ws geometry) = Some (x, y) ->
         trees_of_lines (line :: geometry :: rest)
         = mkFST true tids 1 [mkSteinerPoint x y] 0 id :: trees_of_lines rest)
  /\ (forall (fuel : nat) (fp fp' line : cstring) (f : FST),
         fgets 1024 fp = Some (line, fp') ->
         header_of line <> None ->
         steiner_lookahead (S fuel) fp fp f = (f, fp))
  /\ map fst_key
       (entries (parse_fsts_from_solution
                   (log_lines ["% fs2: 0 1 2"; "% fs3: 4 5"]%string) 50))
     = [(2, [0; 1; 2]); (3, [4; 5])].
Proof.
  split; [vm_compute; reflexivity|].
  split; [|split; [|split; [|vm_compute; reflexivity]]].
  - intros fp max_fsts. rewrite parse_fsts_from_solution_spec. split; [reflexivity|].
    now rewrite <- firstn_map, trees_of_lines_keys.
  - intros line geometry rest id tids x y H S.
    cbn [trees_of_lines lookahead_lines]. rewrite H, S, (header_of_steiner _ _ S).
    f_equal. apply lookahead_lines_keeps. simpl. discriminate.
  - intros fuel fp fp' line f E H. simpl. rewrite E.
    destruct (match_steiner_line (skip_ws line)) as [[x y]|] eqn:S.
    + now rewrite (header_of_steiner _ _ S) in H.
    + destruct (contains (skip_ws line) "% fs") eqn:M; [reflexivity|].
      now rewrite (header_of_unmarked _ M) in H.
Qed.

Lemma selected_tree_parser_witness :
  steiner_lookahead 1 (lit "% fs3: 1 2" ++ [NL]) (lit "% fs3: 1 2" ++ [NL])
                    (mkFST true [0; 1; 2] 0 [] 0 2)
  = (mkFST true [0; 1; 2] 0 [] 0 2, lit "% fs3: 1 2" ++ [NL]).
Proof.
  refine (proj1 (proj2 (proj2 (proj2 selected_tree_parser_keeps_headers))) 0%nat
            (lit "% fs3: 1 2" ++ [NL]) [] (lit "% fs3: 1 2" ++ [NL]) _ _ _).
  - vm_compute. reflexivity.
  - vm_compute. discriminate.
Defined.

(** ** Tree dump *)

(** The token loop keeps the first ten valid indices and skips the rest. *)
Lemma collect_terminals_spec toks : forall acc,
  (List.length acc <= 10)%nat ->
  collect_terminals toks acc = firstn 10 (acc ++ valid_terminals toks).
Proof.
  induction toks as [|t toks IH]; intros acc H; cbn -[firstn].
  - rewrite app_nil_r. symmetry. apply firstn_all2. exact H.
  - destruct (Z.of_nat (List.length acc) <? 10) eqn:C.
    + apply Z.ltb_lt in C. unfold valid_terminals. cbn -[firstn].
      fold (valid_terminals toks). unfold token_terminal.
      destruct (token_is_number t); [|apply IH; lia].
      cbn zeta. destruct ((0 <=? atoi t) && (atoi t <? 50)).
      * rewrite IH by (rewrite length_app; simpl; lia). now rewrite <- app_assoc.
      * apply IH; lia.
    + apply Z.ltb_ge in C. assert (List.length acc = 10%nat) by lia.
      rewrite firstn_app. replace (10 - List.length acc)%nat with O by lia.
      rewrite firstn_all2 by lia. cbn -[firstn]. now rewrite app_nil_r.
Qed.

Lemma valid_terminals_range toks : Forall (fun t => 0 <= t < 50) (valid_terminals toks).
Proof.
  unfold valid_terminals. induction toks as [|t toks IH]; simpl; [constructor|].
  apply Forall_app. split; [|exact IH].
  unfold token_terminal. destruct (token_is_number t); [|constructor].
  cbn zeta. destruct ((0 <=? atoi t) && (atoi t <? 50)) eqn:E; constructor; [|constructor].
  apply andb_true_iff in E. lia.
Qed.

Lemma dump_line_terminals_spec line ts :
  dump_line_terminals line = Some ts ->
  ts = firstn 10 (valid_terminals (tokenize [] (skip_ws (cut_newline line))))
  /\ Forall (fun t => 0 <= t < 50) ts /\ (List.length ts <= 10)%nat.
Proof.
  unfold dump_line_terminals. cbn zeta.
  destruct (contains _ "DEBUG" || _); [discriminate|].
  intros [= <-]. rewrite collect_terminals_spec by (simpl; lia). cbn -[firstn].
  split; [reflexivity|]. split.
  - apply Forall_firstn, valid_terminals_range.
  - apply firstn_le_length.
Qed.

Lemma dump_loop_spec lines : forall max_fsts acc,
  dump_loop lines max_fsts acc
  = acc ++ number_from (Z.of_nat (List.length acc))
             (firstn (Z.to_nat max_fsts - List.length acc) (accepted_lines lines)).
Proof.
  induction lines as [|l lines IH]; intros max_fsts acc; simpl.
  - rewrite firstn_nil. simpl. now rewrite app_nil_r.
  - destruct (Z.of_nat (List.length acc) <? max_fsts) eqn:C.
    2:{ apply Z.ltb_ge in C.
        replace (Z.to_nat max_fsts - List.length acc)%nat with O by lia.
        simpl. now rewrite app_nil_r. }
    apply Z.ltb_lt in C. unfold accepted_lines. simpl. fold (accepted_lines lines).
    destruct (dump_line_terminals l) as [ts|]; [|apply IH].
    destruct (2 <=? Z.of_nat (List.length ts)); [|apply IH].
    rewrite IH, length_app, <- app_assoc. f_equal. simpl.
    replace (Z.to_nat max_fsts - List.length acc)%nat
      with (S (Z.to_nat max_fsts - (List.length acc + 1))) by lia.
    simpl. do 3 f_equal. lia.
Qed.

Lemma accepted_lines_ok lines :
  Forall (fun ts => (2 <= List.length ts <= 10)%nat /\ Forall (fun t => 0 <= t < 50) ts
                    /\ exists line, In line lines /\ dump_line_terminals line = Some ts)
         (accepted_lines lines).
Proof.
  unfold accepted_lines. induction lines as [|l lines IH]; simpl; [constructor|].
  apply Forall_app. split.
  - destruct (dump_line_terminals l) as [ts|] eqn:E; [|constructor].
    destruct (2 <=? Z.of_nat (List.length ts)) eqn:C; constructor; [|constructor].
    apply Z.leb_le in C. destruct (dump_line_terminals_spec _ _ E) as (_ & R & L).
    repeat split; try lia; auto. exists l. auto.
  - eapply Forall_impl; [|exact IH]. cbv beta. intros ts (A & B & line & I & D).
    repeat split; try lia; auto. exists line. auto.
Qed.

Lemma number_from_nth trees : forall k0 k f,
  nth_error (number_from k0 trees) k = Some f ->
  exists ts, nth_error trees k = Some ts /\ f = dump_fst (k0 + Z.of_nat k) ts.
Proof.
  induction trees as [|ts trees IH]; intros k0 [|k] f; simpl; try discriminate.
  - intros [= <-]. exists ts. split; [reflexivity|]. f_equal. lia.
  - intros H. destruct (IH _ _ _ H) as (ts' & A & B). exists ts'. split; [assumption|].
    rewrite B. f_equal. lia.
Qed.

(** C7: the trees returned are the accepted lines of the dump, numbered
    from 0 in the order of the file (up to max_fsts of them); the k-th
    tree has id k, between 2 and 10 terminals, all in [0, 50), the junction
    count 1 exactly when it has more than 2 terminals, and its terminals
    are the first ten valid tokens of its line, the other tokens being
    skipped; a line that holds "DEBUG" or is empty gives no tree and is
    not counted.  The dump "4 1 0" gives one tree with terminals [4,1,0],
    id 0 and the junction count 1. *)
Theorem dump_parser_accepts_valid_lines :
  (forall (fp : cstring) (max_fsts : Z),
      entries (parse_fsts_from_dump (Some fp) max_fsts)
      = number_from 0 (firstn (Z.to_nat max_fsts) (accepted_lines (read_lines 1024 fp))))
  /\ (forall (fp : cstring) (max_fsts : Z) (k : nat) (f : FST),
         nth_error (entries (parse_fsts_from_dump (Some fp) max_fsts)) k = Some f ->
         fst_id f = Z.of_nat k
         /\ 2 <= num_terminals f <= 10
         /\ Forall (fun t => 0 <= t < 50) (terminal_ids f)
         /\ num_steiner_points f = (if 2 <? num_terminals f then 1 else 0)
         /\ selected f = false
         /\ exists line, In line (read_lines 1024 fp)
              /\ dump_line_terminals line = Some (terminal_ids f)
              /\ terminal_ids f
                 = firstn 10 (valid_terminals (tokenize [] (skip_ws (cut_newline line)))))
  /\ (forall line : cstring,
         contains (skip_ws (cut_newline line)) "DEBUG" = true
         \/ skip_ws (cut_newline line) = [] ->
         dump_line_terminals line = None)
  /\ parse_fsts_from_dump (log_lines ["4 1 0"]%string) 100
     = Some [mkFST false [4; 1; 0] 1 [] 100000 0]
  /\ parse_fsts_from_dump
       (log_lines ["DEBUG 7 8"; ""; "4 x1 1 -3 77 0"; "9"; "2 3"]%string) 100
     = Some [mkFST false [4; 1; 0] 1 [] 100000 0; mkFST false [2; 3] 0 [] 110000 1].
Proof.
  assert (E : forall fp max_fsts,
      entries (parse_fsts_from_dump (Some fp) max_fsts)
      = number_from 0 (firstn (Z.to_nat max_fsts) (accepted_lines (read_lines 1024 fp)))).
  { intros. simpl. rewrite dump_loop_spec. simpl. now rewrite Nat.sub_0_r. }
  split; [exact E|]. split; [|split; [|split; vm_compute; reflexivity]].
  - intros fp max_fsts k f H. rewrite E in H.
    destruct (number_from_nth _ _ _ _ H) as (ts & N & ->).
    apply nth_error_In in N.
    assert (I : In ts (accepted_lines (read_lines 1024 fp)))
      by (eapply In_firstn; eassumption).
    pose proof (accepted_lines_ok (read_lines 1024 fp)) as A.
    rewrite Forall_forall in A. destruct (A _ I) as (L & R & line & IL & D).
    unfold num_terminals, dump_fst. simpl.
    repeat split; try lia; auto.
    exists line. repeat split; auto. now destruct (dump_line_terminals_spec _ _ D).
  - intros line H. unfold dump_line_terminals. cbn zeta.
    destruct H as [H|H]; [now rewrite H|]. rewrite H. now rewrite orb_true_r.
Qed.

Lemma dump_parser_witness :
  fst_id (mkFST false [4; 1; 0] 1 [] 100000 0) = 0
  /\ 2 <= num_terminals (mkFST false [4; 1; 0] 1 [] 100000 0) <= 10.
Proof.
  refine ((fun H => conj (proj1 H) (proj1 (proj2 H)))
            (proj1 (proj2 dump_parser_accepts_valid_lines)
               (lit "4 1 0" ++ [NL]) 100 0%nat (mkFST false [4; 1; 0] 1 [] 100000 0) _)).
  vm_compute. reflexivity.
Defined.

(** ** Marking the universe *)

Lemma id_listed_In id ids : id_listed id ids = true <-> In id ids.
Proof.
  induction ids as [|s rest IH]; simpl.
  - split; [discriminate|tauto].
  - destruct (id =? s) eqn:E.
    + apply Z.eqb_eq in E. subst. tauto.
    + apply Z.eqb_neq in E. rewrite IH. split; [tauto|].
      intros [H|H]; [congruence|assumption].
Qed.

(** C8: after the marking loop of create_rich_visualization a tree of the
    dump universe has its selected flag set iff its id is in the list
    parse_selected_fst_ids returned for the same log; the loop changes
    nothing else (ids and terminal lists are those of the universe). *)
Theorem selected_flag_iff_id_listed :
  (forall (dump_file solution_file : option cstring) (f : FST),
      In f (mark_selected (entries (parse_fsts_from_dump dump_file 100))
                          (entries (parse_selected_fst_ids solution_file 50))) ->
      (selected f = true
       <-> In (fst_id f) (entries (parse_selected_fst_ids solution_file 50))))
  /\ (forall (dump_file solution_file : option cstring),
         map fst_key (mark_selected (entries (parse_fsts_from_dump dump_file 100))
                                    (entries (parse_selected_fst_ids solution_file 50)))
         = map fst_key (entries (parse_fsts_from_dump dump_file 100)))
  /\ map selected
       (mark_selected
          (entries (parse_fsts_from_dump (log_lines ["0 1"; "1 2 3"; "2 4"]%string) 100))
          (entries (parse_selected_fst_ids
                      (log_lines ["BeginPlot"; " % fs1: 1 2 3"; "EndPlot"]%string) 50)))
     = [false; true; false].
Proof.
  split; [|split; [|vm_compute; reflexivity]].
  - intros dump_file solution_file f H. unfold mark_selected in H.
    apply in_map_iff in H. destruct H as (u & <- & _). simpl. apply id_listed_In.
  - intros. unfold mark_selected. rewrite map_map. apply map_ext. reflexivity.
Qed.

Lemma selected_flag_witness :
  selected (mkFST true [1; 2; 3] 1 [] 110000 1) = true
  <-> In 1 (entries (parse_selected_fst_ids
                        (log_lines ["BeginPlot"; " % fs1: 1 2 3"; "EndPlot"]%string) 50)).
Proof.
  refine (proj1 selected_flag_iff_id_listed
            (log_lines ["0 1"; "1 2 3"; "2 4"]%string)
            (log_lines ["BeginPlot"; " % fs1: 1 2 3"; "EndPlot"]%string)
            (mkFST true [1; 2; 3] 1 [] 110000 1) _).
  vm_compute. right. left. reflexivity.
Defined.

(** ** Drawing the selected trees *)

Lemma terminal_at_in_table terminals i :
  in_table terminals i = true -> terminal_at terminals i = Some (table_entry terminals i).
Proof.
  unfold in_table, terminal_at, table_entry. intros H. apply andb_true_iff in H.
  destruct H as [H0 H1]. rewrite H0. apply Z.leb_le in H0. apply Z.ltb_lt in H1.
  apply nth_error_nth'. lia.
Qed.

Lemma draw_spokes_spec terminals sx sy ids :
  draw_spokes terminals sx sy ids
  = Some (map (spoke terminals sx sy) (filter (in_table terminals) ids)).
Proof.
  induction ids as [|i ids IH]; cbn [draw_spokes filter map]; [reflexivity|].
  destruct (in_table terminals i) eqn:E; [|exact IH].
  rewrite (terminal_at_in_table _ _ E), IH. cbn [map]. unfold spoke at 2.
  destruct (scale_terminal (table_entry terminals i)). reflexivity.
Qed.

Lemma draw_path_spec terminals ids :
  draw_path terminals ids
  = Some (map (edge terminals) (filter (both_in_table terminals) (consecutive ids))).
Proof.
  induction ids as [|t1 rest IH]; [reflexivity|].
  destruct rest as [|t2 rest]; [reflexivity|].
  change (draw_path terminals (t1 :: t2 :: rest)) with
    (if in_table terminals t1 && in_table terminals t2 then
       match terminal_at terminals t1, terminal_at terminals t2,
             draw_path terminals (t2 :: rest) with
       | Some a, Some b, Some ls =>
           let (x1, y1) := scale_terminal a in
           let (x2, y2) := scale_terminal b in
           Some (Line x1 y1 x2 y2 :: ls)
       | _, _, _ => None
       end
     else draw_path terminals (t2 :: rest)).
  change (consecutive (t1 :: t2 :: rest)) with ((t1, t2) :: consecutive (t2 :: rest)).
  cbn [filter]. unfold both_in_table at 1. cbn [fst snd].
  destruct (in_table terminals t1 && in_table terminals t2) eqn:E; [|exact IH].
  apply andb_true_iff in E. destruct E as [E1 E2].
  rewrite (terminal_at_in_table _ _ E1), (terminal_at_in_table _ _ E2), IH.
  cbn [map]. unfold edge at 2. cbn [fst snd].
  destruct (scale_terminal (table_entry terminals t1)).
  destruct (scale_terminal (table_entry terminals t2)). reflexivity.
Qed.





(** ** Exit status *)

(** C2: in visualization-only mode, with the three input files present and
    no Python helper, a terminal file that does not parse, or a report
    file that cannot be created, makes create_rich_visualization print its
    error message and return, after which main ends with exit status 0,
    not with a non-zero status; step 4 of the full simulation ends the
    same way.  The other parsing failures are absorbed: with the solver
    log and the dump missing the report is still written, with -1 trees,
    no selected tree, every terminal covered and the gap reported as not
    available. *)
Theorem report_failure_exit_status :
  (forall (w : env) (t f s o : string),
      no_text t || no_text f || no_text s || no_text o = false ->
      access w t = true -> access w f = true -> access w s = true ->
      access w "html_generator.py" = false ->
      (count (parse_terminals (fopen_r w t) 50) <= 0 ->
       main_visualization_only w t f s o
       = (["Error: Could not parse terminals file"%string], 0))
      /\ (0 < count (parse_terminals (fopen_r w t) 50) -> fopen_w w o = false ->
          main_visualization_only w t f s o
          = ([("Error: Cannot create HTML file: " ++ o)%string], 0)))
  /\ (forall (w : env) (output_dir : string),
         snd (main_simulation_report w output_dir) = 0
         /\ (count (parse_terminals
                      (fopen_r w (output_dir ++ "/terminals.txt")%string) 50) <= 0 ->
             fst (main_simulation_report w output_dir)
             = ["Error: Could not parse terminals file"%string]))
  /\ main_visualization_only (viz_env [] true)
       "terminals.txt" "fsts.txt" "solution.txt" "out.html"
     = (["Error: Could not parse terminals file"%string], 0)
  /\ main_visualization_only (viz_env ["0.1 0.2 50"]%string false)
       "terminals.txt" "fsts.txt" "solution.txt" "out.html"
     = (["Error: Cannot create HTML file: out.html"%string], 0)
  /\ (exists r,
         create_rich_visualization (viz_env ["0.1 0.2 50"]%string true)
           "terminals.txt" "fsts.txt" "solution.txt" "out.html" = ([], Some r)
         /\ rp_num_all_fsts r = -1 /\ rp_num_selected r = 0 /\ rp_covered_count r = 1
         /\ gap_available (rp_final_gap r) = false).
Proof.
  split; [|split; [|split; [|split]]];
    [| | vm_compute; reflexivity | vm_compute; reflexivity |].
  - intros w t f s o Hn At Af As Ap.
    unfold main_visualization_only, run_visualization_only.
    rewrite Hn, At, Af, As, Ap. cbn [negb andb fst]. unfold create_rich_visualization.
    split.
    + intros C. apply Z.leb_le in C. rewrite C. reflexivity.
    + intros C W. destruct (count (parse_terminals (fopen_r w t) 50) <=? 0) eqn:E;
        [apply Z.leb_le in E; lia|].
      rewrite W. reflexivity.
  - intros w output_dir. split; [reflexivity|].
    intros C. unfold main_simulation_report, create_rich_visualization. cbn [fst].
    apply Z.leb_le in C. rewrite C. reflexivity.
  - eexists. split; [vm_compute; reflexivity|]. repeat split.
Qed.

Lemma report_failure_witness :
  main_visualization_only (viz_env [] true)
    "terminals.txt" "fsts.txt" "solution.txt" "out.html"
  = (["Error: Could not parse terminals file"%string], 0).
Proof.
  refine (proj1 (proj1 report_failure_exit_status (viz_env [] true)
                   "terminals.txt"%string "fsts.txt"%string "solution.txt"%string
                   "out.html"%string _ _ _ _ _) _);
    vm_compute; try reflexivity; discriminate.
Defined.

(** ** Binary64 rounding and scale_coordinates *)

Ltac pow2_pos := apply Z.pow_pos_nonneg; lia.

Ltac K_value := assert (HK : K = 1200) by reflexivity.

(** *** Rounding to nearest even on integers *)

Lemma rne_bounds v s : v / 2 ^ s <= rne v s <= v / 2 ^ s + 1.
Proof.
  unfold rne. destruct (2 * (v mod 2 ^ s) ?= 2 ^ s); [destruct (Z.even _)| |]; lia.
Qed.

Lemma rne_mono v v' s : 0 <= s -> v <= v' -> rne v s <= rne v' s.
Proof.
  intros Hs Hv.
  assert (P : 0 < 2 ^ s) by pow2_pos.
  pose proof (Z.div_le_mono v v' (2 ^ s) P Hv) as Q.
  destruct (Z.eq_dec (v / 2 ^ s) (v' / 2 ^ s)) as [E|N].
  - pose proof (Z.div_mod v (2 ^ s) ltac:(lia)) as D.
    pose proof (Z.div_mod v' (2 ^ s) ltac:(lia)) as D'.
    assert (R : v mod 2 ^ s <= v' mod 2 ^ s) by (rewrite E in D; lia).
    unfold rne. rewrite <- E.
    destruct (Z.compare_spec (2 * (v mod 2 ^ s)) (2 ^ s));
      destruct (Z.compare_spec (2 * (v' mod 2 ^ s)) (2 ^ s));
      try destruct (Z.even (v / 2 ^ s)); lia.
  - pose proof (rne_bounds v s). pose proof (rne_bounds v' s). lia.
Qed.

Lemma rne_zero s : 0 <= s -> rne 0 s = 0.
Proof.
  intros Hs. unfold rne. rewrite Z.mod_0_l, Z.div_0_l by (apply Z.pow_nonzero; lia).
  assert (P : 0 < 2 ^ s) by pow2_pos.
  destruct (Z.compare_spec (2 * 0) (2 ^ s)); try reflexivity; lia.
Qed.

Lemma rne_scale v s j : 0 <= s -> 0 <= j -> rne (v * 2 ^ j) (s + j) = rne v s.
Proof.
  intros Hs Hj.
  assert (P : 0 < 2 ^ s) by pow2_pos.
  assert (Pj : 0 < 2 ^ j) by pow2_pos.
  unfold rne. rewrite Z.pow_add_r by lia.
  rewrite Z.div_mul_cancel_r by lia.
  rewrite Z.mul_mod_distr_r by lia.
  replace (2 * (v mod 2 ^ s * 2 ^ j)) with ((2 * (v mod 2 ^ s)) * 2 ^ j) by ring.
  destruct (Z.compare_spec (2 * (v mod 2 ^ s)) (2 ^ s));
    destruct (Z.compare_spec (2 * (v mod 2 ^ s) * 2 ^ j) (2 ^ s * 2 ^ j));
    try reflexivity; nia.
Qed.

Lemma grid_nonneg v : 0 <= grid v.
Proof. unfold grid, K. lia. Qed.

Lemma rnd_nonneg v : 0 <= v -> 0 <= rnd v.
Proof.
  intros Hv. unfold rnd. pose proof (grid_nonneg v) as G.
  assert (P : 0 < 2 ^ grid v) by pow2_pos.
  pose proof (rne_bounds v (grid v)). pose proof (Z.div_pos v (2 ^ grid v) Hv P). nia.
Qed.

Lemma rnd_mono v v' : 0 <= v -> v <= v' -> rnd v <= rnd v'.
Proof.
  intros H0 Hv. unfold rnd.
  pose proof (grid_nonneg v) as G. pose proof (grid_nonneg v') as G'.
  assert (L : Z.log2 v <= Z.log2 v') by (apply Z.log2_le_mono; lia).
  assert (GG : grid v <= grid v') by (unfold grid; lia).
  assert (P : 0 < 2 ^ grid v) by pow2_pos.
  assert (P' : 0 < 2 ^ grid v') by pow2_pos.
  destruct (Z.eq_dec (grid v) (grid v')) as [E|N].
  - rewrite <- E. apply Z.mul_le_mono_nonneg_r; [lia|]. apply rne_mono; lia.
  - destruct (Z.eq_dec v 0) as [->|Nz].
    + rewrite rne_zero by lia. pose proof (rne_bounds v' (grid v')).
      pose proof (Z.div_pos v' (2 ^ grid v') ltac:(lia) P'). nia.
    + assert (Hg' : grid v' = Z.log2 v' + 1 - 53) by (unfold grid in *; lia).
      assert (Hg : Z.log2 v + 1 - 53 <= grid v) by (unfold grid; lia).
      destruct (Z.log2_spec v ltac:(lia)) as [_ U].
      destruct (Z.log2_spec v' ltac:(lia)) as [Lw _].
      (* upper bound for rnd v *)
      assert (U1 : v < 2 ^ (grid v + 53)).
      { eapply Z.lt_le_trans; [exact U|]. apply Z.pow_le_mono_r; lia. }
      assert (U2 : v / 2 ^ grid v < 2 ^ 53).
      { apply Z.div_lt_upper_bound; [lia|]. rewrite <- Z.pow_add_r by lia. exact U1. }
      pose proof (rne_bounds v (grid v)) as B.
      assert (U3 : rne v (grid v) * 2 ^ grid v <= 2 ^ (grid v + 53)).
      { rewrite Z.pow_add_r by lia. nia. }
      (* lower bound for rnd v' *)
      assert (L1 : 2 ^ (grid v' + 52) <= v').
      { replace (grid v' + 52) with (Z.log2 v') by lia. exact Lw. }
      assert (L2 : 2 ^ 52 <= v' / 2 ^ grid v').
      { apply Z.div_le_lower_bound; [lia|]. rewrite <- Z.pow_add_r by lia. exact L1. }
      pose proof (rne_bounds v' (grid v')) as B'.
      assert (L3 : 2 ^ (grid v' + 52) <= rne v' (grid v') * 2 ^ grid v').
      { rewrite Z.pow_add_r by lia. nia. }
      assert (M : 2 ^ (grid v + 53) <= 2 ^ (grid v' + 52)) by (apply Z.pow_le_mono_r; lia).
      lia.
Qed.

(** *** The shift loop of [binary_round_aux] *)

Lemma pow2_split k : 1 <= k -> 2 ^ k = 2 ^ (k - 1) * 2.
Proof.
  intros H. replace k with (Z.succ (k - 1)) at 1 by lia.
  rewrite Z.pow_succ_r by lia. ring.
Qed.

Lemma shr_1_nonneg m r s :
  0 <= m -> shr_1 (Build_shr_record m r s) = Build_shr_record (m / 2) (Z.odd m) (r || s).
Proof.
  intros H. destruct m as [|p|p]; [reflexivity| |lia].
  destruct p as [p|p|]; unfold shr_1.
  - replace (Z.pos p~1 / 2) with (Z.pos p)
      by (rewrite Pos2Z.inj_xI; apply Z.div_unique with 1; lia).
    reflexivity.
  - replace (Z.pos p~0 / 2) with (Z.pos p)
      by (rewrite Pos2Z.inj_xO; apply Z.div_unique with 0; lia).
    reflexivity.
  - reflexivity.
Qed.

Lemma shr_1_init M : 0 <= M -> shr_1 (Build_shr_record M false false) = shifted M 1.
Proof.
  intros H. rewrite shr_1_nonneg by assumption. unfold shifted.
  change (2 ^ 1) with 2. change (2 ^ (1 - 1)) with 1.
  now rewrite Z.div_1_r, Z.mod_1_r.
Qed.

Lemma shr_1_shifted M k : 0 <= M -> 1 <= k -> shr_1 (shifted M k) = shifted M (k + 1).
Proof.
  intros HM Hk. unfold shifted.
  assert (P : 0 < 2 ^ k) by pow2_pos.
  assert (P1 : 0 < 2 ^ (k - 1)) by pow2_pos.
  rewrite shr_1_nonneg by (apply Z.div_pos; lia).
  replace (k + 1 - 1) with k by lia. f_equal.
  - rewrite Z.pow_add_r, Z.pow_1_r by lia. rewrite Z.div_div by lia. reflexivity.
  - rewrite (pow2_split k) by lia.
    rewrite Z.rem_mul_r by lia.
    pose proof (Z.mod_pos_bound M (2 ^ (k - 1)) P1) as B.
    rewrite Zodd_mod.
    destruct (Z.eqb_spec (M mod 2 ^ (k - 1)) 0) as [E0|N0]; simpl.
    + rewrite E0, Z.add_0_l.
      destruct (Z.eqb_spec ((M / 2 ^ (k - 1)) mod 2) 1) as [E1|N1].
      * rewrite E1. destruct (Z.eqb_spec (2 ^ (k - 1) * 1) 0); [lia|reflexivity].
      * assert ((M / 2 ^ (k - 1)) mod 2 = 0)
          by (pose proof (Z.mod_pos_bound (M / 2 ^ (k - 1)) 2 ltac:(lia)); lia).
        rewrite H. rewrite Z.mul_0_r. reflexivity.
    + rewrite orb_true_r.
      pose proof (Z.mod_pos_bound (M / 2 ^ (k - 1)) 2 ltac:(lia)).
      destruct (Z.eqb_spec (M mod 2 ^ (k - 1) + 2 ^ (k - 1) * ((M / 2 ^ (k - 1)) mod 2)) 0);
        [nia|reflexivity].
Qed.

Lemma iter_shifted M p : forall k,
  0 <= M -> 1 <= k -> iter_pos shr_1 p (shifted M k) = shifted M (k + Z.pos p).
Proof.
  induction p as [p IH|p IH|]; intros k HM Hk; cbn [iter_pos].
  - rewrite shr_1_shifted, IH, IH by lia. f_equal. lia.
  - rewrite IH, IH by lia. f_equal. lia.
  - now apply shr_1_shifted.
Qed.

Lemma iter_init M p :
  0 <= M -> iter_pos shr_1 p (Build_shr_record M false false) = shifted M (Z.pos p).
Proof.
  intros HM. induction p as [p _|p IH|]; cbn [iter_pos].
  - rewrite shr_1_init, !iter_shifted by lia. f_equal. lia.
  - rewrite IH, iter_shifted by lia. f_equal. lia.
  - now apply shr_1_init.
Qed.

(** Rounding the shifted record is rounding to nearest even. *)
Lemma round_shifted M k :
  0 <= M -> 1 <= k ->
  round_nearest_even (shr_m (shifted M k)) (loc_of_shr_record (shifted M k)) = rne M k.
Proof.
  intros HM Hk. unfold shifted, rne. cbn [shr_m loc_of_shr_record].
  assert (P1 : 0 < 2 ^ (k - 1)) by pow2_pos.
  pose proof (pow2_split k Hk) as E2.
  rewrite E2 at 2 3. rewrite Z.rem_mul_r by lia.
  pose proof (Z.mod_pos_bound M (2 ^ (k - 1)) P1) as B.
  pose proof (Z.mod_pos_bound (M / 2 ^ (k - 1)) 2 ltac:(lia)) as B2.
  rewrite Zodd_mod.
  destruct (Z.eqb_spec ((M / 2 ^ (k - 1)) mod 2) 1) as [E1|N1];
    destruct (Z.eqb_spec (M mod 2 ^ (k - 1)) 0) as [E0|N0]; cbn [negb round_nearest_even].
  - rewrite E1, E0.
    destruct (Z.compare_spec (2 * (0 + 2 ^ (k - 1) * 1)) (2 ^ (k - 1) * 2));
      first [lia | reflexivity].
  - rewrite E1.
    destruct (Z.compare_spec (2 * (M mod 2 ^ (k - 1) + 2 ^ (k - 1) * 1)) (2 ^ (k - 1) * 2));
      first [lia | reflexivity].
  - assert (Z0' : (M / 2 ^ (k - 1)) mod 2 = 0) by lia. rewrite Z0', E0.
    destruct (Z.compare_spec (2 * (0 + 2 ^ (k - 1) * 0)) (2 ^ (k - 1) * 2));
      first [lia | reflexivity].
  - assert (Z0' : (M / 2 ^ (k - 1)) mod 2 = 0) by lia. rewrite Z0'.
    destruct (Z.compare_spec (2 * (M mod 2 ^ (k - 1) + 2 ^ (k - 1) * 0)) (2 ^ (k - 1) * 2));
      first [lia | reflexivity].
Qed.

(** *** [binary_round_aux] on an exact mantissa *)

Lemma digits2_size m : digits2_pos m = Pos.size m.
Proof. induction m; simpl; congruence. Qed.

Lemma digits2_log2 m : Z.pos (digits2_pos m) = Z.log2 (Z.pos m) + 1.
Proof.
  rewrite digits2_size. destruct m; simpl; try reflexivity; rewrite Pos2Z.inj_succ; lia.
Qed.

Lemma fexp_eq x : fexp prec emax x = Z.max (x - 53) (-1074).
Proof. reflexivity. Qed.

Lemma rne_0 M : rne M 0 = M.
Proof.
  unfold rne. change (2 ^ 0) with 1. rewrite Z.div_1_r, Z.mod_1_r. reflexivity.
Qed.

Lemma shr_exact M e n :
  0 <= M -> 0 <= n ->
  round_nearest_even (shr_m (fst (shr (Build_shr_record M false false) e n)))
                     (loc_of_shr_record (fst (shr (Build_shr_record M false false) e n)))
  = rne M n
  /\ snd (shr (Build_shr_record M false false) e n) = e + n.
Proof.
  intros HM Hn. destruct n as [|p|p]; [| |lia]; cbn [shr fst snd].
  - rewrite rne_0. split; [reflexivity|lia].
  - rewrite iter_init by assumption. split; [|reflexivity].
    apply round_shifted; lia.
Qed.

Lemma log2_lt_pow2' a b : 0 < a -> a < 2 ^ b -> Z.log2 a < b.
Proof. intros. apply Z.log2_lt_pow2; assumption. Qed.

Lemma bra_sval m e :
  - K <= e ->
  0 <= fexp prec emax (Z.pos (digits2_pos m) + e) - e ->
  Z.pos m * 2 ^ (e + K) < 2 ^ (K + 900) ->
  nonneg_SF (binary_round_aux prec emax false (Z.pos m) e loc_Exact)
  /\ sval (binary_round_aux prec emax false (Z.pos m) e loc_Exact)
     = rnd (Z.pos m * 2 ^ (e + K)).
Proof.
  intros He Hn Hv.
  unfold binary_round_aux, shr_fexp. cbn [shr_record_of_loc Zdigits2].
  set (d := Z.pos (digits2_pos m)) in *.
  set (n := fexp prec emax (d + e) - e) in *.
  assert (Hd : d = Z.log2 (Z.pos m) + 1) by apply digits2_log2.
  assert (En : n = Z.max (d + e - 53) (-1074) - e) by reflexivity.
  destruct (shr_exact (Z.pos m) e n ltac:(lia) Hn) as [R1 R2].
  destruct (shr (Build_shr_record (Z.pos m) false false) e n) as [mrs' e'] eqn:S1.
  cbn [fst snd] in R1, R2. rewrite R1. subst e'.
  set (m1 := rne (Z.pos m) n) in *.
  (* size of the rounded mantissa *)
  destruct (Z.log2_spec (Z.pos m) ltac:(lia)) as [Lm Um].
  assert (P : 0 < 2 ^ n) by pow2_pos.
  assert (Q : Z.pos m / 2 ^ n < 2 ^ 53).
  { apply Z.div_lt_upper_bound; [lia|]. rewrite <- Z.pow_add_r by lia.
    eapply Z.lt_le_trans; [exact Um|]. apply Z.pow_le_mono_r; lia. }
  pose proof (rne_bounds (Z.pos m) n) as B. fold m1 in B.
  pose proof (Z.div_pos (Z.pos m) (2 ^ n) ltac:(lia) P) as Q0.
  (* the value being rounded *)
  assert (Pk : 0 < 2 ^ (e + K)) by pow2_pos.
  assert (Lv : Z.log2 (Z.pos m * 2 ^ (e + K)) = Z.log2 (Z.pos m) + (e + K)).
  { rewrite Z.log2_mul_pow2 by lia. lia. }
  assert (G : grid (Z.pos m * 2 ^ (e + K)) = n + (e + K)).
  { unfold grid. rewrite Lv. lia. }
  assert (RV : rnd (Z.pos m * 2 ^ (e + K)) = m1 * 2 ^ (n + (e + K))).
  { unfold rnd. rewrite G, rne_scale by lia. reflexivity. }
  rewrite RV.
  (* the exponent stays small *)
  assert (Hde : d + e <= 900).
  { assert (Z.log2 (Z.pos m * 2 ^ (e + K)) < K + 900)
      by (apply Z.log2_lt_pow2; [lia|exact Hv]).
    lia. }
  unfold shr. rewrite fexp_eq.
  destruct m1 as [|p1|p1] eqn:Em1; [| |lia].
  - (* rounds to zero *)
    cbn [Zdigits2].
    destruct (Z.max (0 + (e + n) - 53) (-1074) - (e + n)) eqn:N2; try lia;
      cbn [fst shr_m]; split; simpl; auto.
  - destruct (Z.eq_dec (Z.pos p1) (2 ^ 53)) as [Top|NTop].
    + (* carry into the next binade *)
      cbn [Zdigits2]. rewrite digits2_log2, Top.
      replace (Z.log2 (2 ^ 53)) with 53 by reflexivity.
      replace (Z.max (53 + 1 + (e + n) - 53) (-1074) - (e + n)) with 1 by lia.
      cbn [iter_pos snd fst].
      rewrite shr_1_nonneg by lia. cbn [shr_m].
      replace (2 ^ 53 / 2) with (Z.pos (2 ^ 52)) by reflexivity.
      replace (e + n + 1 <=? emax - prec) with true
        by (symmetry; apply Z.leb_le; unfold emax, prec; lia).
      split; [simpl; lia|]. cbn [sval].
      replace (e + n + 1 + K) with (Z.succ (n + (e + K))) by lia.
      rewrite Z.pow_succ_r by lia.
      replace (Z.pos (2 ^ 52)) with (2 ^ 52) by reflexivity.
      replace (2 ^ 53) with (2 ^ 52 * 2) by reflexivity. ring.
    + assert (Z.pos p1 < 2 ^ 53) by lia.
      assert (Z.log2 (Z.pos p1) < 53) by (apply Z.log2_lt_pow2; lia).
      pose proof (Z.log2_nonneg (Z.pos p1)).
      cbn [Zdigits2]. rewrite digits2_log2.
      destruct (Z.max (Z.log2 (Z.pos p1) + 1 + (e + n) - 53) (-1074) - (e + n)) eqn:N2;
        try lia; cbn [fst snd shr_m];
        (replace (e + n <=? emax - prec) with true
           by (symmetry; apply Z.leb_le; unfold emax, prec; lia));
        (split; [simpl; lia|]); cbn [sval]; do 2 f_equal; lia.
Qed.

(** *** Order, truncation, and the unit interval *)

Lemma valid_finite s m e :
  valid_binary (S754_finite s m e) = true ->
  e = Z.max (Z.log2 (Z.pos m) + 1 + e - 53) (-1074) /\ e <= 971.
Proof.
  unfold valid_binary, bounded, canonical_mantissa. intros H.
  apply andb_true_iff in H. destruct H as [C B].
  apply Z.eqb_eq in C. apply Z.leb_le in B.
  rewrite fexp_eq, digits2_log2 in C. unfold emax, prec in B. lia.
Qed.

Lemma sval_nonneg a : 0 <= sval a.
Proof.
  destruct a as [s|s| |s m e]; cbn [sval]; try lia. destruct s; [lia|].
  apply Z.mul_nonneg_nonneg; [lia|]. apply Z.pow_nonneg. lia.
Qed.

(** The order of valid non-negative doubles is the order of their values. *)
Lemma SFleb_sval a b :
  valid_binary a = true -> valid_binary b = true ->
  nonneg_SF a -> nonneg_SF b ->
  SFleb a b = true -> sval a <= sval b.
Proof.
  intros Va Vb Na Nb.
  destruct a as [sa|sa| |sa ma ea]; try contradiction;
    destruct b as [sb|sb| |sb mb eb]; try contradiction.
  - simpl. lia.
  - intros _. apply (sval_nonneg (S754_finite sb mb eb)).
  - destruct sa; [contradiction|]. unfold SFleb, SFcompare. discriminate.
  - destruct sa; [contradiction|]. destruct sb; [contradiction|].
    simpl in Na, Nb. K_value.
    destruct (valid_finite _ _ _ Va) as [Ca _]. destruct (valid_finite _ _ _ Vb) as [Cb _].
    destruct (Z.log2_spec (Z.pos ma) ltac:(lia)) as [La Ua].
    destruct (Z.log2_spec (Z.pos mb) ltac:(lia)) as [Lb Ub].
    unfold SFleb, SFcompare. cbn [sval].
    destruct (Z.compare_spec ea eb) as [E|E|E].
    + subst eb. rewrite Pos.compare_cont_spec. cbn [Pos.switch_Eq].
      intros H. apply Z.mul_le_mono_nonneg_r; [apply Z.pow_nonneg; lia|].
      destruct (Pos.compare_spec ma mb); try discriminate; lia.
    + intros _.
      assert (Hb : Z.log2 (Z.pos mb) = 52) by lia.
      assert (Ha : Z.log2 (Z.pos ma) <= 52) by lia.
      rewrite Hb in Lb.
      assert (U : Z.pos ma < 2 ^ 53).
      { eapply Z.lt_le_trans; [exact Ua|]. apply Z.pow_le_mono_r; lia. }
      assert (Pa : 0 < 2 ^ (ea + K)) by pow2_pos.
      assert (Pb : 0 < 2 ^ (eb + K)) by pow2_pos.
      assert (S1 : Z.pos ma * 2 ^ (ea + K) <= 2 ^ 53 * 2 ^ (ea + K)) by nia.
      assert (S2 : 2 ^ 52 * 2 ^ (eb + K) <= Z.pos mb * 2 ^ (eb + K)) by nia.
      assert (S3 : 2 ^ 53 * 2 ^ (ea + K) <= 2 ^ 52 * 2 ^ (eb + K)).
      { rewrite <- !Z.pow_add_r by lia. apply Z.pow_le_mono_r; lia. }
      lia.
    + discriminate.
Qed.

Lemma trunc_sval a : nonneg_SF a -> trunc_SF a = Some (sval a / 2 ^ K).
Proof.
  destruct a as [s|s| |s m e]; try contradiction; intros H.
  - reflexivity.
  - destruct s; [contradiction|]. simpl in H. cbn [trunc_SF sval].
    assert (PK : 0 < 2 ^ K) by reflexivity.
    K_value.
    f_equal. destruct e as [|p|p].
    + rewrite Z.pow_add_r by (unfold K; lia). rewrite Z.mul_assoc.
      rewrite Z.div_mul by lia. reflexivity.
    + rewrite Z.pow_add_r by (unfold K; lia). rewrite Z.mul_assoc.
      rewrite Z.div_mul by lia. reflexivity.
    + assert (Pp : 0 < 2 ^ Z.pos p) by pow2_pos.
      replace (2 ^ K) with (2 ^ Z.pos p * 2 ^ (Z.neg p + K))
        by (rewrite <- Z.pow_add_r by lia; f_equal; lia).
      rewrite Z.div_mul_cancel_r; [reflexivity|lia|].
      apply Z.pow_nonzero; lia.
Qed.

(** The doubles of the unit interval. *)
Lemma unit_interval x :
  PrimFloat.leb 0 x = true -> PrimFloat.leb x 1 = true ->
  valid_binary (Prim2SF x) = true /\ nonneg_SF (Prim2SF x) /\ sval (Prim2SF x) <= 2 ^ K.
Proof.
  rewrite !leb_spec. intros H0 H1.
  pose proof (Prim2SF_valid x) as V.
  change (Prim2SF 0) with (S754_zero false) in H0.
  change (Prim2SF 1) with (S754_finite false 4503599627370496 (-52)) in H1.
  assert (N : nonneg_SF (Prim2SF x)).
  { destruct (Prim2SF x) as [s|s| |s m e]; simpl.
    - exact I.
    - destruct s; discriminate.
    - discriminate.
    - destruct s; [discriminate|]. destruct (valid_finite _ _ _ V). unfold K. lia. }
  split; [exact V|]. split; [exact N|].
  change (2 ^ K) with (sval (S754_finite false 4503599627370496 (-52))).
  apply SFleb_sval; auto. simpl. unfold K. lia.
Qed.

(** *** The operations of [scale_coordinates] *)

Lemma rnd_zero : rnd 0 = 0.
Proof. reflexivity. Qed.

(** A double of the unit interval times the constant [C = mc * 2 ^ ec]. *)
Lemma SFmul_const a mc ec C :
  valid_binary a = true -> nonneg_SF a -> sval a <= 2 ^ K ->
  2 ^ 52 <= Z.pos mc -> -100 <= ec <= 0 -> Z.pos mc = C * 2 ^ (- ec) -> 0 < C <= 2 ^ 20 ->
  nonneg_SF (SFmul prec emax a (S754_finite false mc ec))
  /\ sval (SFmul prec emax a (S754_finite false mc ec)) = rnd (C * sval a).
Proof.
  intros V N B Hmc Hec HC HC'. K_value.
  destruct a as [s|s| |s m e]; try contradiction.
  - cbn [SFmul sval nonneg_SF]. rewrite Z.mul_0_r. split; [exact I|reflexivity].
  - destruct s; [contradiction|]. cbn [SFmul xorb].
    destruct (valid_finite _ _ _ V) as [Ce _].
    assert (Val : Z.pos (m * mc) * 2 ^ (e + ec + K) = C * sval (S754_finite false m e)).
    { cbn [sval]. rewrite Pos2Z.inj_mul, HC.
      replace (e + K) with ((- ec) + (e + ec + K)) by lia.
      rewrite (Z.pow_add_r 2 (- ec)) by lia. ring. }
    assert (PK : 0 < 2 ^ K) by reflexivity.
    rewrite <- Val. apply bra_sval.
    + lia.
    + rewrite fexp_eq, digits2_log2, Pos2Z.inj_mul.
      pose proof (Z.log2_mul_below (Z.pos m) (Z.pos mc) ltac:(lia) ltac:(lia)) as L.
      assert (52 <= Z.log2 (Z.pos mc)) by (apply Z.log2_le_pow2; lia).
      pose proof (Z.log2_nonneg (Z.pos m)). lia.
    + rewrite Val. eapply Z.le_lt_trans.
      * apply Z.mul_le_mono_nonneg; [lia|apply HC'|apply sval_nonneg|exact B].
      * rewrite <- Z.pow_add_r by lia. apply Z.pow_lt_mono_r; lia.
Qed.

Lemma iter_xO m d : Z.pos (Pos.iter xO m d) = Z.pos m * 2 ^ Z.pos d.
Proof.
  induction d as [|d IH] using Pos.peano_ind.
  - simpl. lia.
  - rewrite Pos.iter_succ, Pos2Z.inj_xO, IH, Pos2Z.inj_succ, Z.pow_succ_r by lia. ring.
Qed.

(** Rounding an integer mantissa ([binary_round], after alignment). *)
Lemma binary_round_sval m e :
  -1074 <= e -> Z.pos m * 2 ^ (e + K) < 2 ^ (K + 900) ->
  nonneg_SF (binary_round prec emax false m e)
  /\ sval (binary_round prec emax false m e) = rnd (Z.pos m * 2 ^ (e + K)).
Proof.
  intros He Hv. K_value.
  unfold binary_round, shl_align. rewrite fexp_eq, digits2_log2.
  set (f := Z.max (Z.log2 (Z.pos m) + 1 + e - 53) (-1074)).
  destruct (f - e) as [|p|p] eqn:D.
  - apply bra_sval; [lia| |exact Hv]. rewrite fexp_eq, digits2_log2. fold f. lia.
  - apply bra_sval; [lia| |exact Hv]. rewrite fexp_eq, digits2_log2. fold f. lia.
  - assert (Val : Z.pos (Pos.iter xO m p) * 2 ^ (f + K) = Z.pos m * 2 ^ (e + K)).
    { rewrite iter_xO. replace (e + K) with (Z.pos p + (f + K)) by lia.
      rewrite (Z.pow_add_r 2 (Z.pos p)) by lia. ring. }
    rewrite <- Val. apply bra_sval; [unfold f; lia| |rewrite Val; exact Hv].
    rewrite fexp_eq, digits2_log2, iter_xO, Z.log2_mul_pow2 by lia.
    unfold f. lia.
Qed.

(** [1.0 - y] for a double [y] of the unit interval. *)
Lemma SFsub_one b :
  valid_binary b = true -> nonneg_SF b -> sval b <= 2 ^ K ->
  nonneg_SF (SFsub prec emax SF_one b)
  /\ sval (SFsub prec emax SF_one b) = rnd (2 ^ K - sval b).
Proof.
  intros V N B. K_value.
  assert (PK : 0 < 2 ^ K) by reflexivity.
  destruct b as [s|s| |s m e]; try contradiction.
  - cbn [SFsub SF_one sval]. rewrite Z.sub_0_r. split; [simpl; lia|].
    vm_compute. reflexivity.
  - destruct s; [contradiction|].
    destruct (valid_finite _ _ _ V) as [Ce _].
    destruct (Z.log2_spec (Z.pos m) ltac:(lia)) as [Lm Um].
    cbn [sval] in B.
    assert (He : e <= -52).
    { destruct (Z.le_gt_cases e (-52)) as [|G]; [assumption|exfalso].
      assert (Z.log2 (Z.pos m) = 52) by lia.
      assert (2 ^ 52 <= Z.pos m) by (rewrite <- H; exact Lm).
      assert (2 ^ (K - 51) <= 2 ^ (e + K)) by (apply Z.pow_le_mono_r; lia).
      assert (2 ^ 52 * 2 ^ (K - 51) <= Z.pos m * 2 ^ (e + K))
        by (apply Z.mul_le_mono_nonneg; try assumption; [lia|apply Z.pow_nonneg; lia]).
      assert (2 ^ 52 * 2 ^ (K - 51) = 2 * 2 ^ K) by (rewrite HK; reflexivity).
      lia. }
    unfold SFsub, SF_one. cbn [cond_Zopp]. rewrite Z.min_r by lia.
    assert (A2 : fst (shl_align m e e) = m)
      by (unfold shl_align; rewrite Z.sub_diag; reflexivity).
    rewrite A2.
    assert (A1 : Z.pos (fst (shl_align 4503599627370496 (-52) e)) = 2 ^ (- e)).
    { unfold shl_align. destruct (e - -52) as [|p|p] eqn:D; try lia; cbn [fst].
      - replace e with (-52) by lia. reflexivity.
      - rewrite iter_xO. change (Z.pos 4503599627370496) with (2 ^ 52).
        rewrite <- Z.pow_add_r by lia. f_equal. lia. }
    rewrite A1.
    assert (Val : (2 ^ (- e) - Z.pos m) * 2 ^ (e + K) = 2 ^ K - Z.pos m * 2 ^ (e + K)).
    { rewrite Z.mul_sub_distr_r, <- Z.pow_add_r by lia. do 2 f_equal. lia. }
    assert (Pe : 0 < 2 ^ (e + K)) by pow2_pos.
    cbn [sval]. rewrite <- Val.
    destruct (2 ^ (- e) - Z.pos m) as [|p|p] eqn:D.
    + cbn [binary_normalize sval nonneg_SF]. split; [exact I|reflexivity].
    + cbn [binary_normalize]. apply binary_round_sval; [lia|].
      rewrite Val. pose proof (Z.pow_pos_nonneg 2 (K + 900) ltac:(lia) ltac:(lia)).
      assert (2 ^ K <= 2 ^ (K + 900)) by (apply Z.pow_le_mono_r; lia). nia.
    + exfalso. nia.
Qed.

Lemma to_int_small z : INT_MIN <= z <= INT_MAX -> to_int z = z.
Proof.
  unfold to_int, INT_MIN, INT_MAX. intros H. rewrite Z.mod_small; lia.
Qed.

Lemma div_pow_le a b : 0 <= a -> a <= b * 2 ^ K -> a / 2 ^ K <= b.
Proof.
  intros Ha H. assert (PK : 0 < 2 ^ K) by reflexivity.
  apply Z.div_le_upper_bound; lia.
Qed.

Lemma scaled_mul x (mc : positive) (ec C : Z) c :
  Prim2SF c = S754_finite false mc ec ->
  valid_binary (Prim2SF x) = true -> nonneg_SF (Prim2SF x) -> sval (Prim2SF x) <= 2 ^ K ->
  2 ^ 52 <= Z.pos mc -> -100 <= ec <= 0 -> Z.pos mc = C * 2 ^ (- ec) -> 0 < C <= 1000 ->
  rnd (C * 2 ^ K) = C * 2 ^ K ->
  to_int (margin + double_to_int (PrimFloat.mul x c))
  = 50 + rnd (C * sval (Prim2SF x)) / 2 ^ K
  /\ 0 <= rnd (C * sval (Prim2SF x)) / 2 ^ K <= C.
Proof.
  intros Hc V N B Hmc Hec HC HC' Hr.
  assert (PK : 0 < 2 ^ K) by reflexivity.
  destruct (SFmul_const (Prim2SF x) mc ec C V N B Hmc Hec HC) as [N' S'];
    [change (2 ^ 20) with 1048576; lia|].
  pose proof (sval_nonneg (Prim2SF x)) as S0.
  assert (R : 0 <= rnd (C * sval (Prim2SF x)) / 2 ^ K <= C).
  { split.
    - apply Z.div_pos; [apply rnd_nonneg; nia|lia].
    - apply div_pow_le; [apply rnd_nonneg; nia|]. rewrite <- Hr.
      apply rnd_mono; nia. }
  split; [|exact R].
  unfold double_to_int. rewrite mul_spec, Hc. unfold SF64mul.
  rewrite (trunc_sval _ N'), S'.
  replace (INT_MIN <=? _) with true by (symmetry; apply Z.leb_le; unfold INT_MIN; lia).
  replace (_ <=? INT_MAX) with true by (symmetry; apply Z.leb_le; unfold INT_MAX; lia).
  cbn [andb]. unfold margin. apply to_int_small. unfold INT_MIN, INT_MAX. lia.
Qed.

Lemma scaled_x_value x y :
  in_unit x ->
  fst (scale_coordinates x y) = 50 + x_offset x /\ 0 <= x_offset x <= 700.
Proof.
  intros [H0 H1]. destruct (unit_interval x H0 H1) as (V & N & B).
  unfold scale_coordinates, x_offset. cbn [fst].
  apply (scaled_mul x 6157265115545600 (-43) 700); auto; try reflexivity; try lia.
Qed.

Lemma one_minus y :
  in_unit y ->
  valid_binary (Prim2SF (PrimFloat.sub 1 y)) = true
  /\ nonneg_SF (Prim2SF (PrimFloat.sub 1 y))
  /\ sval (Prim2SF (PrimFloat.sub 1 y)) = rnd (2 ^ K - sval (Prim2SF y))
  /\ sval (Prim2SF (PrimFloat.sub 1 y)) <= 2 ^ K.
Proof.
  intros [H0 H1]. destruct (unit_interval y H0 H1) as (V & N & B).
  split; [apply Prim2SF_valid|].
  rewrite sub_spec. change (Prim2SF 1) with SF_one. unfold SF64sub.
  destruct (SFsub_one (Prim2SF y) V N B) as [N' S'].
  split; [exact N'|]. split; [exact S'|]. rewrite S'.
  pose proof (sval_nonneg (Prim2SF y)).
  assert (E : rnd (2 ^ K) = 2 ^ K) by (vm_compute; reflexivity).
  rewrite <- E at 2. apply rnd_mono; lia.
Qed.

Lemma scaled_y_value x y :
  in_unit y ->
  snd (scale_coordinates x y) = 50 + y_offset y /\ 0 <= y_offset y <= 500.
Proof.
  intros Hy. destruct (one_minus y Hy) as (V & N & S & B).
  unfold scale_coordinates, y_offset. cbn [snd]. rewrite <- S.
  apply (scaled_mul (PrimFloat.sub 1 y) 8796093022208000 (-44) 500); auto;
    try reflexivity; try lia.
Qed.

Lemma sval_le x x' :
  in_unit x -> in_unit x' -> PrimFloat.leb x x' = true ->
  sval (Prim2SF x) <= sval (Prim2SF x').
Proof.
  intros [A0 A1] [B0 B1] L.
  destruct (unit_interval x A0 A1) as (V & N & _).
  destruct (unit_interval x' B0 B1) as (V' & N' & _).
  rewrite leb_spec in L. now apply SFleb_sval.
Qed.

(** C3 (as amended): for coordinates of the unit square the scaling is
    monotone, not strictly: x <= x' gives scaled-x(x) <= scaled-x(x'),
    y <= y' gives scaled-y(y') <= scaled-y(y) (flipped axis); the scaled
    x is in [50, 750] and the scaled y in [50, 550].  The corners map to
    (50, 550) and (750, 50). *)
Theorem scale_coordinates_monotone :
  (forall x x' y y' : float,
      in_unit x -> in_unit x' -> in_unit y -> in_unit y' ->
      PrimFloat.leb x x' = true -> PrimFloat.leb y y' = true ->
      fst (scale_coordinates x y) <= fst (scale_coordinates x' y')
      /\ snd (scale_coordinates x' y') <= snd (scale_coordinates x y)
      /\ 50 <= fst (scale_coordinates x y) <= 750
      /\ 50 <= snd (scale_coordinates x y) <= 550)
  /\ scale_coordinates 0 0 = (50, 550)
  /\ scale_coordinates 1 1 = (750, 50)
  /\ scale_coordinates 0.5 0.25 = (400, 425).
Proof.
  split; [|repeat split; vm_compute; reflexivity].
  intros x x' y y' Hx Hx' Hy Hy' Lx Ly.
  assert (PK : 0 < 2 ^ K) by reflexivity.
  destruct (scaled_x_value x y Hx) as [Ex Rx].
  destruct (scaled_x_value x' y' Hx') as [Ex' _].
  destruct (scaled_y_value x y Hy) as [Ey Ry].
  destruct (scaled_y_value x' y' Hy') as [Ey' _].
  pose proof (sval_le x x' Hx Hx' Lx) as Sx.
  pose proof (sval_le y y' Hy Hy' Ly) as Sy.
  pose proof (sval_nonneg (Prim2SF x)) as Px.
  pose proof (sval_nonneg (Prim2SF y)) as Py.
  destruct Hy' as [Hy0 Hy1]. destruct (unit_interval y' Hy0 Hy1) as (_ & _ & By').
  rewrite Ex, Ex', Ey, Ey'. repeat split; try lia.
  - apply Z.add_le_mono_l. unfold x_offset.
    apply Z.div_le_mono; [lia|]. apply rnd_mono; lia.
  - apply Z.add_le_mono_l. unfold y_offset.
    apply Z.div_le_mono; [lia|]. apply rnd_mono.
    + pose proof (rnd_nonneg (2 ^ K - sval (Prim2SF y')) ltac:(lia)). lia.
    + apply Z.mul_le_mono_nonneg_l; [lia|]. apply rnd_mono; lia.
Qed.

Lemma scale_coordinates_monotone_witness :
  fst (scale_coordinates 0.25 0.25) <= fst (scale_coordinates 0.5 0.75)
  /\ snd (scale_coordinates 0.5 0.75) <= snd (scale_coordinates 0.25 0.25)
  /\ 50 <= fst (scale_coordinates 0.25 0.25) <= 750
  /\ 50 <= snd (scale_coordinates 0.25 0.25) <= 550.
Proof.
  apply (proj1 scale_coordinates_monotone 0.25 0.5 0.25 0.75)%float;
    try (split; reflexivity); reflexivity.
Defined.

(** C3 as stated fails: the result is truncated to an integer, so
    0 < 2^-10 and both scale to x = 50, and 1 - 2^-10 < 1 and both scale to
    y = 50. *)
Lemma scale_coordinates_not_strict :
  PrimFloat.ltb 0 0.0009765625 = true
  /\ ~ (fst (scale_coordinates 0 1) < fst (scale_coordinates 0.0009765625 1))
  /\ PrimFloat.ltb 0.9990234375 1 = true
  /\ ~ (snd (scale_coordinates 0 1) < snd (scale_coordinates 0 0.9990234375)).
Proof.
  repeat split; try (vm_compute; reflexivity); vm_compute; discriminate.
Qed.

(** ** A closing [%%] of a format *)

Lemma run_scanf_trailing_pct ds : forall inp vals,
  sr_vals (run_scanf (ds ++ [D_pct]) inp vals) = sr_vals (run_scanf ds inp vals)
  /\ (sr_ret (run_scanf (ds ++ [D_pct]) inp vals) = sr_ret (run_scanf ds inp vals)
      \/ (sr_ret (run_scanf (ds ++ [D_pct]) inp vals) = EOF
          /\ sr_ret (run_scanf ds inp vals) = 0)).
Proof.
  induction ds as [|d ds IH]; intros inp vals.
  - cbn [app run_scanf]. destruct (skip_ws inp) as [|a inp'].
    + destruct vals; cbn; auto.
    + destruct (Ascii.eqb a "%"); cbn; auto.
  - cbn [app]. destruct d; cbn [run_scanf]; auto.
    + destruct inp as [|a inp']; [cbn; auto|]. destruct (Ascii.eqb a c); auto.
    + destruct (skip_ws inp) as [|a inp']; [cbn; auto|].
      destruct (Ascii.eqb a "%"); auto.
    + destruct (skip_ws inp) as [|a inp']; [cbn; auto|].
      destruct (scan_int (a :: inp')) as [[z r]|]; auto.
    + destruct (skip_ws inp) as [|a inp']; [cbn; auto|].
      destruct (scan_double (a :: inp')) as [[z r]|]; auto.
    + destruct (skip_ws inp) as [|a inp']; [cbn; auto|]. auto.
    + destruct inp as [|a inp']; [cbn; auto|]. auto.
Qed.

Lemma sscanf_is_trailing_pct n ds inp :
  1 <= n ->
  (let r := run_scanf (ds ++ [D_pct]) inp [] in
   if sr_ret r =? n then Some (sr_vals r) else None)
  = (let r := run_scanf ds inp [] in
     if sr_ret r =? n then Some (sr_vals r) else None).
Proof.
  intros Hn. cbv zeta.
  destruct (run_scanf_trailing_pct ds inp []) as [-> [->|[-> ->]]]; [reflexivity|].
  unfold EOF. destruct (Z.eqb_spec (-1) n); [lia|]. destruct (Z.eqb_spec 0 n); [lia|].
  reflexivity.
Qed.

(** X1: the percent sign that closes the formats "MIP gap = %lf%%" and
    "%lf%%" of parse_final_mip_gap is never checked: a line is taken with or
    without it and gives the same number.  "MIP gap = 2.50" and
    "MIP gap = 2.50 (absolute)" both give the gap 0.025, and the tolerance
    "(0.01/0.02)" gives 0.0001. *)
Theorem percent_sign_not_checked :
  (forall line : cstring, match_mip_gap line = match_mip_gap_number line)
  /\ (forall line : cstring, match_mip_optimal line = match_mip_optimal_number line)
  /\ parse_final_mip_gap (log_of "MIP gap = 2.50") = 0.025%float
  /\ parse_final_mip_gap (log_of "MIP gap = 2.50 (absolute)") = 0.025%float
  /\ parse_final_mip_gap
       (log_of "Solution status 102: MIP optimal, tolerance (0.01/0.02)")
     = 0.0001%float.
Proof.
  split; [|split; [|repeat split; vm_compute; reflexivity]].
  - intros line. unfold match_mip_gap, match_mip_gap_number, sscanf_is, sscanf.
    change (parse_format (lit "MIP gap = %lf%%"))
      with (parse_format (lit "MIP gap = %lf") ++ [D_pct]).
    now rewrite sscanf_is_trailing_pct by lia.
  - intros line. unfold match_mip_optimal, match_mip_optimal_number, sscanf_is, sscanf.
    change (parse_format (lit "%lf%%")) with (parse_format (lit "%lf") ++ [D_pct]).
    destruct (contains line "MIP optimal" && contains line "tolerance"); [|reflexivity].
    destruct (strstr line (lit "(")); [|reflexivity].
    now rewrite sscanf_is_trailing_pct by lia.
Qed.

(** ** The sign of a computed gap *)

Lemma bra_sign m e l :
  binary_round_aux prec emax false m e l = S754_nan
  \/ not_negative (binary_round_aux prec emax false m e l).
Proof.
  unfold binary_round_aux.
  destruct (shr_fexp prec emax m e l) as [mrs' e'].
  destruct (shr_fexp prec emax _ e' loc_Exact) as [mrs'' e''].
  destruct (shr_m mrs''); [right; exact I| |left; reflexivity].
  destruct (e'' <=? emax - prec); right; reflexivity.
Qed.

Lemma SFdiv_abs x y :
  SFdiv prec emax (SFabs x) (SFabs y) = S754_nan
  \/ not_negative (SFdiv prec emax (SFabs x) (SFabs y)).
Proof.
  destruct x as [sx|sx| |sx mx ex], y as [sy|sy| |sy my ey]; cbn [SFabs SFdiv xorb];
    try (left; reflexivity); try (right; simpl; auto; fail).
  destruct (SFdiv_core_binary prec emax (Z.pos mx) ex (Z.pos my) ey) as [[mz ez] lz].
  apply bra_sign.
Qed.

Lemma SFltb_zero x :
  x = S754_nan \/ not_negative x -> SFltb x (S754_zero false) = false.
Proof.
  intros [->|H]; [reflexivity|].
  destruct x as [s|s| |s m e]; simpl in H; try contradiction; subst; reflexivity.
Qed.

(** [fabs(u) / fabs(v)] is never below zero. *)
Lemma quotient_not_negative u v :
  PrimFloat.ltb (PrimFloat.div (fabs u) (fabs v)) 0 = false.
Proof.
  unfold fabs. rewrite ltb_spec, div_spec, !abs_spec.
  change (Prim2SF 0) with (S754_zero false). apply SFltb_zero, SFdiv_abs.
Qed.

Lemma compare_cont_refl m : Pos.compare_cont Eq m m = Eq.
Proof. rewrite Pos.compare_cont_spec. now rewrite Pos.compare_refl. Qed.

(** For a value that is not below zero, the test [final_gap >= 0.0] fails
    on a NaN only. *)
Lemma available_unless_nan r :
  PrimFloat.ltb r 0 = false -> gap_available r = negb (isnan r).
Proof.
  unfold gap_available, isnan, PrimFloat.is_nan.
  rewrite ltb_spec, leb_spec, eqb_spec.
  change (Prim2SF 0) with (S754_zero false).
  destruct (Prim2SF r) as [s|s| |s m e]; try reflexivity.
  - destruct s; [discriminate|reflexivity].
  - destruct s; [discriminate|]. intros _. unfold SFeqb, SFleb, SFcompare.
    now rewrite Z.compare_refl, compare_cont_refl.
Qed.

Lemma try_best_bound_sign line st :
  PrimFloat.ltb (gap st) 0 = false ->
  PrimFloat.ltb (gap (try_best_bound line st)) 0 = false.
Proof.
  intros H. unfold try_best_bound. destruct (match_best_bound line) as [[bb bi]|]; [|exact H].
  cbn [gap]. destruct (negb (isnan bb) && negb (isnan bi) && fneq bi 0); [|exact H].
  apply quotient_not_negative.
Qed.

Lemma try_best_branch_sign line st :
  PrimFloat.ltb (gap st) 0 = false ->
  PrimFloat.ltb (gap (try_best_branch line st)) 0 = false.
Proof.
  intros H. unfold try_best_branch.
  destruct (match_best_branch line) as [[z0 z1]|]; [|exact H].
  destruct (negb (isnan z0) && negb (isnan z1)); [|exact H].
  cbn [gap]. destruct (fneq _ 0); [|exact H]. apply quotient_not_negative.
Qed.

Lemma try_new_best_gap line st : gap (try_new_best line st) = gap st.
Proof. unfold try_new_best. destruct (match_new_best line); reflexivity. Qed.

Lemma try_mip_gap_none line st : match_mip_gap line = None -> try_mip_gap line st = st.
Proof. intros H. unfold try_mip_gap. now rewrite H. Qed.

Lemma try_mip_optimal_none line st :
  match_mip_optimal line = None -> try_mip_optimal line st = st.
Proof. intros H. unfold try_mip_optimal. now rewrite H. Qed.

Lemma try_best_branch_none line st :
  match_best_branch line = None -> try_best_branch line st = st.
Proof. intros H. unfold try_best_branch. now rewrite H. Qed.

Lemma gap_line_sign line st :
  match_mip_gap line = None -> match_mip_optimal line = None ->
  PrimFloat.ltb (gap st) 0 = false ->
  PrimFloat.ltb (gap (gap_line st line)) 0 = false.
Proof.
  intros H2 H3 H. unfold gap_line.
  rewrite (try_mip_gap_none _ _ H2), (try_mip_optimal_none _ _ H3).
  apply try_best_branch_sign. rewrite try_new_best_gap. now apply try_best_bound_sign.
Qed.

Lemma fold_gap_sign lines : forall st,
  (forall line, In line lines -> match_mip_gap line = None /\ match_mip_optimal line = None) ->
  PrimFloat.ltb (gap st) 0 = false ->
  PrimFloat.ltb (gap (fold_left gap_line lines st)) 0 = false.
Proof.
  induction lines as [|l lines IH]; intros st Hq H; simpl; [exact H|].
  apply IH; [intros; apply Hq; now right|].
  destruct (Hq l (or_introl eq_refl)). now apply gap_line_sign.
Qed.

Lemma gap_fallback_sign st :
  PrimFloat.ltb (gap st) 0 = false -> PrimFloat.ltb (gap (gap_fallback st)) 0 = false.
Proof.
  intros H. unfold gap_fallback.
  destruct (isnan (gap st) && _ && _ && _); [|exact H].
  cbn [gap]. destruct (fneq _ 0); [|exact H]. apply quotient_not_negative.
Qed.

(** X2: on a log that opens and has no line of the "MIP gap" and "MIP
    optimal" patterns, parse_final_mip_gap never returns a number below
    zero: the gap is a quotient of absolute values, or it is still NaN.  The
    test [final_gap >= 0.0] of the callers then fails for NaN only.  A
    negative result needs a line such as "MIP gap = -5%", which gives -0.05
    and is reported as not available; "MIP gap = -1e" is such a line too
    (the percent sign is not checked and the exponent without digits is
    read over) and gives -0.01. *)
Theorem gap_from_bounds_not_negative :
  (forall fp : cstring,
      (forall line, In line (read_lines 4096 fp) ->
                    match_mip_gap line = None /\ match_mip_optimal line = None) ->
      PrimFloat.ltb (parse_final_mip_gap (Some fp)) 0 = false
      /\ gap_available (parse_final_mip_gap (Some fp))
         = negb (isnan (parse_final_mip_gap (Some fp))))
  /\ parse_final_mip_gap (log_of "MIP gap = -5%") = (-0.05)%float
  /\ gap_available (parse_final_mip_gap (log_of "MIP gap = -5%")) = false
  /\ match_mip_gap (lit "MIP gap = -1e") = Some (-1)%float
  /\ parse_final_mip_gap (log_of "MIP gap = -1e") = (-0.01)%float.
Proof.
  split; [|repeat split; vm_compute; reflexivity].
  intros fp H.
  assert (S : PrimFloat.ltb (parse_final_mip_gap (Some fp)) 0 = false).
  { unfold parse_final_mip_gap. apply gap_fallback_sign, fold_gap_sign; [exact H|reflexivity]. }
  split; [exact S|]. now apply available_unless_nan.
Qed.

Lemma gap_from_bounds_witness :
  PrimFloat.ltb (parse_final_mip_gap
                   (log_of "Best branch is x3, Z0 = -120.0, Z1 = -100.0")) 0 = false
  /\ gap_available (parse_final_mip_gap
                      (log_of "Best branch is x3, Z0 = -120.0, Z1 = -100.0"))
     = negb (isnan (parse_final_mip_gap
                      (log_of "Best branch is x3, Z0 = -120.0, Z1 = -100.0"))).
Proof.
  apply (proj1 gap_from_bounds_not_negative).
  intros line H. vm_compute in H. destruct H as [<-|[]]. split; vm_compute; reflexivity.
Defined.

(** ** The last line that sets the gap *)

Lemma fold_left_gap_app a b st :
  fold_left gap_line (a ++ b) st = fold_left gap_line b (fold_left gap_line a st).
Proof. apply fold_left_app. Qed.

Lemma gap_fallback_computed st : isnan (gap st) = false -> gap_fallback st = st.
Proof. intros H. unfold gap_fallback. now rewrite H. Qed.

(** X3: the last line of the log that matches a gap pattern decides the
    result.  When no later line matches any of the five patterns, and the
    line does not match the "MIP optimal" or "Best branch" pattern as well,
    a line "MIP gap = g%" gives [g / 100] and a line
    "Best bound = b , Best integer = i" with numbers [b] and [i <> 0] gives
    [|i - b| / |i|], whatever the earlier lines set (the value computed, if
    a NaN, would leave the result to the end-of-scan estimate).  A line
    matches as [sscanf] takes it: after "MIP gap = 2.50%" the line
    "MIP gap = 1e+%" is the last match and the result is 0.01. *)
Theorem last_gap_line_wins :
  (forall (fp : cstring) (before after : list cstring) (line : cstring),
      read_lines 4096 fp = before ++ line :: after ->
      (forall l, In l after -> no_gap_pattern l) ->
      match_mip_optimal line = None -> match_best_branch line = None ->
      (forall g : float,
          match_mip_gap line = Some g -> isnan (PrimFloat.div g 100) = false ->
          parse_final_mip_gap (Some fp) = PrimFloat.div g 100)
      /\ (forall b i : float,
             match_best_bound line = Some (b, i) ->
             isnan b = false -> isnan i = false -> fneq i 0 = true ->
             isnan (PrimFloat.div (fabs (PrimFloat.sub i b)) (fabs i)) = false ->
             parse_final_mip_gap (Some fp)
             = PrimFloat.div (fabs (PrimFloat.sub i b)) (fabs i)))
  /\ parse_final_mip_gap (log_lines ["MIP gap = 2.50%"; "MIP gap = 1e+%"]%string)
     = 0.01%float
  /\ parse_final_mip_gap
       (log_lines ["MIP gap = 2.50%"; "Best bound = 1e , Best integer = 2e"]%string)
     = 0.5%float.
Proof.
  split; [|split; vm_compute; reflexivity].
  intros fp before after line E Q H3 H5. unfold parse_final_mip_gap.
  rewrite E, fold_left_app. cbn [fold_left]. rewrite (fold_gap_no_pattern _ _ Q).
  set (st := fold_left gap_line before gap_init).
  split.
  - intros g H N.
    assert (G : gap (gap_line st line) = PrimFloat.div g 100).
    { unfold gap_line, try_best_branch, try_new_best, try_mip_optimal, try_mip_gap.
      rewrite H, H3, H5. destruct (match_new_best line); reflexivity. }
    rewrite gap_fallback_computed; rewrite G; [reflexivity|exact N].
  - intros b i H Nb Ni Nz N.
    assert (G : gap (gap_line st line) = PrimFloat.div (fabs (PrimFloat.sub i b)) (fabs i)).
    { unfold gap_line, try_best_branch, try_new_best, try_mip_optimal, try_mip_gap.
      rewrite H3, H5. 
      assert (M : match_mip_gap line = None) by exact (best_bound_not_mip_gap _ _ H).
      rewrite M. unfold try_best_bound. rewrite H, Nb, Ni, Nz.
      destruct (match_new_best line); reflexivity. }
    rewrite gap_fallback_computed; rewrite G; [reflexivity|exact N].
Qed.

Lemma last_gap_line_witness :
  parse_final_mip_gap
    (log_lines ["Best bound = 100.0 , Best integer = 120.0"; "MIP gap = 2.50%";
                "Elapsed time = 3.1 sec."]%string)
  = PrimFloat.div 2.5 100.
Proof.
  refine (proj1 (proj1 last_gap_line_wins
                   (flat_map (fun s => lit s ++ [NL])
                      ["Best bound = 100.0 , Best integer = 120.0"; "MIP gap = 2.50%";
                       "Elapsed time = 3.1 sec."]%string)
                   [lit "Best bound = 100.0 , Best integer = 120.0" ++ [NL]]
                   [lit "Elapsed time = 3.1 sec." ++ [NL]]
                   (lit "MIP gap = 2.50%" ++ [NL]) _ _ _ _) 2.5%float _ _).
  - vm_compute. reflexivity.
  - intros l H. vm_compute in H. destruct H as [<-|[]].
    repeat split; vm_compute; reflexivity.
  - vm_compute. reflexivity.
  - vm_compute. reflexivity.
  - vm_compute. reflexivity.
  - vm_compute. reflexivity.
Defined.

(** ** The terminal table *)

Lemma parse_terminals_loop_spec fuel : forall fp cnt,
  (List.length (parse_terminals_loop fuel fp cnt) <= fuel)%nat
  /\ forall k t, nth_error (parse_terminals_loop fuel fp cnt) k = Some t ->
                 terminal_id t = cnt + Z.of_nat k /\ covered t = 1.
Proof.
  induction fuel as [|n IH]; intros fp cnt; cbn [parse_terminals_loop].
  - split; [simpl; lia|]. intros [|k] t; discriminate.
  - set (r := run_scanf (parse_format (lit "%lf %lf %lf")) fp []).
    assert (N : (List.length (@nil Terminal) <= S n)%nat
                /\ forall k t, nth_error (@nil Terminal) k = Some t ->
                               terminal_id t = cnt + Z.of_nat k /\ covered t = 1).
    { split; [simpl; lia|]. intros [|k] t; discriminate. }
    destruct (sr_ret r =? 3); [|exact N].
    destruct (sr_vals r) as [|[|x|] [|[|y|] [|[|b|] [|]]]]; try exact N.
    destruct (IH (sr_rest r) (cnt + 1)) as [L I]. split; [simpl; lia|].
    intros [|k] t; cbn [nth_error].
    + intros [= <-]. simpl. split; [lia|reflexivity].
    + intros H. destruct (I _ _ H) as [A B]. split; [lia|exact B].
Qed.

Lemma parse_terminals_loop_final fuel : forall fuel' fp cnt,
  (List.length (parse_terminals_loop fuel fp cnt) < fuel)%nat -> (fuel <= fuel')%nat ->
  parse_terminals_loop fuel' fp cnt = parse_terminals_loop fuel fp cnt.
Proof.
  induction fuel as [|k IH]; intros fuel' fp cnt L F; [cbn in L; lia|].
  destruct fuel' as [|k']; [lia|]. cbn [parse_terminals_loop] in *. cbv zeta in *.
  destruct (sr_ret _ =? 3); [|reflexivity].
  destruct (sr_vals _) as [|[| |] [|[| |] [|[| |] [|]]]]; try reflexivity.
  cbn [List.length] in L. f_equal. apply IH; lia.
Qed.

Lemma parse_terminals_loop_ws fuel ws fp cnt :
  forallb isspace ws = true ->
  parse_terminals_loop fuel (ws ++ fp) cnt = parse_terminals_loop fuel fp cnt.
Proof.
  intros W. destruct fuel as [|k]; [reflexivity|]. cbn [parse_terminals_loop].
  change (parse_format (lit "%lf %lf %lf"))
    with [D_double; D_ws; D_double; D_ws; D_double].
  rewrite !run_scanf_double.
  replace (skip_ws (ws ++ fp)) with (skip_ws fp); [reflexivity|].
  induction ws as [|c ws IH]; [reflexivity|]. cbn [forallb] in W.
  apply andb_true_iff in W. destruct W as [W1 W2]. cbn [app skip_ws]. rewrite W1. auto.
Qed.

(** X4: parse_terminals stores at most [max_terminals] terminals, numbers
    them 0, 1, ... in the order of the file and marks each one covered; it
    returns -1 when the file does not open.  A table shorter than
    [max_terminals] is final: the scan stopped because [fscanf] did not
    read three numbers, and a larger bound reads nothing more.  White
    space before the first number, line ends included, is passed over.
    For instance the file "0.1 0.2 50" / "0.3 oops 60" / "0.5 0.6 70"
    gives one terminal, and "0.1 0.2 50 0.3" / "0.4 60" / "0.5 0.6" gives
    two, the numbers being taken three at a time wherever the lines end.
    The numbers are the ones [%lf] reads: "1e 2e+ 3e-" / "4 5 6" gives the
    two terminals (1, 2, 3) and (4, 5, 6), and "1 2 nan(abc)" / "3 4 5"
    gives one terminal, the scan stopping at the parenthesis. *)
Theorem terminal_table_numbered :
  (forall (terminals_file : option cstring) (max_terminals : Z),
      count (parse_terminals terminals_file max_terminals) <= Z.max 0 max_terminals
      /\ forall (k : nat) (t : Terminal),
           nth_error (entries (parse_terminals terminals_file max_terminals)) k = Some t ->
           terminal_id t = Z.of_nat k /\ covered t = 1)
  /\ (forall (fp : cstring) (max_terminals larger : Z),
         count (parse_terminals (Some fp) max_terminals) < max_terminals ->
         max_terminals <= larger ->
         parse_terminals (Some fp) larger = parse_terminals (Some fp) max_terminals)
  /\ (forall (ws fp : cstring) (max_terminals : Z),
         forallb isspace ws = true ->
         parse_terminals (Some (ws ++ fp)) max_terminals
         = parse_terminals (Some fp) max_terminals)
  /\ count (parse_terminals None 50) = -1
  /\ parse_terminals (log_lines ["0.1 0.2 50"; "0.3 oops 60"; "0.5 0.6 70"]%string) 50
     = Some [mkTerminal 0.1 0.2 50 1 0]
  /\ parse_terminals (log_lines ["0.1 0.2 50 0.3"; "0.4 60"; "0.5 0.6"]%string) 50
     = Some [mkTerminal 0.1 0.2 50 1 0; mkTerminal 0.3 0.4 60 1 1]
  /\ parse_terminals (log_lines ["1e 2e+ 3e-"; "4 5 6"]%string) 50
     = Some [mkTerminal 1 2 3 1 0; mkTerminal 4 5 6 1 1]
  /\ map (fun t => (t_x t, t_y t, isnan (battery t)))
         (entries (parse_terminals (log_lines ["1 2 nan(abc)"; "3 4 5"]%string) 50))
     = [(1%float, 2%float, true)].
Proof.
  split; [|split; [|split; [|repeat split; vm_compute; reflexivity]]].
  - intros [fp|] max_terminals; cbn [parse_terminals count entries].
    + destruct (parse_terminals_loop_spec (Z.to_nat max_terminals) fp 0) as [L I].
      split; [lia|]. intros k t H. destruct (I _ _ H). split; [lia|assumption].
    + split; [lia|]. intros [|k] t; discriminate.
  - intros fp m larger C L. cbn [parse_terminals count] in *. f_equal.
    apply parse_terminals_loop_final; lia.
  - intros ws fp m W. cbn [parse_terminals]. f_equal.
    now apply parse_terminals_loop_ws.
Qed.

(** ** The two scans for selected ids *)

Lemma contains_cons c h n : contains h n = true -> contains (c :: h) n = true.
Proof.
  unfold contains. cbn [strstr]. destruct (prefix (lit n) (c :: h)); [reflexivity|].
  destruct (lit n); now destruct (strstr h _).
Qed.

Lemma strstr_cons c h n :
  strstr (c :: h) n = if prefix n (c :: h) then Some (c :: h) else strstr h n.
Proof. destruct n; reflexivity. Qed.

Lemma contains_skip_ws h a n :
  isspace a = false -> contains h (String a n) = true ->
  contains (skip_ws h) (String a n) = true.
Proof.
  intros Ha. induction h as [|c h IH]; [intros H; exact H|].
  cbn [skip_ws]. destruct (isspace c) eqn:Ec; [|auto].
  unfold contains in *. rewrite strstr_cons. cbn [lit list_ascii_of_string prefix] in *.
  destruct (Ascii.eqb_spec a c) as [->|N]; [congruence|]. cbn [andb]. exact IH.
Qed.

Lemma contains_after_blank h :
  contains h " % fs" = true -> contains h "% fs" = true.
Proof.
  induction h as [|c h IH]; [discriminate|].
  unfold contains at 1. rewrite strstr_cons.
  destruct (prefix (lit " % fs") (c :: h)) eqn:P.
  - intros _. apply contains_cons. unfold contains.
    destruct h as [|d h]; [cbn in P; now rewrite andb_false_r in P|].
    rewrite strstr_cons.
    replace (prefix (lit "% fs") (d :: h)) with true; [reflexivity|].
    cbn [lit list_ascii_of_string prefix] in *. apply andb_true_iff in P. now destruct P.
  - intros H. apply contains_cons, IH. exact H.
Qed.

(** A line the flag scan takes is a header line for the list scan, with the
    same id. *)
Lemma selected_marker_is_header line id :
  match_selected_marker line = Some id -> match_fs_header (skip_ws line) = Some id.
Proof.
  unfold match_selected_marker, match_fs_header.
  destruct (contains line " % fs") eqn:A; [|discriminate].
  destruct (contains line ":") eqn:B; [|discriminate]. cbn [andb].
  rewrite (contains_skip_ws line "%" " fs" eq_refl (contains_after_blank _ A)).
  rewrite (contains_skip_ws line ":" "" eq_refl B). cbn [andb].
  unfold sscanf_is, sscanf.
  change (parse_format (lit " %% fs%d:")) with (D_ws :: parse_format (lit "%% fs%d:")).
  cbn [run_scanf]. auto.
Qed.

Lemma selected_line_length m a line :
  List.length (selected_line m a line) = List.length a.
Proof.
  unfold selected_line. destruct (match_selected_marker line) as [id|]; [|reflexivity].
  destruct ((0 <=? id) && (id <? m)); [apply store_length|reflexivity].
Qed.

Lemma selected_fold_length m lines : forall a,
  List.length (fold_left (selected_line m) lines a) = List.length a.
Proof.
  induction lines as [|l lines IH]; intros a; simpl; [reflexivity|].
  now rewrite IH, selected_line_length.
Qed.

Lemma nth_store {A} (a : list A) i j v d :
  nth i (store a j v) d = if (i =? j)%nat && (j <? List.length a)%nat then v else nth i a d.
Proof.
  revert i j. induction a as [|x a IH]; intros i j.
  - simpl. rewrite andb_false_r. reflexivity.
  - destruct j as [|j], i as [|i]; cbn [store nth]; try reflexivity.
    rewrite IH. reflexivity.
Qed.

(** A flag is raised by a line that names its index and is never lowered. *)
Lemma selected_fold_flag m lines : forall a i,
  0 <= i < m -> Z.to_nat m = List.length a ->
  nth (Z.to_nat i) (fold_left (selected_line m) lines a) 0
  = if existsb (raises i) lines then 1 else nth (Z.to_nat i) a 0.
Proof.
  induction lines as [|l lines IH]; intros a i Hi Ha; cbn [fold_left existsb]; [reflexivity|].
  rewrite IH by (rewrite ?selected_line_length; assumption).
  destruct (existsb (raises i) lines); [now rewrite orb_true_r|]. rewrite orb_false_r.
  unfold selected_line, raises.
  destruct (match_selected_marker l) as [id|]; [|reflexivity].
  destruct ((0 <=? id) && (id <? m)) eqn:R.
  - apply andb_true_iff in R. destruct R as [R0 R1].
    apply Z.leb_le in R0. apply Z.ltb_lt in R1. rewrite nth_store.
    replace (Z.to_nat id <? List.length a)%nat with true
      by (symmetry; apply Nat.ltb_lt; lia).
    rewrite andb_true_r.
    destruct (Z.eqb_spec id i) as [->|N].
    + now rewrite Nat.eqb_refl.
    + destruct (Nat.eqb_spec (Z.to_nat i) (Z.to_nat id)); [lia|reflexivity].
  - destruct (Z.eqb_spec id i) as [->|N]; [|reflexivity].
    exfalso. apply andb_false_iff in R.
    destruct R as [R|R]; [apply Z.leb_gt in R|apply Z.ltb_ge in R]; lia.
Qed.

(** X5: parse_selected_fsts leaves [max_fsts] flags, each 0 or 1.  Flag
    [i] is 1 exactly when some line has the marker " % fs", has a colon and
    scans as " %% fs<i>:"; an id outside the array changes nothing, a line
    seen twice raises its flag once.  When the file does not open the
    function returns -1 and every flag is 0. *)
Theorem selected_flags_raised :
  (forall (fp : cstring) (max_fsts i : Z),
      0 <= i < max_fsts ->
      (nth (Z.to_nat i) (snd (parse_selected_fsts (Some fp) max_fsts)) 0 = 1
       <-> exists line, In line (read_lines 1024 fp) /\ match_selected_marker line = Some i)
      /\ (nth (Z.to_nat i) (snd (parse_selected_fsts (Some fp) max_fsts)) 0 = 1
          \/ nth (Z.to_nat i) (snd (parse_selected_fsts (Some fp) max_fsts)) 0 = 0))
  /\ (forall (solution_file : option cstring) (max_fsts : Z),
         List.length (snd (parse_selected_fsts solution_file max_fsts)) = Z.to_nat max_fsts)
  /\ (forall max_fsts : Z,
         parse_selected_fsts None max_fsts = (-1, repeat 0 (Z.to_nat max_fsts)))
  /\ parse_selected_fsts
       (log_lines ["BeginPlot"; " % fs3: 1 2"; " % fs9: 0 1"; " % fs0: 0 2"; " % fs3: 1 2";
                   "EndPlot"]%string) 5
     = (0, [1; 0; 0; 1; 0]).
Proof.
  split; [|split; [|split; [reflexivity|vm_compute; reflexivity]]].
  - intros fp max_fsts i Hi. cbn [parse_selected_fsts snd].
    rewrite selected_fold_flag by (rewrite ?repeat_length; auto).
    rewrite nth_repeat.
    destruct (existsb (raises i) (read_lines 1024 fp)) eqn:E.
    + split; [|now left]. split; [|reflexivity]. intros _.
      apply existsb_exists in E. destruct E as (line & I & R). exists line.
      split; [exact I|]. unfold raises in R.
      destruct (match_selected_marker line) as [id|]; [|discriminate].
      apply Z.eqb_eq in R. now subst.
    + split; [|now right]. split; [discriminate|]. intros (line & I & M). exfalso.
      assert (X : existsb (raises i) (read_lines 1024 fp) = true).
      { apply existsb_exists. exists line. split; [exact I|].
        unfold raises. rewrite M. apply Z.eqb_refl. }
      congruence.
  - intros [fp|] max_fsts; cbn [parse_selected_fsts snd].
    + now rewrite selected_fold_length, repeat_length.
    + apply repeat_length.
Qed.

Lemma selected_flags_witness :
  nth 3 (snd (parse_selected_fsts (log_lines ["BeginPlot"; " % fs3: 1 2"]%string) 5)) 0 = 1
  <-> exists line,
        In line (read_lines 1024 (lit "BeginPlot" ++ [NL] ++ lit " % fs3: 1 2" ++ [NL]))
        /\ match_selected_marker line = Some 3.
Proof.
  refine (proj1 (proj1 selected_flags_raised
                   (lit "BeginPlot" ++ [NL] ++ lit " % fs3: 1 2" ++ [NL]) 5 3 _)).
  lia.
Defined.

Lemma selected_ids_loop_spec lines : forall max_fsts acc,
  selected_ids_loop lines max_fsts acc
  = acc ++ firstn (Z.to_nat max_fsts - List.length acc) (header_ids lines).
Proof.
  induction lines as [|l lines IH]; intros max_fsts acc; cbn [selected_ids_loop].
  - unfold header_ids. simpl. now rewrite firstn_nil, app_nil_r.
  - destruct (Z.of_nat (List.length acc) <? max_fsts) eqn:C.
    2:{ apply Z.ltb_ge in C.
        replace (Z.to_nat max_fsts - List.length acc)%nat with O by lia.
        simpl. now rewrite app_nil_r. }
    apply Z.ltb_lt in C. unfold header_ids. cbn [flat_map]. fold (header_ids lines).
    destruct (match_fs_header (skip_ws l)) as [id|]; [|apply IH].
    rewrite IH, length_app, <- app_assoc. cbn [List.length app].
    replace (Z.to_nat max_fsts - List.length acc)%nat
      with (S (Z.to_nat max_fsts - (List.length acc + 1))) by lia.
    reflexivity.
Qed.

Lemma parse_selected_fst_ids_spec fp max_fsts :
  entries (parse_selected_fst_ids (Some fp) max_fsts)
  = firstn (Z.to_nat max_fsts) (header_ids (read_lines 1024 fp)).
Proof.
  cbn [parse_selected_fst_ids entries]. rewrite selected_ids_loop_spec.
  cbn [List.length app]. now rewrite Nat.sub_0_r.
Qed.

Lemma In_header_ids id lines :
  In id (header_ids lines)
  <-> exists line, In line lines /\ match_fs_header (skip_ws line) = Some id.
Proof.
  unfold header_ids. rewrite in_flat_map. split.
  - intros (line & I & H). exists line. split; [exact I|].
    destruct (match_fs_header (skip_ws line)) as [j|]; [|contradiction].
    destruct H as [->|[]]. reflexivity.
  - intros (line & I & H). exists line. split; [exact I|]. rewrite H. now left.
Qed.

(** X6: a flag raised by parse_selected_fsts belongs to an id that a header
    line of the log carries, and parse_selected_fst_ids returns the first
    [max_fsts] of these ids in the order of the file.  The flag scan wants a
    blank before the percent sign: the header "% fs2: 0 1 2" at the start of
    a line is listed by parse_selected_fst_ids and raises no flag. *)
Theorem flag_scan_within_list_scan :
  (forall (fp : cstring) (max_fsts i : Z),
      0 <= i < max_fsts ->
      nth (Z.to_nat i) (snd (parse_selected_fsts (Some fp) max_fsts)) 0 = 1 ->
      In i (header_ids (read_lines 1024 fp)))
  /\ (forall (fp : cstring) (max_fsts : Z),
         entries (parse_selected_fst_ids (Some fp) max_fsts)
         = firstn (Z.to_nat max_fsts) (header_ids (read_lines 1024 fp)))
  /\ parse_selected_fst_ids (log_lines ["% fs2: 0 1 2"]%string) 5 = Some [2]
  /\ parse_selected_fsts (log_lines ["% fs2: 0 1 2"]%string) 5 = (0, [0; 0; 0; 0; 0])
  /\ parse_selected_fsts (log_lines [" % fs2: 0 1 2"]%string) 5 = (0, [0; 0; 1; 0; 0]).
Proof.
  split; [|split; [exact parse_selected_fst_ids_spec|repeat split; vm_compute; reflexivity]].
  intros fp max_fsts i Hi. cbn [parse_selected_fsts snd].
  rewrite selected_fold_flag by (rewrite ?repeat_length; auto).
  rewrite nth_repeat.
  destruct (existsb (raises i) (read_lines 1024 fp)) eqn:E; [|discriminate].
  intros _. apply existsb_exists in E. destruct E as (line & I & R).
  apply In_header_ids. exists line. split; [exact I|]. unfold raises in R.
  destruct (match_selected_marker line) as [id|] eqn:M; [|discriminate].
  apply Z.eqb_eq in R. subst. now apply selected_marker_is_header.
Qed.

Lemma flag_scan_witness :
  In 2 (header_ids (read_lines 1024 (lit " % fs2: 0 1 2" ++ [NL]))).
Proof.
  refine (proj1 flag_scan_within_list_scan (lit " % fs2: 0 1 2" ++ [NL]) 5 2 _ _).
  - lia.
  - vm_compute. reflexivity.
Defined.

Lemma headers_listed id tids lines :
  In (id, tids) (headers lines) -> In id (header_ids lines).
Proof.
  unfold headers. rewrite in_flat_map. intros (line & I & H).
  apply In_header_ids. exists line. split; [exact I|]. unfold header_of in H.
  destruct (match_fs_header (skip_ws line)) as [j|]; [|contradiction].
  destruct (header_terminals (skip_ws line)); [|contradiction].
  destruct H as [[= -> _]|[]]. reflexivity.
Qed.

(** X7: on a log with at most 50 header lines, every tree that
    parse_fsts_from_solution returns, and the report draws, has its id in
    the list parse_selected_fst_ids returns for the same log.  The converse
    fails: the header "% fs3:" without terminals is listed and not drawn. *)
Theorem drawn_trees_are_listed :
  (forall (fp : cstring) (f : FST),
      (List.length (header_ids (read_lines 1024 fp)) <= 50)%nat ->
      In f (entries (parse_fsts_from_solution (Some fp) 50)) ->
      In (fst_id f) (entries (parse_selected_fst_ids (Some fp) 50)))
  /\ parse_selected_fst_ids (log_lines ["% fs3:"; "% fs4: 0 1"]%string) 50 = Some [3; 4]
  /\ map fst_key (entries (parse_fsts_from_solution
                             (log_lines ["% fs3:"; "% fs4: 0 1"]%string) 50))
     = [(4, [0; 1])].
Proof.
  split; [|split; vm_compute; reflexivity].
  intros fp f L H.
  rewrite parse_selected_fst_ids_spec, firstn_all2 by exact L.
  rewrite parse_fsts_from_solution_spec in H. apply In_firstn in H.
  apply (in_map fst_key) in H. rewrite trees_of_lines_keys in H.
  apply (headers_listed _ (terminal_ids f)). exact H.
Qed.

Lemma drawn_trees_witness :
  In 4 (entries (parse_selected_fst_ids
                   (Some (lit "% fs3:" ++ [NL] ++ lit "% fs4: 0 1" ++ [NL])) 50)).
Proof.
  refine (proj1 drawn_trees_are_listed (lit "% fs3:" ++ [NL] ++ lit "% fs4: 0 1" ++ [NL])
            (mkFST true [0; 1] 0 [] 0 4) _ _).
  - vm_compute. lia.
  - vm_compute. left. reflexivity.
Defined.

(** ** Counting the marked trees *)

Lemma count_if_le {A} (p : A -> bool) l : 0 <= count_if p l <= Z.of_nat (List.length l).
Proof.
  unfold count_if. pose proof (filter_length_le p l). lia.
Qed.

Lemma count_if_cons {A} (p : A -> bool) x l :
  count_if p (x :: l) = (if p x then 1 else 0) + count_if p l.
Proof. unfold count_if. cbn [filter]. destruct (p x); cbn [List.length]; lia. Qed.

Lemma count_if_or {A} (p q : A -> bool) l :
  count_if (fun x => p x || q x) l <= count_if p l + count_if q l.
Proof.
  induction l as [|x l IH]; [reflexivity|]. rewrite !count_if_cons.
  destruct (p x), (q x); cbn [orb]; lia.
Qed.

Lemma count_if_ext {A} (p q : A -> bool) l :
  (forall x, p x = q x) -> count_if p l = count_if q l.
Proof. intros H. unfold count_if. now rewrite (filter_ext _ _ H). Qed.

Lemma count_if_none {A} (p : A -> bool) l :
  (forall x, In x l -> p x = false) -> count_if p l = 0.
Proof.
  induction l as [|x l IH]; intros H; [reflexivity|]. rewrite count_if_cons.
  rewrite (H x (or_introl eq_refl)), IH; [reflexivity|]. intros; apply H; now right.
Qed.

(** A universe without repeated ids holds at most one tree of a given id. *)
Lemma count_if_id s (l : list FST) :
  NoDup (map fst_id l) -> count_if (fun f => fst_id f =? s) l <= 1.
Proof.
  induction l as [|x l IH]; intros N; [unfold count_if; cbn; lia|].
  rewrite count_if_cons. inversion N as [|? ? Hn N']; subst.
  destruct (Z.eqb_spec (fst_id x) s) as [E|E]; [|specialize (IH N'); lia].
  rewrite count_if_none; [lia|]. intros y Hy. apply Z.eqb_neq. intros E'.
  apply Hn. rewrite E, <- E'. now apply in_map.
Qed.

Lemma id_listed_cons id s rest :
  id_listed id (s :: rest) = (id =? s) || id_listed id rest.
Proof. simpl. now destruct (id =? s). Qed.

Lemma count_listed_le ids (l : list FST) :
  NoDup (map fst_id l) ->
  count_if (fun f => id_listed (fst_id f) ids) l <= Z.of_nat (List.length ids).
Proof.
  intros N. induction ids as [|s ids IH].
  - rewrite count_if_none; [cbn [List.length]; lia|]. reflexivity.
  - rewrite (count_if_ext _ (fun f => (fst_id f =? s) || id_listed (fst_id f) ids))
      by (intros; apply id_listed_cons).
    pose proof (count_if_or (fun f => fst_id f =? s)
                            (fun f => id_listed (fst_id f) ids) l).
    pose proof (count_if_id s l N). cbv beta in *. cbn [List.length]. lia.
Qed.

Lemma count_marked all ids :
  count_if selected (mark_selected all ids)
  = count_if (fun f => id_listed (fst_id f) ids) all.
Proof.
  unfold mark_selected. induction all as [|f all IH]; [reflexivity|].
  cbn [map]. rewrite !count_if_cons, IH. reflexivity.
Qed.

Lemma number_from_ids trees : forall k,
  map fst_id (number_from k trees) = map (fun i => k + Z.of_nat i) (seq 0 (List.length trees)).
Proof.
  induction trees as [|ts trees IH]; intros k; [reflexivity|].
  cbn [number_from map List.length seq]. rewrite IH, <- seq_shift, map_map.
  f_equal; [unfold dump_fst; cbn [fst_id]; lia|]. apply map_ext. intros; lia.
Qed.

Lemma number_from_length trees : forall k,
  List.length (number_from k trees) = List.length trees.
Proof. induction trees; intros; simpl; auto. Qed.

Lemma dump_entries dump_file max_fsts :
  NoDup (map fst_id (entries (parse_fsts_from_dump dump_file max_fsts)))
  /\ Z.of_nat (List.length (entries (parse_fsts_from_dump dump_file max_fsts)))
     <= Z.max 0 max_fsts.
Proof.
  destruct dump_file as [fp|]; [|split; [constructor|cbn; lia]].
  cbn [parse_fsts_from_dump entries]. rewrite dump_loop_spec.
  cbn [List.length app]. rewrite Nat.sub_0_r. split.
  - rewrite number_from_ids. apply Injective_map_NoDup; [|apply seq_NoDup].
    intros a b. lia.
  - rewrite number_from_length. pose proof (firstn_le_length (Z.to_nat max_fsts)
      (accepted_lines (read_lines 1024 fp))). rewrite length_firstn. lia.
Qed.

Lemma selected_ids_count solution_file max_fsts :
  Z.of_nat (List.length (entries (parse_selected_fst_ids solution_file max_fsts)))
  <= Z.max 0 max_fsts.
Proof.
  destruct solution_file as [fp|]; [|cbn; lia].
  rewrite parse_selected_fst_ids_spec, length_firstn. lia.
Qed.

Lemma count_number_from ids trees : forall k : nat,
  count_if (fun f => id_listed (fst_id f) ids) (number_from (Z.of_nat k) trees)
  = count_if (fun j => id_listed (Z.of_nat j) ids) (seq k (List.length trees)).
Proof.
  induction trees as [|ts trees IH]; intros k; [reflexivity|].
  cbn [number_from List.length seq]. rewrite !count_if_cons.
  replace (Z.of_nat k + 1) with (Z.of_nat (S k)) by lia. rewrite IH. reflexivity.
Qed.

(** X8: the number of selected trees in the report, counted over the dump
    trees after marking, is at most the number of listed ids (at most 50)
    and at most the number of dump trees (at most 100); it is the number of
    positions [k] of the dump table with [k] among the listed ids. *)
Theorem selected_count_bounded :
  forall (dump_file solution_file : option cstring),
    let all_fsts := entries (parse_fsts_from_dump dump_file 100) in
    let selected_fst_ids := entries (parse_selected_fst_ids solution_file 50) in
    let num_selected := count_if selected (mark_selected all_fsts selected_fst_ids) in
    0 <= num_selected
    /\ num_selected <= Z.of_nat (List.length selected_fst_ids) <= 50
    /\ num_selected <= Z.of_nat (List.length all_fsts) <= 100
    /\ num_selected
       = count_if (fun k => id_listed (Z.of_nat k) selected_fst_ids)
                  (seq 0 (List.length all_fsts)).
Proof.
  intros dump_file solution_file all_fsts ids num_selected.
  destruct (dump_entries dump_file 100) as [N L]. fold all_fsts in N, L.
  pose proof (selected_ids_count solution_file 50) as Ls. fold ids in Ls.
  subst num_selected. rewrite count_marked.
  pose proof (count_if_le (fun f => id_listed (fst_id f) ids) all_fsts).
  pose proof (count_listed_le ids all_fsts N).
  repeat split; try lia.
  subst all_fsts. destruct dump_file as [fp|]; [|reflexivity].
  cbn [parse_fsts_from_dump entries]. rewrite dump_loop_spec.
  cbn [List.length app]. rewrite number_from_length.
  apply (count_number_from ids _ 0%nat).
Qed.

(** ** The report *)

Lemma update_coverage_nth terminals coverage : forall i0 k,
  nth_error (update_coverage i0 terminals coverage) k
  = option_map (fun t => mkTerminal (t_x t) (t_y t) (battery t)
                           (nth (Z.to_nat (i0 + Z.of_nat k)) coverage 0)
                           (i0 + Z.of_nat k))
               (nth_error terminals k).
Proof.
  induction terminals as [|t ts IH]; intros i0 [|k]; cbn [update_coverage nth_error option_map];
    try reflexivity.
  - now rewrite Z.add_0_r.
  - rewrite IH. destruct (nth_error ts k); [|reflexivity]. cbn [option_map].
    do 2 f_equal; [do 2 f_equal|]; lia.
Qed.

Lemma update_coverage_length terminals coverage : forall i0,
  List.length (update_coverage i0 terminals coverage) = List.length terminals.
Proof. induction terminals; intros; simpl; auto. Qed.

Lemma draw_terminals_nth terminals : forall i0 k,
  nth_error (draw_terminals i0 terminals) k
  = option_map (draw_terminal (i0 + Z.of_nat k)) (nth_error terminals k).
Proof.
  induction terminals as [|t ts IH]; intros i0 [|k]; cbn [draw_terminals nth_error option_map];
    try reflexivity.
  - now rewrite Z.add_0_r.
  - rewrite IH. destruct (nth_error ts k); [|reflexivity]. cbn [option_map].
    do 2 f_equal. lia.
Qed.

Lemma draw_terminals_length terminals : forall i0,
  List.length (draw_terminals i0 terminals) = List.length terminals.
Proof. induction terminals; intros; simpl; auto. Qed.

(** The flag the coverage scan leaves for an index of the table. *)
Lemma coverage_flag solution_file i :
  0 <= i < 50 ->
  nth (Z.to_nat i) (snd (parse_solution_coverage solution_file 50)) 0
  = if covered_in_log solution_file i then 1 else 0.
Proof.
  intros Hi. destruct solution_file as [fp|]; cbn [parse_solution_coverage snd covered_in_log].
  - apply nth_error_nth. unfold final_not_covered. rewrite nth_error_map.
    rewrite (nth_error_nth' _ 0%float)
      by (rewrite coverage_fold_length, repeat_length; lia).
    cbn [option_map]. f_equal.
    rewrite coverage_fold_last by (rewrite ?repeat_length; auto; lia).
    destruct (last_assigned i (assignments (read_lines 1024 fp))); [reflexivity|].
    rewrite nth_repeat. reflexivity.
  - apply nth_repeat_lt. lia.
Qed.

Lemma draw_fst_lines terminals f ls :
  draw_fst terminals f = Some ls -> filter is_terminal_circle ls = [].
Proof.
  unfold draw_fst. destruct (0 <? num_steiner_points f).
  - destruct (nth_error (steiner_points f) 0) as [sp|]; [|discriminate].
    destruct (scale_coordinates (sp_x sp) (sp_y sp)) as [sx sy].
    rewrite draw_spokes_spec. intros [= <-]. rewrite filter_app. cbn [filter is_terminal_circle].
    rewrite app_nil_r. induction (filter (in_table terminals) (terminal_ids f)) as [|i l IH];
      [reflexivity|].
    cbn [map filter]. unfold spoke at 1.
    destruct (scale_terminal (table_entry terminals i)). exact IH.
  - rewrite draw_path_spec. intros [= <-].
    induction (filter (both_in_table terminals) (consecutive (terminal_ids f))) as [|i l IH];
      [reflexivity|].
    cbn [map filter]. unfold edge at 1.
    destruct (scale_terminal (table_entry terminals (fst i))).
    destruct (scale_terminal (table_entry terminals (snd i))). exact IH.
Qed.

Lemma draw_selected_fsts_lines terminals fsts : forall ls,
  draw_selected_fsts terminals fsts = Some ls -> filter is_terminal_circle ls = [].
Proof.
  induction fsts as [|f fsts IH]; intros ls; cbn [draw_selected_fsts].
  - intros [= <-]. reflexivity.
  - destruct (draw_fst terminals f) as [a|] eqn:A; [|discriminate].
    destruct (draw_selected_fsts terminals fsts) as [b|]; [|discriminate].
    intros [= <-]. rewrite filter_app, (draw_fst_lines _ _ _ A), (IH b eq_refl). reflexivity.
Qed.

Lemma terminals_count terminals_file :
  count (parse_terminals terminals_file 50) <= 50.
Proof.
  destruct terminals_file as [fp|]; cbn [parse_terminals count]; [|lia].
  destruct (parse_terminals_loop_spec (Z.to_nat 50) fp 0) as [L _]. lia.
Qed.

(** X9: when create_rich_visualization writes a report for an FST file
    whose dump name fits its buffer, the drawing is the edges of the
    selected trees followed by one circle for each parsed terminal, in the
    order of the file: circle [k] has the scaled position and the battery
    colour of terminal [k] and the coverage the log gives index [k].  No
    circle is drawn among the edges.  Terminals and coverage are the ones
    the scans read: with three terminals and the log line
    "... not_covered[2] = 1e" the circles 0 and 1 are covered and circle 2
    is not, and the terminal file "1 2 nan(abc)" / "3 4 5" gives one
    circle. *)
Theorem terminals_drawn_once :
  (forall (w : env) (terminals_file fsts_file solution_file html_file : string)
          (err : list string) (r : report),
      dump_path_fits fsts_file ->
      create_rich_visualization w terminals_file fsts_file solution_file html_file
      = (err, Some r) ->
      let parsed := entries (parse_terminals (fopen_r w terminals_file) 50) in
      exists edges circles : list svg,
        rp_svg r = edges ++ circles
        /\ filter is_terminal_circle edges = []
        /\ List.length circles = List.length parsed
        /\ forall (k : nat) (t : Terminal),
             nth_error parsed k = Some t ->
             nth_error circles k
             = Some (circle_of (fopen_r w solution_file) (Z.of_nat k) t))
  /\ option_map (fun r => circle_flags (rp_svg r))
       (snd (create_rich_visualization
               (report_env ["0.1 0.2 50"; "0.3 0.4 60"; "0.5 0.6 70"]%string
                           ["  % DEBUG LP_VARS: not_covered[2] = 1e"]%string)
               "terminals.txt" "fsts.txt" "solution.txt" "out.html"))
     = Some [(0, true); (1, true); (2, false)]
  /\ option_map (fun r => circle_flags (rp_svg r))
       (snd (create_rich_visualization
               (report_env ["1 2 nan(abc)"; "3 4 5"]%string [])
               "terminals.txt" "fsts.txt" "solution.txt" "out.html"))
     = Some [(0, true)].
Proof.
  split; [|split; vm_compute; reflexivity].
  intros w tf ff sf hf err r _ H parsed. unfold create_rich_visualization in H.
  fold parsed in H.
  destruct (count (parse_terminals (fopen_r w tf) 50) <=? 0); [discriminate|].
  destruct (negb (fopen_w w hf)); [discriminate|].
  set (terminals := update_coverage 0 parsed
                      (snd (parse_solution_coverage (fopen_r w sf) 50))) in *.
  destruct (draw_selected_fsts terminals (entries (parse_fsts_from_solution (fopen_r w sf) 50)))
    as [edges|] eqn:D; [|discriminate].
  injection H as _ <-. cbn [rp_svg].
  exists edges, (draw_terminals 0 terminals). split; [reflexivity|].
  split; [exact (draw_selected_fsts_lines _ _ _ D)|].
  split; [unfold terminals; now rewrite draw_terminals_length, update_coverage_length|].
  intros k t Hk.
  assert (Lk : Z.of_nat k < 50).
  { pose proof (terminals_count (fopen_r w tf)) as C.
    assert (k < List.length parsed)%nat by (apply nth_error_Some; congruence).
    unfold parsed in H. destruct (parse_terminals (fopen_r w tf) 50); cbn in *; lia. }
  rewrite draw_terminals_nth. unfold terminals. rewrite update_coverage_nth, Hk.
  cbn [option_map]. rewrite !Z.add_0_l, coverage_flag by lia.
  unfold draw_terminal, circle_of, scale_terminal. cbn [t_x t_y battery covered].
  destruct (scale_coordinates (t_x t) (t_y t)). f_equal. f_equal.
  destruct (covered_in_log (fopen_r w sf) (Z.of_nat k)); reflexivity.
Qed.

Lemma terminals_drawn_witness :
  exists edges circles : list svg,
    rp_svg (mkReport [TerminalCircle 120 450 "#f39c12" true 0 50] 0 (-1) 1 1 (-1) [])
    = edges ++ circles
    /\ filter is_terminal_circle edges = []
    /\ List.length circles
       = List.length (entries (parse_terminals (log_lines ["0.1 0.2 50"]%string) 50))
    /\ forall (k : nat) (t : Terminal),
         nth_error (entries (parse_terminals (log_lines ["0.1 0.2 50"]%string) 50)) k
         = Some t ->
         nth_error circles k = Some (circle_of None (Z.of_nat k) t).
Proof.
  refine (proj1 terminals_drawn_once (viz_env ["0.1 0.2 50"]%string true)
            "terminals.txt"%string "fsts.txt"%string "solution.txt"%string
            "out.html"%string [] _ _ _).
  - unfold dump_path_fits. vm_compute. lia.
  - vm_compute. reflexivity.
Defined.




(** ** Values assigned by a scan *)

Lemma run_scanf_length ds : forall inp vals,
  (List.length (sr_vals (run_scanf ds inp vals))
   <= List.length vals + List.length (filter converts ds))%nat.
Proof.
  induction ds as [|d ds IH]; intros inp vals; [cbn; lia|].
  assert (B : (List.length vals
               <= List.length vals + List.length (filter converts (d :: ds)))%nat) by lia.
  destruct d; cbn [run_scanf]; cbn [filter converts] in *.
  - apply IH.
  - destruct inp as [|a inp']; [exact B|]. destruct (Ascii.eqb a c); [apply IH|exact B].
  - destruct (skip_ws inp) as [|a inp']; [exact B|].
    destruct (Ascii.eqb a "%"); [apply IH|exact B].
  - destruct (skip_ws inp) as [|a inp']; [exact B|].
    destruct (scan_int (a :: inp')) as [[z r]|]; [|exact B].
    specialize (IH r (vals ++ [V_int z])). rewrite length_app in IH.
    cbn [List.length] in *. lia.
  - destruct (skip_ws inp) as [|a inp']; [exact B|].
    destruct (scan_double (a :: inp')) as [[z r]|]; [|exact B].
    specialize (IH r (vals ++ [V_double z])). rewrite length_app in IH.
    cbn [List.length] in *. lia.
  - destruct (skip_ws inp) as [|a inp']; [exact B|]. apply IH.
  - destruct inp as [|a inp']; [exact B|].
    specialize (IH inp' (vals ++ [V_char a])). rewrite length_app in IH.
    cbn [List.length] in *. lia.
  - exact B.
Qed.

Lemma run_scanf_ints ds : forall inp vals,
  forallb (fun d => match d with D_int | D_ws => true | _ => false end) ds = true ->
  forallb is_int vals = true ->
  forallb is_int (sr_vals (run_scanf ds inp vals)) = true.
Proof.
  induction ds as [|d ds IH]; intros inp vals Hd Hv; [exact Hv|].
  destruct d; try discriminate; cbn [run_scanf forallb andb] in *.
  - now apply IH.
  - destruct (skip_ws inp) as [|a inp']; [exact Hv|].
    destruct (scan_int (a :: inp')) as [[z r]|]; [|exact Hv].
    apply IH; [exact Hd|]. rewrite forallb_app, Hv. reflexivity.
Qed.

Lemma run_scanf_ret ds : forall inp vals,
  sr_ret (run_scanf ds inp vals)
  = Z.of_nat (List.length (sr_vals (run_scanf ds inp vals)))
  \/ sr_ret (run_scanf ds inp vals) = EOF.
Proof.
  induction ds as [|d ds IH]; intros inp vals; [now left|].
  assert (B : forall rest,
             sr_ret (matching_failure vals rest)
             = Z.of_nat (List.length (sr_vals (matching_failure vals rest)))
             \/ sr_ret (matching_failure vals rest) = EOF) by (now left).
  assert (I : sr_ret (input_failure vals)
              = Z.of_nat (List.length (sr_vals (input_failure vals)))
              \/ sr_ret (input_failure vals) = EOF)
    by (destruct vals; [now right|now left]).
  destruct d; cbn [run_scanf].
  - apply IH.
  - destruct inp as [|a inp']; [exact I|]. destruct (Ascii.eqb a c); [apply IH|apply B].
  - destruct (skip_ws inp) as [|a inp']; [exact I|].
    destruct (Ascii.eqb a "%"); [apply IH|apply B].
  - destruct (skip_ws inp) as [|a inp']; [exact I|].
    destruct (scan_int (a :: inp')) as [[z r]|]; [apply IH|apply B].
  - destruct (skip_ws inp) as [|a inp']; [exact I|].
    destruct (scan_double (a :: inp')) as [[z r]|]; [apply IH|apply B].
  - destruct (skip_ws inp) as [|a inp']; [exact I|]. apply IH.
  - destruct inp as [|a inp']; [exact I|]. apply IH.
  - apply B.
Qed.

Lemma ints_of_length vals :
  forallb is_int vals = true -> List.length (ints_of vals) = List.length vals.
Proof.
  induction vals as [|[z|f|c] vals IH]; cbn; try discriminate; auto.
Qed.

(** The count [sscanf] returns for a header is the length of the list kept,
    between 1 and 10. *)
Lemma header_terminals_count trimmed tids :
  header_terminals trimmed = Some tids -> (1 <= List.length tids <= 10)%nat.
Proof.
  unfold header_terminals. destruct (strchr trimmed ":") as [colon|]; [|discriminate].
  cbv zeta. unfold sscanf.
  set (ds := parse_format (lit "%d %d %d %d %d %d %d %d %d %d")).
  pose proof (run_scanf_length ds (skip_ws (tl colon)) []) as L.
  pose proof (run_scanf_ints ds (skip_ws (tl colon)) [] eq_refl eq_refl) as I.
  pose proof (run_scanf_ret ds (skip_ws (tl colon)) []) as R.
  change (List.length (filter converts ds)) with 10%nat in L. cbn [List.length] in L.
  set (r := run_scanf ds (skip_ws (tl colon)) []) in *. clearbody r.
  destruct (0 <? sr_ret r) eqn:P; [|discriminate].
  apply Z.ltb_lt in P. intros [= <-].
  rewrite ints_of_length by exact I.
  destruct R as [R|R]; [|unfold EOF in R]; lia.
Qed.

(** ** The trees of the solver log *)

Lemma set_steiner_tree f x y : solution_tree f -> solution_tree (set_steiner f x y).
Proof.
  unfold solution_tree, set_steiner, num_terminals.
  intros (A & B & C & D & E).
  destruct (Z.eqb_spec (num_steiner_points f) 0); cbn; repeat split; auto; lia.
Qed.

Lemma lookahead_lines_tree lines : forall f,
  solution_tree f -> solution_tree (lookahead_lines f lines).
Proof.
  induction lines as [|l lines IH]; intros f H; cbn [lookahead_lines]; [assumption|].
  destruct (match_steiner_line (skip_ws l)) as [[x y]|].
  - apply IH. now apply set_steiner_tree.
  - destruct (contains (skip_ws l) "% fs" || contains (skip_ws l) "EndPlot"); auto.
Qed.

Lemma trees_of_lines_tree lines : Forall solution_tree (trees_of_lines lines).
Proof.
  induction lines as [|l lines IH]; cbn [trees_of_lines]; [constructor|].
  destruct (header_of l) as [[id tids]|] eqn:H; [|exact IH].
  constructor; [|exact IH]. apply lookahead_lines_tree.
  unfold header_of in H. destruct (match_fs_header (skip_ws l)); [|discriminate].
  destruct (header_terminals (skip_ws l)) as [t|] eqn:T; [|discriminate].
  injection H as _ ->. apply header_terminals_count in T.
  unfold solution_tree, num_terminals. cbn. repeat split; auto; lia.
Qed.

(** X11: parse_fsts_from_solution returns at most [max_fsts] trees, each
    marked selected, with cost 0, with 1 to 10 terminal ids and with no
    junction or one: the ids of a header after the tenth are dropped, and
    the list of ids ends at the first token that is no number.  Ids are not
    checked against the terminal table here: "-4" is kept. *)
Theorem solution_trees_fit_arrays :
  (forall (solution_file : option cstring) (max_fsts : Z),
      count (parse_fsts_from_solution solution_file max_fsts) <= Z.max 0 max_fsts
      /\ Forall solution_tree (entries (parse_fsts_from_solution solution_file max_fsts)))
  /\ map terminal_ids
       (entries (parse_fsts_from_solution
                   (log_lines ["% fs7: 0 1 2 3 4 5 6 7 8 9 10 11"; "% fs8: -4 x"]%string) 50))
     = [[0; 1; 2; 3; 4; 5; 6; 7; 8; 9]; [-4]].
Proof.
  split; [|vm_compute; reflexivity].
  intros [fp|] max_fsts; [|split; [cbn; lia|constructor]].
  pose proof (parse_fsts_from_solution_spec fp max_fsts) as E.
  split.
  - assert (C : count (parse_fsts_from_solution (Some fp) max_fsts)
                = Z.of_nat (List.length (entries (parse_fsts_from_solution (Some fp) max_fsts))))
      by reflexivity.
    rewrite C, E, length_firstn. lia.
  - rewrite E. apply Forall_firstn, trees_of_lines_tree.
Qed.

(** ** Lines and buffers *)

Lemma c_str_no_nul s : existsb (Ascii.eqb NUL) s = false -> c_str s = s.
Proof.
  induction s as [|c s IH]; [reflexivity|]. cbn [existsb c_str].
  intros H. apply orb_false_iff in H. destruct H as [H1 H2].
  rewrite Ascii.eqb_sym, H1. f_equal. now apply IH.
Qed.

Lemma fgets_buf_line room s rest :
  (List.length s < room)%nat -> existsb (Ascii.eqb NL) s = false ->
  fgets_buf room (s ++ NL :: rest) = (s ++ [NL], rest).
Proof.
  revert room. induction s as [|c s IH]; intros room L H.
  - destruct room; [cbn in L; lia|]. reflexivity.
  - destruct room; [cbn in L; lia|]. cbn [existsb] in H.
    apply orb_false_iff in H. destruct H as [H1 H2].
    cbn [app fgets_buf]. rewrite Ascii.eqb_sym, H1.
    rewrite IH by (cbn in L; auto; lia). reflexivity.
Qed.

Lemma fgets_line size s rest :
  fits_buffer size s -> fgets size (s ++ NL :: rest) = Some (s ++ [NL], rest).
Proof.
  intros (L & N & Z). unfold fgets.
  destruct (s ++ NL :: rest) eqn:E; [now destruct s|]. rewrite <- E.
  rewrite fgets_buf_line by (auto; lia). rewrite c_str_no_nul; [reflexivity|].
  rewrite existsb_app, Z. reflexivity.
Qed.

Lemma fgets_buf_full room s rest :
  List.length s = room -> existsb (Ascii.eqb NL) s = false ->
  fgets_buf room (s ++ rest) = (s, rest).
Proof.
  revert room. induction s as [|c s IH]; intros room L H.
  - cbn in L. subst. reflexivity.
  - destruct room; [discriminate|]. cbn [existsb] in H.
    apply orb_false_iff in H. destruct H as [H1 H2].
    cbn [app fgets_buf]. rewrite Ascii.eqb_sym, H1.
    rewrite IH by (cbn in L; auto; lia). reflexivity.
Qed.

(** X12: the [fgets] loops see a file line by line as long as each line,
    with its newline, fits the buffer: lines of at most [size - 2]
    characters come out whole.  A longer line is cut after [size - 1]
    characters and its rest is read as the next line, so a header behind
    1020 blanks is missed by parse_selected_fst_ids (a buffer of 1024 bytes)
    while the same header behind 1010 blanks is found. *)
Theorem lines_through_buffer :
  (forall (size : nat) (ls : list cstring),
      Forall (fits_buffer size) ls ->
      read_lines size (flat_map (fun s => s ++ [NL]) ls) = map (fun s => s ++ [NL]) ls)
  /\ (forall (size : nat) (s rest : cstring),
         (2 <= size)%nat -> List.length s = (size - 1)%nat ->
         existsb (Ascii.eqb NL) s = false -> existsb (Ascii.eqb NUL) s = false ->
         read_lines size (s ++ rest) = s :: read_lines size rest)
  /\ parse_selected_fst_ids
       (Some (repeat " "%char 1020 ++ lit "% fs2: 0 1" ++ [NL])) 50 = Some []
  /\ parse_selected_fst_ids
       (Some (repeat " "%char 1010 ++ lit "% fs2: 0 1" ++ [NL])) 50 = Some [2].
Proof.
  split; [|split; [|split; vm_compute; reflexivity]].
  - intros size ls H. induction H as [|s ls Hs _ IH]; [reflexivity|].
    cbn [flat_map map]. rewrite <- app_assoc. cbn [app].
    assert (2 <= size)%nat by (destruct Hs; lia).
    rewrite read_lines_step by assumption.
    rewrite (fgets_line size s _ Hs). now rewrite IH.
  - intros size s rest Hs L N Z. rewrite read_lines_step by assumption.
    unfold fgets. destruct (s ++ rest) eqn:E.
    + destruct s; [cbn in L; lia|discriminate].
    + rewrite <- E. rewrite fgets_buf_full by auto. now rewrite c_str_no_nul.
Qed.

Lemma lines_through_buffer_witness :
  read_lines 1024 (flat_map (fun s => s ++ [NL]) [lit "BeginPlot"; lit " % fs1: 0 1"])
  = map (fun s => s ++ [NL]) [lit "BeginPlot"; lit " % fs1: 0 1"].
Proof.
  refine (proj1 lines_through_buffer 1024%nat [lit "BeginPlot"; lit " % fs1: 0 1"] _).
  repeat constructor; cbn; lia.
Defined.

(** ** Strings *)

Lemma string_length_app (a b : string) :
  String.length (a ++ b) = (String.length a + String.length b)%nat.
Proof. induction a as [|c a IH]; simpl; auto. Qed.

Lemma substring_length n : forall s, (String.length (substring 0 n s) <= n)%nat.
Proof.
  induction n as [|n IH]; intros [|c s]; simpl; try lia. specialize (IH s). lia.
Qed.

Lemma substring_all n : forall s, (String.length s <= n)%nat -> substring 0 n s = s.
Proof.
  induction n as [|n IH]; intros [|c s]; simpl; intros H; try reflexivity; try lia.
  f_equal. apply IH. lia.
Qed.

Lemma text_of_length l : String.length (text_of l) = List.length l.
Proof. unfold text_of. induction l; simpl; auto. Qed.

Lemma lit_app (a b : string) : lit (a ++ b) = (lit a ++ lit b)%list.
Proof. unfold lit. induction a as [|c a IH]; simpl; [reflexivity|]. now rewrite IH. Qed.

Lemma text_of_app a b : text_of (a ++ b) = (text_of a ++ text_of b)%string.
Proof. unfold text_of. induction a as [|c a IH]; simpl; [reflexivity|]. now rewrite IH. Qed.

Lemma text_of_lit s : text_of (lit s) = s.
Proof. apply string_of_list_ascii_of_string. Qed.

(** ** The exit status of a command *)

Lemma WEXITSTATUS_byte status : Process.WEXITSTATUS status = (status / 256) mod 256.
Proof.
  unfold Process.WEXITSTATUS. rewrite Z.shiftr_land.
  change (Z.shiftr 65280 8) with (Z.ones 8).
  rewrite Z.land_ones, Z.shiftr_div_pow2 by lia. reflexivity.
Qed.

(** X13: run_command returns -1 when [system] fails, after a message with
    the text of [errno], and bits 8 to 15 of the wait status otherwise, a
    value from 0 to 255, whatever the way the command ended.  A wait
    status below 256 (the shell was killed by a signal, as in 139) reads
    as 0, and generate_fsts goes on as after a success; when [system]
    fails generate_fsts reports the exit code -1 and ends the process with
    status 1. *)
Theorem crash_reads_as_success :
  (forall (w : os) (command errno_text : string),
      os_system w command = inl errno_text ->
      Process.run_command w command
      = ([Executed command;
          Stderr ("Error: Failed to execute command: " ++ errno_text)], -1))
  /\ (forall (w : os) (command : string) (status : Z),
         os_system w command = inr status ->
         Process.run_command w command = ([Executed command], (status / 256) mod 256)
         /\ 0 <= snd (Process.run_command w command) <= 255)
  /\ (forall (w : os) (terminals_file fsts_file : string) (status : Z),
         os_system w (Process.efst_command terminals_file fsts_file) = inr status ->
         0 <= status < 256 ->
         Process.generate_fsts w terminals_file fsts_file
         = ([Executed (Process.efst_command terminals_file fsts_file)], Returns))
  /\ (forall (w : os) (terminals_file fsts_file errno_text : string),
         os_system w (Process.efst_command terminals_file fsts_file) = inl errno_text ->
         Process.generate_fsts w terminals_file fsts_file
         = ([Executed (Process.efst_command terminals_file fsts_file);
             Stderr ("Error: Failed to execute command: " ++ errno_text);
             Stderr "Error: FST generation failed (exit code -1)"], Exits 1)).
Proof.
  split; [|split; [|split]].
  - intros w command e H. unfold Process.run_command. now rewrite H.
  - intros w command status H. unfold Process.run_command. rewrite H.
    rewrite WEXITSTATUS_byte. split; [reflexivity|]. cbn [snd].
    pose proof (Z.mod_pos_bound (status / 256) 256). lia.
  - intros w tf ff status H R. unfold Process.generate_fsts, Process.run_command.
    rewrite H, WEXITSTATUS_byte. rewrite Z.div_small by lia. reflexivity.
  - intros w tf ff e H. unfold Process.generate_fsts, Process.run_command.
    rewrite H. reflexivity.
Qed.

Lemma crash_reads_as_success_witness :
  Process.generate_fsts
    (mkOs (fun _ => None) (fun _ => true) (fun _ => true) (fun _ => inr 139)
          (fun _ => Some true) (fun _ => None) 0 (fun _ _ => 0))
    "out/terminals.txt" "out/fsts.txt"
  = ([Executed (Process.efst_command "out/terminals.txt" "out/fsts.txt")], Returns).
Proof.
  refine (proj1 (proj2 (proj2 crash_reads_as_success)) _ _ _ 139 _ _).
  - reflexivity.
  - lia.
Defined.

(** ** Options *)













(** ** The stages of the simulation *)

Lemma commands_app a b : commands (a ++ b) = (commands a ++ commands b)%list.
Proof. unfold commands. apply flat_map_app. Qed.

Lemma commands_stderr err : commands (map Stderr err) = [].
Proof. unfold commands. induction err; simpl; auto. Qed.

Lemma run_command_commands w c : commands (fst (Process.run_command w c)) = [c].
Proof. unfold Process.run_command. destruct (os_system w c); reflexivity. Qed.

Lemma create_directory_cases w d :
  (directory_ready w d /\ snd (Process.create_directory w d) = Returns
   \/ ~ directory_ready w d /\ snd (Process.create_directory w d) = Exits 1)
  /\ commands (fst (Process.create_directory w d)) = [].
Proof.
  unfold Process.create_directory, directory_ready.
  destruct (os_stat w d) as [[|]|].
  - split; [left|reflexivity]. auto.
  - split; [right|reflexivity]. split; [|reflexivity]. intros [H|[H _]]; discriminate.
  - destruct (os_mkdir w d).
    + split; [right|reflexivity]. split; [|reflexivity]. intros [H|[_ H]]; discriminate.
    + split; [left|reflexivity]. auto.
Qed.

Lemma generate_terminals_cases w rand n d :
  (os_create w (snprintf 512 (d ++ "/terminals.txt")) = true
   /\ snd (Process.generate_terminals w rand n d) = Returns
   \/ os_create w (snprintf 512 (d ++ "/terminals.txt")) = false
      /\ snd (Process.generate_terminals w rand n d) = Exits 1)
  /\ commands (fst (Process.generate_terminals w rand n d)) = [].
Proof.
  unfold Process.generate_terminals.
  destruct (os_create w _); cbn [fst snd]; auto.
Qed.

Lemma generate_fsts_cases w t f :
  (snd (Process.run_command w (Process.efst_command t f)) = 0
   /\ snd (Process.generate_fsts w t f) = Returns
   \/ snd (Process.run_command w (Process.efst_command t f)) <> 0
      /\ snd (Process.generate_fsts w t f) = Exits 1)
  /\ commands (fst (Process.generate_fsts w t f)) = [Process.efst_command t f].
Proof.
  unfold Process.generate_fsts.
  pose proof (run_command_commands w (Process.efst_command t f)) as C.
  destruct (Process.run_command w _) as [done result]. cbn [fst snd] in *.
  destruct (Z.eqb_spec result 0); cbn [fst snd]; rewrite ?commands_app, C; auto.
Qed.

Lemma generate_fst_dump_cases w f d :
  (snd (Process.run_command w (Process.dumpfst_command f d)) = 0
   /\ snd (Process.generate_fst_dump w f d) = Returns
   \/ snd (Process.run_command w (Process.dumpfst_command f d)) <> 0
      /\ snd (Process.generate_fst_dump w f d) = Exits 1)
  /\ commands (fst (Process.generate_fst_dump w f d)) = [Process.dumpfst_command f d].
Proof.
  unfold Process.generate_fst_dump.
  pose proof (run_command_commands w (Process.dumpfst_command f d)) as C.
  destruct (Process.run_command w _) as [done result]. cbn [fst snd] in *.
  destruct (Z.eqb_spec result 0); cbn [fst snd]; rewrite ?commands_app, C; auto.
Qed.

Lemma solve_smt_returns w f s b :
  snd (Process.solve_smt w f s b) = Returns
  /\ commands (fst (Process.solve_smt w f s b)) = [Process.bb_command f s b].
Proof.
  unfold Process.solve_smt. pose proof (run_command_commands w (Process.bb_command f s b)) as C.
  destruct (Process.run_command w _) as [done result]. cbn [fst] in C.
  destruct (negb (result =? 0) && negb (result =? 124)); cbn [fst snd];
    rewrite ?commands_app, C; auto.
Qed.

Lemma report_stage_returns w t f s h :
  snd (Process.report_stage w t f s h) = Returns
  /\ commands (fst (Process.report_stage w t f s h)) = [].
Proof.
  unfold Process.report_stage.
  destruct (create_rich_visualization _ t f s h) as [err page]. cbn [fst snd].
  rewrite commands_app, commands_stderr. now destruct page.
Qed.

(** X16: a full simulation with positive -n and -b either returns, having
    run the three commands efst, dumpfst and bb in this order and no other
    (then the directory was there or could be made, the terminals file
    could be created, and efst and dumpfst returned 0; what bb returns
    does not matter), or exits with status 1 at the first stage that
    fails: before any command when the directory or the terminals file
    cannot be made, after efst when it fails, after efst and dumpfst when
    dumpfst fails. *)
Theorem simulation_stops_at_first_failure :
  forall (w : os) (o : Process.options),
    0 < Process.n_terminals o -> 0 < Process.budget o ->
    let d := Process.output_dir o in
    let terminals_file := snprintf 512 (d ++ "/terminals.txt") in
    let fsts_file := snprintf 512 (d ++ "/fsts.txt") in
    let fsts_dump_file := snprintf 512 (d ++ "/fsts_dump.txt") in
    let solution_file := snprintf 512 (d ++ "/solution.txt") in
    let efst := Process.efst_command terminals_file fsts_file in
    let dumpfst := Process.dumpfst_command fsts_file fsts_dump_file in
    let bb := Process.bb_command fsts_file solution_file (Process.budget o) in
    let run := Process.simulation w o in
    (snd run = Returns
     /\ commands (fst run) = [efst; dumpfst; bb]
     /\ directory_ready w d /\ os_create w terminals_file = true
     /\ snd (Process.run_command w efst) = 0 /\ snd (Process.run_command w dumpfst) = 0)
    \/ (snd run = Exits 1
        /\ (commands (fst run) = []
            /\ (~ directory_ready w d \/ os_create w terminals_file = false)
            \/ commands (fst run) = [efst] /\ snd (Process.run_command w efst) <> 0
            \/ commands (fst run) = [efst; dumpfst]
               /\ snd (Process.run_command w dumpfst) <> 0)).
Proof.
  intros w o Hn Hb d terminals_file fsts_file fsts_dump_file solution_file efst dumpfst bb run.
  subst run. unfold Process.simulation.
  destruct (Z.leb_spec (Process.n_terminals o) 0) as [L|_]; [lia|].
  destruct (Z.leb_spec (Process.budget o) 0) as [L|_]; [lia|].
  cbv zeta. fold d. fold terminals_file fsts_file fsts_dump_file solution_file.
  set (rand := os_rand w _).
  set (html_file := snprintf 512 (d ++ "/visualization.html")).
  destruct (create_directory_cases w d) as [D1 C1].
  destruct (generate_terminals_cases w rand (Process.n_terminals o) d) as [D2 C2].
  fold terminals_file in D2.
  destruct (generate_fsts_cases w terminals_file fsts_file) as [D3 C3]. fold efst in D3, C3.
  destruct (generate_fst_dump_cases w fsts_file fsts_dump_file) as [D4 C4].
  fold dumpfst in D4, C4.
  destruct (solve_smt_returns w fsts_file solution_file (Process.budget o)) as [D5 C5].
  fold bb in C5.
  destruct (report_stage_returns w terminals_file fsts_file solution_file html_file)
    as [D6 C6].
  destruct (Process.create_directory w d) as [e1 r1].
  destruct (Process.generate_terminals w rand (Process.n_terminals o) d) as [e2 r2].
  destruct (Process.generate_fsts w terminals_file fsts_file) as [e3 r3].
  destruct (Process.generate_fst_dump w fsts_file fsts_dump_file) as [e4 r4].
  destruct (Process.solve_smt w fsts_file solution_file (Process.budget o)) as [e5 r5].
  destruct (Process.report_stage w terminals_file fsts_file solution_file html_file)
    as [e6 r6].
  cbn [fst snd] in *. subst r5 r6.
  destruct D1 as [[R1 ->]|[R1 ->]]; cbn [and_then fst snd].
  2:{ right. split; [reflexivity|]. left. auto. }
  destruct D2 as [[R2 ->]|[R2 ->]]; cbn [and_then fst snd].
  2:{ right. split; [reflexivity|]. left. rewrite commands_app, C1, C2. auto. }
  destruct D3 as [[R3 ->]|[R3 ->]]; cbn [and_then fst snd].
  2:{ right. split; [reflexivity|]. right. left.
      rewrite !commands_app, C1, C2, C3. auto. }
  destruct D4 as [[R4 ->]|[R4 ->]]; cbn [and_then fst snd].
  2:{ right. split; [reflexivity|]. right. right.
      rewrite !commands_app, C1, C2, C3, C4. auto. }
  left. rewrite !commands_app, C1, C2, C3, C4, C5, C6. repeat split; auto.
Qed.

Lemma simulation_stops_witness :
  snd (Process.simulation
         (mkOs (fun _ => None) (fun _ => true) (fun _ => true) (fun _ => inr 0)
               (fun _ => Some true) (fun _ => None) 0 (fun _ _ => 0))
         (Process.mkOptions 10 1500000 0 "out" false "" "" "" "")) = Returns
  \/ snd (Process.simulation
            (mkOs (fun _ => None) (fun _ => true) (fun _ => true) (fun _ => inr 0)
                  (fun _ => Some true) (fun _ => None) 0 (fun _ _ => 0))
            (Process.mkOptions 10 1500000 0 "out" false "" "" "" "")) = Exits 1.
Proof.
  destruct (simulation_stops_at_first_failure
              (mkOs (fun _ => None) (fun _ => true) (fun _ => true) (fun _ => inr 0)
                    (fun _ => Some true) (fun _ => None) 0 (fun _ _ => 0))
              (Process.mkOptions 10 1500000 0 "out" false "" "" "" ""))
    as [[H _]|[H _]].
  - cbn. lia.
  - cbn. lia.
  - left. exact H.
  - right. exact H.
Defined.

(** ** Buffers of the simulation *)

Lemma to_int_range z : INT_MIN <= to_int z <= INT_MAX.
Proof.
  unfold to_int, INT_MIN, INT_MAX.
  pose proof (Z.mod_pos_bound (z + 2 ^ 31) (2 ^ 32) ltac:(lia)). lia.
Qed.

Lemma atoi_range s : INT_MIN <= atoi s <= INT_MAX.
Proof.
  unfold atoi, scan_int. destruct (scan_sign (skip_ws s)) as [neg s1].
  destruct (span_digits s1) as [ds rest].
  destruct ds; [unfold INT_MIN, INT_MAX; lia|]. apply to_int_range.
Qed.

Lemma digits_rev_length fuel : forall n, (List.length (digits_rev fuel n) <= fuel)%nat.
Proof.
  induction fuel as [|k IH]; intros n; cbn [digits_rev List.length]; [lia|].
  destruct (n / 10 =? 0); [cbn; lia|]. specialize (IH (n / 10)). lia.
Qed.

Lemma print_int_length z :
  INT_MIN <= z <= INT_MAX -> (List.length (print_int z) <= 33)%nat.
Proof.
  unfold INT_MIN, INT_MAX. intros H.
  assert (B : forall n, 0 <= n <= 2 ^ 31 -> (List.length (print_uint n) <= 32)%nat).
  { intros n Hn. unfold print_uint. rewrite length_rev.
    pose proof (digits_rev_length (S (Z.to_nat (Z.log2 n))) n).
    assert (Z.log2 n <= 31).
    { change 31 with (Z.log2 (2 ^ 31)). apply Z.log2_le_mono. lia. }
    pose proof (Z.log2_nonneg n). lia. }
  unfold print_int. destruct (Z.ltb_spec z 0).
  - cbn [List.length]. specialize (B (- z) ltac:(lia)). lia.
  - specialize (B z ltac:(lia)). lia.
Qed.

Lemma set_option_fit o opt optarg o' :
  options_fit o -> Process.set_option o opt optarg = inl o' -> options_fit o'.
Proof.
  unfold options_fit, Process.set_option. destruct o as [n b s d v t f r out].
  cbn [Process.output_dir Process.n_terminals Process.budget Process.seed
       Process.viz_terminals Process.viz_fsts Process.viz_solution Process.viz_output].
  intros (Hd & Hn & Hb & Hs & Ht & Hf & Hr & Hw).
  pose proof (atoi_range (lit optarg)) as A.
  pose proof (substring_length 255 optarg) as S1.
  pose proof (substring_length 511 optarg) as S2.
  repeat match goal with
         | |- context [if ?c then _ else _] => destruct c
         end; intros [= <-]; cbn; unfold strncpy; auto 10.
Qed.

Lemma read_options_fit args : forall o o',
  options_fit o -> Process.read_options args o = inl o' -> options_fit o'.
Proof.
  induction args as [|[opt optarg] args IH]; intros o o' F; cbn [Process.read_options].
  - now intros [= <-].
  - destruct (Process.set_option o opt optarg) as [o1|] eqn:E; [|discriminate].
    apply IH. eapply set_option_fit; eassumption.
Qed.

Lemma defaults_fit : options_fit Process.defaults.
Proof. unfold options_fit, INT_MIN, INT_MAX. cbn. lia. Qed.

Lemma snprintf_fits size text :
  (String.length text < size)%nat -> snprintf size text = text.
Proof. intros H. unfold snprintf. apply substring_all. lia. Qed.

Ltac string_lengths :=
  repeat rewrite string_length_app in *; rewrite ?text_of_length in *;
  cbn [String.length dquote] in *.

(** X17: the buffers of a simulation cut no name.  After the option loop
    the output directory has at most 255 characters (a longer argument of
    -o is cut to its first 255), so the five file names are written whole
    to their buffers of 512 bytes and the three command lines to their
    buffers of 1024 bytes. *)
Theorem simulation_buffers_suffice :
  (forall (args : list (ascii * string)) (o : Process.options),
      Process.read_options args Process.defaults = inl o ->
      let d := Process.output_dir o in
      (String.length d <= 255)%nat
      /\ snprintf 512 (d ++ "/terminals.txt") = (d ++ "/terminals.txt")%string
      /\ snprintf 512 (d ++ "/fsts.txt") = (d ++ "/fsts.txt")%string
      /\ snprintf 512 (d ++ "/fsts_dump.txt") = (d ++ "/fsts_dump.txt")%string
      /\ snprintf 512 (d ++ "/solution.txt") = (d ++ "/solution.txt")%string
      /\ snprintf 512 (d ++ "/visualization.html") = (d ++ "/visualization.html")%string
      /\ Process.efst_command (d ++ "/terminals.txt") (d ++ "/fsts.txt")
         = ("./efst < " ++ dquote ++ (d ++ "/terminals.txt") ++ dquote
            ++ " > " ++ dquote ++ (d ++ "/fsts.txt") ++ dquote ++ " 2>/dev/null")%string
      /\ Process.dumpfst_command (d ++ "/fsts.txt") (d ++ "/fsts_dump.txt")
         = ("./dumpfst < " ++ dquote ++ (d ++ "/fsts.txt") ++ dquote
            ++ " > " ++ dquote ++ (d ++ "/fsts_dump.txt") ++ dquote ++ " 2>/dev/null")%string
      /\ Process.bb_command (d ++ "/fsts.txt") (d ++ "/solution.txt") (Process.budget o)
         = ("GEOSTEINER_BUDGET=" ++ text_of (print_int (Process.budget o))
            ++ " timeout 300s ./bb < " ++ dquote ++ (d ++ "/fsts.txt") ++ dquote
            ++ " > " ++ dquote ++ (d ++ "/solution.txt") ++ dquote ++ " 2>&1")%string)
  /\ (forall optarg : string,
         Process.read_options [("o"%char, optarg)] Process.defaults
         = inl (Process.mkOptions 0 0 0 (substring 0 255 optarg) false "" "" "" "")).
Proof.
  split; [|reflexivity].
  intros args o H d.
  destruct (read_options_fit args _ _ defaults_fit H) as (Hd & _ & Hb & _). fold d in Hd.
  pose proof (print_int_length _ Hb) as P.
  split; [exact Hd|].
  unfold Process.efst_command, Process.dumpfst_command, Process.bb_command.
  rewrite (snprintf_fits 64) by (string_lengths; lia).
  repeat split; apply snprintf_fits; string_lengths; lia.
Qed.

Lemma simulation_buffers_witness :
  (String.length (Process.output_dir (Process.mkOptions 10 1500000 0 "out" false "" "" "" ""))
   <= 255)%nat.
Proof.
  refine (proj1 (proj1 simulation_buffers_suffice
                   [("n"%char, "10"%string); ("b"%char, "1500000"%string);
                    ("o"%char, "out"%string)] _ _)).
  reflexivity.
Defined.

(** ** The name of the dump file *)

Lemma string_app_assoc (a b c : string) : ((a ++ b) ++ c = a ++ (b ++ c))%string.
Proof. induction a as [|x a IH]; simpl; [reflexivity|]. now rewrite IH. Qed.

Lemma dir_prefix_slash d name :
  existsb (Ascii.eqb "/") name = false ->
  dir_prefix (d ++ "/"%char :: name) = (d ++ ["/"%char])%list.
Proof.
  intros H. induction d as [|c d IH]; cbn [app dir_prefix].
  - now rewrite H.
  - rewrite existsb_app. cbn [existsb]. rewrite Ascii.eqb_refl, orb_true_r.
    now rewrite IH.
Qed.

Lemma dir_prefix_none name :
  existsb (Ascii.eqb "/") name = false -> dir_prefix name = [].
Proof.
  destruct name as [|c name]; [reflexivity|]. cbn [existsb dir_prefix].
  intros H. apply orb_false_iff in H. destruct H as [H1 H2].
  rewrite H2. rewrite Ascii.eqb_sym, H1. reflexivity.
Qed.

(** X18: create_rich_visualization looks for the dump in the directory of
    the FST file: "fsts_dump.txt" beside [d/name], and in the working
    directory for a name without a slash.  In a simulation this is the file
    that generate_fst_dump was told to write. *)
Theorem dump_is_read_where_written :
  (forall d name : string,
      existsb (Ascii.eqb "/") (lit name) = false ->
      (String.length d + 14 < 512)%nat ->
      fsts_dump_path (d ++ "/" ++ name) = (d ++ "/fsts_dump.txt")%string)
  /\ (forall name : string,
         existsb (Ascii.eqb "/") (lit name) = false ->
         fsts_dump_path name = "fsts_dump.txt"%string)
  /\ (forall (args : list (ascii * string)) (o : Process.options),
         Process.read_options args Process.defaults = inl o ->
         fsts_dump_path (snprintf 512 (Process.output_dir o ++ "/fsts.txt"))
         = snprintf 512 (Process.output_dir o ++ "/fsts_dump.txt")).
Proof.
  assert (G : forall d name : string,
             existsb (Ascii.eqb "/") (lit name) = false ->
             fsts_dump_path (d ++ "/" ++ name) = (d ++ "/fsts_dump.txt")%string).
  { intros d name H. unfold fsts_dump_path. rewrite !lit_app.
    change (lit "/") with ["/"%char]. cbn [app].
    rewrite (dir_prefix_slash _ _ H). fold (text_of (lit d ++ ["/"%char])).
    rewrite text_of_app, text_of_lit. cbn [text_of string_of_list_ascii].
    rewrite string_app_assoc. reflexivity. }
  split; [intros; now apply G|]. split.
  - intros name H. unfold fsts_dump_path. now rewrite (dir_prefix_none _ H).
  - intros args o H.
    destruct (read_options_fit args _ _ defaults_fit H) as (Hd & _).
    rewrite !snprintf_fits by (string_lengths; lia).
    apply (G _ "fsts.txt"%string). reflexivity.
Qed.

Lemma dump_is_read_witness :
  fsts_dump_path ("simulation_output" ++ "/" ++ "fsts.txt") = "simulation_output/fsts_dump.txt"%string.
Proof.
  refine (proj1 dump_is_read_where_written "simulation_output"%string "fsts.txt"%string _ _).
  - reflexivity.
  - cbn. lia.
Defined.

(** ** More on binary64 rounding *)

(** The order of valid non-negative doubles is the order of their values. *)
Lemma SFcompare_sval a b :
  valid_binary a = true -> valid_binary b = true ->
  nonneg_SF a -> nonneg_SF b ->
  SFcompare a b = Some (sval a ?= sval b).
Proof.
  intros Va Vb Na Nb. K_value.
  destruct a as [sa|sa| |sa ma ea]; try contradiction;
    destruct b as [sb|sb| |sb mb eb]; try contradiction.
  - reflexivity.
  - destruct sb; [contradiction|]. cbn [SFcompare sval]. simpl in Nb. f_equal. symmetry.
    apply Z.compare_lt_iff. assert (0 < 2 ^ (eb + K)) by pow2_pos. nia.
  - destruct sa; [contradiction|]. cbn [SFcompare sval]. simpl in Na. f_equal. symmetry.
    apply Z.compare_gt_iff. assert (0 < 2 ^ (ea + K)) by pow2_pos. nia.
  - destruct sa; [contradiction|]. destruct sb; [contradiction|].
    simpl in Na, Nb.
    destruct (valid_finite _ _ _ Va) as [Ca _]. destruct (valid_finite _ _ _ Vb) as [Cb _].
    destruct (Z.log2_spec (Z.pos ma) ltac:(lia)) as [La Ua].
    destruct (Z.log2_spec (Z.pos mb) ltac:(lia)) as [Lb Ub].
    assert (Pa : 0 < 2 ^ (ea + K)) by pow2_pos.
    assert (Pb : 0 < 2 ^ (eb + K)) by pow2_pos.
    cbn [SFcompare sval]. f_equal.
    destruct (Z.compare_spec ea eb) as [E|E|E].
    + subst eb. rewrite Pos.compare_cont_spec. cbn [Pos.switch_Eq].
      symmetry. rewrite Pos2Z.inj_compare.
      destruct (Z.compare_spec (Z.pos ma) (Z.pos mb)) as [F|F|F].
      * rewrite F. apply Z.compare_refl.
      * apply Z.compare_lt_iff. nia.
      * apply Z.compare_gt_iff. nia.
    + symmetry. apply Z.compare_lt_iff.
      assert (Hb : Z.log2 (Z.pos mb) = 52) by lia.
      rewrite Hb in Lb.
      assert (U : Z.pos ma < 2 ^ 53).
      { eapply Z.lt_le_trans; [exact Ua|]. apply Z.pow_le_mono_r; lia. }
      assert (S1 : Z.pos ma * 2 ^ (ea + K) < 2 ^ 53 * 2 ^ (ea + K)) by nia.
      assert (S2 : 2 ^ 52 * 2 ^ (eb + K) <= Z.pos mb * 2 ^ (eb + K)) by nia.
      assert (S3 : 2 ^ 53 * 2 ^ (ea + K) <= 2 ^ 52 * 2 ^ (eb + K)).
      { rewrite <- !Z.pow_add_r by lia. apply Z.pow_le_mono_r; lia. }
      lia.
    + symmetry. apply Z.compare_gt_iff.
      assert (Ha : Z.log2 (Z.pos ma) = 52) by lia.
      rewrite Ha in La.
      assert (U : Z.pos mb < 2 ^ 53).
      { eapply Z.lt_le_trans; [exact Ub|]. apply Z.pow_le_mono_r; lia. }
      assert (S1 : Z.pos mb * 2 ^ (eb + K) < 2 ^ 53 * 2 ^ (eb + K)) by nia.
      assert (S2 : 2 ^ 52 * 2 ^ (ea + K) <= Z.pos ma * 2 ^ (ea + K)) by nia.
      assert (S3 : 2 ^ 53 * 2 ^ (eb + K) <= 2 ^ 52 * 2 ^ (ea + K)).
      { rewrite <- !Z.pow_add_r by lia. apply Z.pow_le_mono_r; lia. }
      lia.
Qed.

Lemma SFleb_iff a b :
  valid_binary a = true -> valid_binary b = true -> nonneg_SF a -> nonneg_SF b ->
  SFleb a b = (sval a <=? sval b).
Proof.
  intros Va Vb Na Nb. unfold SFleb. rewrite (SFcompare_sval a b Va Vb Na Nb).
  unfold Z.leb. destruct (sval a ?= sval b); reflexivity.
Qed.

Lemma SFltb_iff a b :
  valid_binary a = true -> valid_binary b = true -> nonneg_SF a -> nonneg_SF b ->
  SFltb a b = (sval a <? sval b).
Proof.
  intros Va Vb Na Nb. unfold SFltb. rewrite (SFcompare_sval a b Va Vb Na Nb).
  unfold Z.ltb. destruct (sval a ?= sval b); reflexivity.
Qed.

(** The result of [binary_round_aux] on an exact mantissa is a double. *)
Lemma bra_valid m e :
  - K <= e ->
  0 <= fexp prec emax (Z.pos (digits2_pos m) + e) - e ->
  Z.pos m * 2 ^ (e + K) < 2 ^ (K + 900) ->
  valid_binary (binary_round_aux prec emax false (Z.pos m) e loc_Exact) = true.
Proof.
  intros He Hn Hv. K_value.
  unfold binary_round_aux, shr_fexp. cbn [shr_record_of_loc Zdigits2].
  set (d := Z.pos (digits2_pos m)) in *.
  set (n := fexp prec emax (d + e) - e) in *.
  assert (Hd : d = Z.log2 (Z.pos m) + 1) by apply digits2_log2.
  assert (En : n = Z.max (d + e - 53) (-1074) - e) by reflexivity.
  destruct (shr_exact (Z.pos m) e n ltac:(lia) Hn) as [R1 R2].
  destruct (shr (Build_shr_record (Z.pos m) false false) e n) as [mrs' e'] eqn:S1.
  cbn [fst snd] in R1, R2. rewrite R1. subst e'.
  set (m1 := rne (Z.pos m) n) in *.
  destruct (Z.log2_spec (Z.pos m) ltac:(lia)) as [Lm Um].
  assert (P : 0 < 2 ^ n) by pow2_pos.
  assert (Q : Z.pos m / 2 ^ n < 2 ^ 53).
  { apply Z.div_lt_upper_bound; [lia|]. rewrite <- Z.pow_add_r by lia.
    eapply Z.lt_le_trans; [exact Um|]. apply Z.pow_le_mono_r; lia. }
  pose proof (rne_bounds (Z.pos m) n) as B. fold m1 in B.
  pose proof (Z.div_pos (Z.pos m) (2 ^ n) ltac:(lia) P) as Q0.
  assert (Pk : 0 < 2 ^ (e + K)) by pow2_pos.
  assert (Hde : d + e <= 900).
  { assert (Lv : Z.log2 (Z.pos m * 2 ^ (e + K)) = Z.log2 (Z.pos m) + (e + K))
      by (rewrite Z.log2_mul_pow2 by lia; lia).
    assert (Z.log2 (Z.pos m * 2 ^ (e + K)) < K + 900)
      by (apply Z.log2_lt_pow2; [lia|exact Hv]).
    lia. }
  (* a lower bound for the rounded mantissa when it was shifted *)
  assert (Low : 0 < n -> -1074 < e + n -> 2 ^ 52 <= m1).
  { intros Hn0 Hsub.
    assert (E1 : n = d - 53) by lia.
    assert (2 ^ (52 + n) <= Z.pos m).
    { replace (52 + n) with (Z.log2 (Z.pos m)) by lia. exact Lm. }
    assert (2 ^ 52 <= Z.pos m / 2 ^ n).
    { apply Z.div_le_lower_bound; [lia|]. rewrite Z.mul_comm, <- Z.pow_add_r by lia.
      assumption. }
    lia. }
  assert (Low0 : n = 0 -> -1074 < e -> 2 ^ 52 <= m1).
  { intros Hn0 Hsub. unfold m1. rewrite Hn0, rne_0.
    assert (Z.log2 (Z.pos m) = 52) by lia.
    replace 52 with (Z.log2 (Z.pos m)) by assumption. exact Lm. }
  unfold shr. rewrite fexp_eq.
  destruct m1 as [|p1|p1] eqn:Em1; [| |lia].
  - cbn [Zdigits2].
    destruct (Z.max (0 + (e + n) - 53) (-1074) - (e + n)) eqn:N2; try lia;
      cbn [fst shr_m]; reflexivity.
  - destruct (Z.eq_dec (Z.pos p1) (2 ^ 53)) as [Top|NTop].
    + cbn [Zdigits2]. rewrite digits2_log2, Top.
      replace (Z.log2 (2 ^ 53)) with 53 by reflexivity.
      replace (Z.max (53 + 1 + (e + n) - 53) (-1074) - (e + n)) with 1 by lia.
      cbn [iter_pos snd fst].
      rewrite shr_1_nonneg by lia. cbn [shr_m].
      replace (2 ^ 53 / 2) with (Z.pos (2 ^ 52)) by reflexivity.
      replace (e + n + 1 <=? emax - prec) with true
        by (symmetry; apply Z.leb_le; unfold emax, prec; lia).
      unfold valid_binary, bounded, canonical_mantissa.
      rewrite fexp_eq, digits2_log2. apply andb_true_iff. split.
      * apply Z.eqb_eq. replace (Z.log2 (Z.pos (2 ^ 52))) with 52 by reflexivity. lia.
      * apply Z.leb_le. unfold emax, prec. lia.
    + assert (Z.pos p1 < 2 ^ 53) by lia.
      assert (Z.log2 (Z.pos p1) < 53) by (apply Z.log2_lt_pow2; lia).
      pose proof (Z.log2_nonneg (Z.pos p1)).
      assert (L52 : -1074 < e + n -> Z.log2 (Z.pos p1) = 52).
      { intros Hs. assert (2 ^ 52 <= Z.pos p1).
        { destruct (Z.eq_dec n 0); [apply Low0; lia|apply Low; lia]. }
        assert (52 <= Z.log2 (Z.pos p1)) by (apply Z.log2_le_pow2; lia). lia. }
      cbn [Zdigits2]. rewrite digits2_log2.
      destruct (Z.max (Z.log2 (Z.pos p1) + 1 + (e + n) - 53) (-1074) - (e + n)) eqn:N2;
        try lia; cbn [fst snd shr_m];
        (replace (e + n <=? emax - prec) with true
           by (symmetry; apply Z.leb_le; unfold emax, prec; lia));
        unfold valid_binary, bounded, canonical_mantissa;
        rewrite fexp_eq, digits2_log2; apply andb_true_iff; (split;
          [apply Z.eqb_eq; destruct (Z.eq_dec (e + n) (-1074)); [lia|rewrite L52 by lia; lia]
          |apply Z.leb_le; unfold emax, prec; lia]).
Qed.

(** ** Division *)

Lemma shifted_loc q l :
  0 <= q -> shifted (4 * q + loc_bits l) 2 = shr_record_of_loc q l.
Proof.
  intros H. unfold shifted. change (2 ^ 2) with 4. change (2 ^ (2 - 1)) with 2.
  assert (B : 0 <= loc_bits l < 4) by (destruct l as [|[| |]]; cbn; lia).
  replace ((4 * q + loc_bits l) / 4) with q
    by (apply Z.div_unique with (loc_bits l); lia).
  destruct l as [|[| |]]; cbn [loc_bits shr_record_of_loc].
  - replace ((4 * q + 0) / 2) with (2 * q) by (apply Z.div_unique with 0; lia).
    replace ((4 * q + 0) mod 2) with 0 by (apply Z.mod_unique with (2 * q); lia).
    rewrite Z.odd_mul. reflexivity.
  - replace ((4 * q + 2) / 2) with (2 * q + 1)
      by (apply Z.div_unique with 0; lia).
    replace ((4 * q + 2) mod 2) with 0
      by (apply Z.mod_unique with (2 * q + 1); lia).
    replace (2 * q + 1) with (1 + 2 * q) by lia. rewrite Z.odd_add_mul_2. reflexivity.
  - replace ((4 * q + 1) / 2) with (2 * q) by (apply Z.div_unique with 1; lia).
    replace ((4 * q + 1) mod 2) with 1 by (apply Z.mod_unique with (2 * q); lia).
    rewrite Z.odd_mul. reflexivity.
  - replace ((4 * q + 3) / 2) with (2 * q + 1)
      by (apply Z.div_unique with 1; lia).
    replace ((4 * q + 3) mod 2) with 1
      by (apply Z.mod_unique with (2 * q + 1); lia).
    replace (2 * q + 1) with (1 + 2 * q) by lia. rewrite Z.odd_add_mul_2. reflexivity.
Qed.

(** A mantissa with its location rounds as the mantissa extended by the two
    bits of the location. *)
Lemma bra_loc s (q : positive) e l :
  0 <= fexp prec emax (Z.pos (digits2_pos q) + e) - e ->
  binary_round_aux prec emax s (Z.pos q) e l
  = binary_round_aux prec emax s (4 * Z.pos q + loc_bits l) (e - 2) loc_Exact.
Proof.
  intros Hn.
  assert (B : 0 <= loc_bits l < 4) by (destruct l as [|[| |]]; cbn; lia).
  destruct (4 * Z.pos q + loc_bits l) as [|v|v] eqn:V; try lia.
  assert (S1 : shr_fexp prec emax (Z.pos q) e l
               = shr_fexp prec emax (Z.pos v) (e - 2) loc_Exact).
  { unfold shr_fexp. cbn [Zdigits2 shr_record_of_loc].
    rewrite !fexp_eq in *. rewrite !digits2_log2 in *.
    assert (L : Z.log2 (Z.pos v) = Z.log2 (Z.pos q) + 2).
    { rewrite <- V. apply Z.log2_unique; [pose proof (Z.log2_nonneg (Z.pos q)); lia|].
      destruct (Z.log2_spec (Z.pos q) ltac:(lia)) as [Lq Uq].
      pose proof (Z.log2_nonneg (Z.pos q)) as Nq.
      replace (Z.succ (Z.log2 (Z.pos q) + 2)) with (Z.succ (Z.log2 (Z.pos q)) + 2) by lia.
      rewrite !Z.pow_add_r by lia. change (2 ^ 2) with 4. lia. }
    rewrite L.
    set (n := Z.max (Z.log2 (Z.pos q) + 1 + e - 53) (-1074) - e) in *.
    replace (Z.max (Z.log2 (Z.pos q) + 2 + 1 + (e - 2) - 53) (-1074) - (e - 2))
      with (n + 2) by (unfold n; lia).
    rewrite <- shifted_loc by lia. rewrite V.
    destruct n as [|p|p] eqn:En; [| |lia].
    - cbn [shr Z.add]. rewrite iter_init by lia. f_equal. lia.
    - cbn [shr]. change (Z.pos p + 2) with (Z.pos (p + 2)). cbn [shr].
      rewrite iter_shifted, iter_init by lia. f_equal; [f_equal|]; lia. }
  unfold binary_round_aux. rewrite S1. reflexivity.
Qed.

Lemma new_location_bits m r :
  0 <= loc_bits (new_location m r) <= 3 /\ (loc_bits (new_location m r) = 0 <-> r = 0).
Proof.
  unfold new_location, new_location_even, new_location_odd.
  destruct (Z.even m); destruct (Z.eqb_spec r 0) as [E|E]; cbn [loc_bits].
  - split; [lia|]. tauto.
  - destruct (2 * r ?= m); cbn [loc_bits]; split; try lia; split; intros; lia.
  - split; [lia|]. tauto.
  - destruct (2 * r + 1 ?= m); cbn [loc_bits]; split; try lia; split; intros; lia.
Qed.

(** The quotient of two positive numbers [m1 * 2 ^ e1] and [m2 * 2 ^ e2]
    whose ratio is in the normal range: it is a double, not negative, and
    lies on the side of every multiple [B] of the divisor that the dividend
    lies on. *)
Lemma SFdiv_bounds (m1 m2 : positive) (e1 e2 : Z) :
  let d1 := Z.log2 (Z.pos m1) + 1 in
  let d2 := Z.log2 (Z.pos m2) + 1 in
  let a := S754_finite false m1 e1 in
  let b := S754_finite false m2 e2 in
  -1000 <= d1 + e1 - (d2 + e2) <= 50 -> d1 <= d2 + 52 ->
  - K <= e1 -> - K <= e2 ->
  valid_binary (SFdiv prec emax a b) = true
  /\ nonneg_SF (SFdiv prec emax a b)
  /\ (forall B, 0 < B -> rnd (B * 2 ^ K) = B * 2 ^ K ->
                sval a <= B * sval b -> sval (SFdiv prec emax a b) <= B * 2 ^ K)
  /\ (forall B, 0 < B -> rnd (B * 2 ^ K) = B * 2 ^ K ->
                B * sval b <= sval a -> B * 2 ^ K <= sval (SFdiv prec emax a b)).
Proof.
  intros d1 d2 a b Hr Hd He1 He2. K_value.
  subst a b. cbn [SFdiv xorb sval]. unfold SFdiv_core_binary. cbn [Zdigits2].
  rewrite !digits2_log2. fold d1 d2. rewrite fexp_eq.
  rewrite Z.max_l by lia. rewrite Z.min_l by lia.
  set (e' := d1 + e1 - (d2 + e2) - 53).
  set (s := e1 - e2 - e').
  assert (Hs : s = 53 + d2 - d1) by (unfold s, e'; lia).
  destruct s as [|ps|ps] eqn:Es; try lia.
  rewrite Z.shiftl_mul_pow2 by lia.
  destruct (Z.log2_spec (Z.pos m1) ltac:(lia)) as [L1 U1].
  destruct (Z.log2_spec (Z.pos m2) ltac:(lia)) as [L2 U2].
  pose proof (Z.log2_nonneg (Z.pos m1)) as N1.
  pose proof (Z.log2_nonneg (Z.pos m2)) as N2.
  assert (Ps : 0 < 2 ^ Z.pos ps) by pow2_pos.
  set (m' := Z.pos m1 * 2 ^ Z.pos ps).
  pose proof (Z_div_mod m' (Z.pos m2) ltac:(lia)) as DM.
  destruct (Z.div_eucl m' (Z.pos m2)) as [q r]. destruct DM as [DM Rr].
  (* size of the quotient *)
  assert (Lm' : 2 ^ (52 + d2) <= m').
  { unfold m'. replace (52 + d2) with (Z.log2 (Z.pos m1) + Z.pos ps) by lia.
    rewrite Z.pow_add_r by lia. nia. }
  assert (Um' : m' < 2 ^ (53 + d2)).
  { unfold m'. replace (53 + d2) with (Z.succ (Z.log2 (Z.pos m1)) + Z.pos ps) by lia.
    rewrite Z.pow_add_r by lia. nia. }
  assert (U2' : Z.pos m2 < 2 ^ d2) by (unfold d2; exact U2).
  assert (L2' : 2 ^ (d2 - 1) <= Z.pos m2)
    by (unfold d2; replace (Z.log2 (Z.pos m2) + 1 - 1) with (Z.log2 (Z.pos m2)) by lia;
        exact L2).
  assert (Lq : 2 ^ 52 <= q).
  { assert (2 ^ 52 * 2 ^ d2 <= q * Z.pos m2 + r) by (rewrite <- Z.pow_add_r by lia; lia).
    assert (0 < 2 ^ 52) by reflexivity. nia. }
  assert (Uq : q < 2 ^ 54).
  { assert (q * Z.pos m2 + r < 2 ^ 54 * 2 ^ (d2 - 1)).
    { rewrite <- Z.pow_add_r by lia. replace (54 + (d2 - 1)) with (53 + d2) by lia. lia. }
    assert (0 < 2 ^ (d2 - 1)) by pow2_pos. nia. }
  destruct q as [|pq|pq]; try lia.
  assert (Lgq : 52 <= Z.log2 (Z.pos pq) <= 53).
  { split; [apply Z.log2_le_pow2; lia|].
    assert (Z.log2 (Z.pos pq) < 54) by (apply Z.log2_lt_pow2; lia). lia. }
  rewrite bra_loc by (rewrite fexp_eq, digits2_log2; lia).
  destruct (new_location_bits (Z.pos m2) r) as [Bc Zc].
  set (c := loc_bits (new_location (Z.pos m2) r)) in *.
  assert (V4 : 2 ^ 54 <= 4 * Z.pos pq + c < 2 ^ 56)
    by (change (2 ^ 54) with (4 * 2 ^ 52); change (2 ^ 56) with (4 * 2 ^ 54); lia).
  destruct (4 * Z.pos pq + c) as [|v|v] eqn:V; try lia.
  assert (Lv : 54 <= Z.log2 (Z.pos v) <= 55).
  { split; [apply Z.log2_le_pow2; lia|].
    assert (Z.log2 (Z.pos v) < 56) by (apply Z.log2_lt_pow2; lia). lia. }
  assert (Pe : 0 < 2 ^ (e' - 2 + K)) by (apply Z.pow_pos_nonneg; unfold e'; lia).
  assert (Hv : Z.pos v * 2 ^ (e' - 2 + K) < 2 ^ (K + 900)).
  { assert (Z.pos v * 2 ^ (e' - 2 + K) < 2 ^ 56 * 2 ^ (e' - 2 + K)) by nia.
    assert (2 ^ 56 * 2 ^ (e' - 2 + K) <= 2 ^ (K + 900)).
    { rewrite <- Z.pow_add_r by (unfold e'; lia). apply Z.pow_le_mono_r; unfold e'; lia. }
    lia. }
  assert (Hn : 0 <= fexp prec emax (Z.pos (digits2_pos v) + (e' - 2)) - (e' - 2))
    by (rewrite fexp_eq, digits2_log2; unfold e'; lia).
  assert (Hk : - K <= e' - 2) by (unfold e'; lia).
  destruct (bra_sval v (e' - 2) Hk Hn Hv) as [Nn Sv].
  split; [apply bra_valid; assumption|]. split; [exact Nn|].
  rewrite Sv.
  (* the dividend against a multiple of the divisor *)
  assert (Pe1 : 0 < 2 ^ (e1 + K)) by pow2_pos.
  assert (Pe2 : 0 < 2 ^ (e2 + K)) by pow2_pos.
  assert (Pn : 0 < 2 ^ (- e')) by (apply Z.pow_pos_nonneg; unfold e'; lia).
  assert (X1 : 2 ^ (e2 + K) * 2 ^ Z.pos ps = 2 ^ (e1 + K) * 2 ^ (- e')).
  { rewrite <- !Z.pow_add_r by (unfold e'; lia). f_equal. unfold e' in *. lia. }
  assert (X2 : 4 * 2 ^ (- e') * 2 ^ (e' - 2 + K) = 2 ^ K).
  { change 4 with (2 ^ 2). rewrite <- !Z.pow_add_r by (unfold e'; lia).
    f_equal. lia. }
  split.
  - intros B HB HR H. rewrite <- HR. apply rnd_mono; [lia|].
    assert (T : m' <= B * 2 ^ (- e') * Z.pos m2).
    { apply Z.mul_le_mono_pos_r with (2 ^ (e1 + K)); [lia|].
      unfold m'. 
      replace (Z.pos m1 * 2 ^ Z.pos ps * 2 ^ (e1 + K))
        with (Z.pos m1 * 2 ^ (e1 + K) * 2 ^ Z.pos ps) by ring.
      replace (B * 2 ^ (- e') * Z.pos m2 * 2 ^ (e1 + K))
        with (B * (Z.pos m2 * (2 ^ (e1 + K) * 2 ^ (- e')))) by ring.
      rewrite <- X1.
      replace (B * (Z.pos m2 * (2 ^ (e2 + K) * 2 ^ Z.pos ps)))
        with (B * (Z.pos m2 * 2 ^ (e2 + K)) * 2 ^ Z.pos ps) by ring.
      apply Z.mul_le_mono_nonneg_r; lia. }
    assert (Q : Z.pos v <= 4 * (B * 2 ^ (- e'))).
    { rewrite <- V.
      destruct (Z.eq_dec (Z.pos pq) (B * 2 ^ (- e'))) as [E|E].
      - assert (r = 0) by nia. apply Zc in H0. lia.
      - assert (Z.pos pq < B * 2 ^ (- e')) by nia. lia. }
    replace (B * 2 ^ K) with (4 * (B * 2 ^ (- e')) * 2 ^ (e' - 2 + K))
      by (rewrite <- X2; ring).
    apply Z.mul_le_mono_nonneg_r; lia.
  - intros B HB HR H. rewrite <- HR at 1. apply rnd_mono; [nia|].
    assert (T : B * 2 ^ (- e') * Z.pos m2 <= m').
    { apply Z.mul_le_mono_pos_r with (2 ^ (e1 + K)); [lia|].
      unfold m'.
      replace (Z.pos m1 * 2 ^ Z.pos ps * 2 ^ (e1 + K))
        with (Z.pos m1 * 2 ^ (e1 + K) * 2 ^ Z.pos ps) by ring.
      replace (B * 2 ^ (- e') * Z.pos m2 * 2 ^ (e1 + K))
        with (B * (Z.pos m2 * (2 ^ (e1 + K) * 2 ^ (- e')))) by ring.
      rewrite <- X1.
      replace (B * (Z.pos m2 * (2 ^ (e2 + K) * 2 ^ Z.pos ps)))
        with (B * (Z.pos m2 * 2 ^ (e2 + K)) * 2 ^ Z.pos ps) by ring.
      apply Z.mul_le_mono_nonneg_r; lia. }
    assert (Q : 4 * (B * 2 ^ (- e')) <= Z.pos v).
    { rewrite <- V. assert (B * 2 ^ (- e') <= Z.pos pq) by nia. lia. }
    replace (B * 2 ^ K) with (4 * (B * 2 ^ (- e')) * 2 ^ (e' - 2 + K))
      by (rewrite <- X2; ring).
    apply Z.mul_le_mono_nonneg_r; lia.
Qed.

(** ** Numbers that binary64 represents *)

Lemma rne_exact a s : 0 <= s -> rne (a * 2 ^ s) s = a.
Proof.
  intros Hs. pose proof (rne_scale a 0 s ltac:(lia) Hs) as H.
  rewrite Z.add_0_l in H. rewrite H. apply rne_0.
Qed.

Lemma rnd_exact m j :
  0 <= m < 2 ^ 53 -> K - 1074 <= j -> rnd (m * 2 ^ j) = m * 2 ^ j.
Proof.
  intros Hm Hj. K_value.
  destruct (Z.eq_dec m 0) as [->|Nz]; [reflexivity|].
  assert (Pj : 0 < 2 ^ j) by pow2_pos.
  assert (L : Z.log2 (m * 2 ^ j) = Z.log2 m + j) by (rewrite Z.log2_mul_pow2; lia).
  assert (Lm : Z.log2 m < 53) by (apply Z.log2_lt_pow2; lia).
  pose proof (Z.log2_nonneg m) as Nm.
  unfold rnd. set (g := grid (m * 2 ^ j)).
  assert (Hg : K - 1074 <= g <= j) by (unfold g, grid; rewrite L; lia).
  replace (m * 2 ^ j) with (m * 2 ^ (j - g) * 2 ^ g)
    by (rewrite <- Z.mul_assoc, <- Z.pow_add_r by lia; do 2 f_equal; lia).
  rewrite rne_exact by lia. reflexivity.
Qed.

Lemma rnd_int B : 0 <= B < 2 ^ 53 -> rnd (B * 2 ^ K) = B * 2 ^ K.
Proof. intros H. apply rnd_exact; [exact H|]. unfold K. lia. Qed.

Lemma rnd_sval y : valid_binary y = true -> nonneg_SF y -> rnd (sval y) = sval y.
Proof.
  intros V N. destruct y as [s|s| |s m e]; try contradiction; [reflexivity|].
  destruct s; [contradiction|]. cbn [sval]. simpl in N. K_value.
  destruct (valid_finite _ _ _ V) as [C _].
  apply rnd_exact; [|lia]. split; [lia|].
  destruct (Z.log2_spec (Z.pos m) ltac:(lia)) as [_ U].
  eapply Z.lt_le_trans; [exact U|]. apply Z.pow_le_mono_r; lia.
Qed.

(** ** Addition *)

Lemma shl_align_value m e ez :
  ez <= e -> Z.pos (fst (shl_align m e ez)) = Z.pos m * 2 ^ (e - ez).
Proof.
  intros H. unfold shl_align. destruct (ez - e) as [|p|p] eqn:D; try lia; cbn [fst].
  - replace (e - ez) with 0 by lia. lia.
  - rewrite iter_xO. do 2 f_equal. lia.
Qed.

Lemma SFadd_sval a b :
  valid_binary a = true -> valid_binary b = true -> nonneg_SF a -> nonneg_SF b ->
  sval a + sval b < 2 ^ (K + 900) ->
  nonneg_SF (SFadd prec emax a b)
  /\ sval (SFadd prec emax a b) = rnd (sval a + sval b).
Proof.
  intros Va Vb Na Nb Hs. K_value.
  destruct a as [sa|sa| |sa ma ea]; try contradiction;
    destruct b as [sb|sb| |sb mb eb]; try contradiction.
  - cbn [SFadd]. destruct sa, sb; cbn; auto.
  - cbn [SFadd]. split; [exact Nb|].
    change (sval (S754_zero sa)) with 0. rewrite Z.add_0_l. symmetry. now apply rnd_sval.
  - cbn [SFadd]. split; [exact Na|].
    change (sval (S754_zero sb)) with 0. rewrite Z.add_0_r. symmetry. now apply rnd_sval.
  - destruct sa; [contradiction|]. destruct sb; [contradiction|].
    simpl in Na, Nb.
    destruct (valid_finite _ _ _ Va) as [Ca _]. destruct (valid_finite _ _ _ Vb) as [Cb _].
    cbn [SFadd cond_Zopp sval] in *.
    set (ez := Z.min ea eb).
    rewrite !shl_align_value by (unfold ez; lia).
    assert (Pa : 0 < 2 ^ (ea - ez)) by (apply Z.pow_pos_nonneg; unfold ez; lia).
    assert (Pb : 0 < 2 ^ (eb - ez)) by (apply Z.pow_pos_nonneg; unfold ez; lia).
    assert (Val : (Z.pos ma * 2 ^ (ea - ez) + Z.pos mb * 2 ^ (eb - ez)) * 2 ^ (ez + K)
                  = Z.pos ma * 2 ^ (ea + K) + Z.pos mb * 2 ^ (eb + K)).
    { rewrite Z.mul_add_distr_r, <- !Z.mul_assoc, <- !Z.pow_add_r by (unfold ez; lia).
      do 3 f_equal; lia. }
    destruct (Z.pos ma * 2 ^ (ea - ez) + Z.pos mb * 2 ^ (eb - ez)) as [|p|p] eqn:D;
      try nia.
    cbn [binary_normalize]. rewrite <- Val.
    apply binary_round_sval; [unfold ez; lia|]. rewrite Val. exact Hs.
Qed.

(** ** Integers as doubles *)

Lemma binary_round_valid m e :
  -1074 <= e -> Z.pos m * 2 ^ (e + K) < 2 ^ (K + 900) ->
  valid_binary (binary_round prec emax false m e) = true.
Proof.
  intros He Hv. K_value.
  unfold binary_round, shl_align. rewrite fexp_eq, digits2_log2.
  set (f := Z.max (Z.log2 (Z.pos m) + 1 + e - 53) (-1074)).
  destruct (f - e) as [|p|p] eqn:D.
  - apply bra_valid; [lia| |exact Hv]. rewrite fexp_eq, digits2_log2. fold f. lia.
  - apply bra_valid; [lia| |exact Hv]. rewrite fexp_eq, digits2_log2. fold f. lia.
  - assert (Val : Z.pos (Pos.iter xO m p) * 2 ^ (f + K) = Z.pos m * 2 ^ (e + K)).
    { rewrite iter_xO. replace (e + K) with (Z.pos p + (f + K)) by lia.
      rewrite (Z.pow_add_r 2 (Z.pos p)) by lia. ring. }
    apply bra_valid; [unfold f; lia| |rewrite Val; exact Hv].
    rewrite fexp_eq, digits2_log2, iter_xO, Z.log2_mul_pow2 by lia.
    unfold f. lia.
Qed.

(** [(double) z] for an [int] that is not negative: a double with the value
    [z]. *)
Lemma int_to_double_value z :
  0 <= z < 2 ^ 53 ->
  valid_binary (Prim2SF (int_to_double z)) = true
  /\ nonneg_SF (Prim2SF (int_to_double z))
  /\ sval (Prim2SF (int_to_double z)) = z * 2 ^ K.
Proof.
  intros Hz. K_value. unfold int_to_double.
  destruct z as [|p|p]; [| |lia].
  - cbn [binary_normalize]. rewrite Prim2SF_SF2Prim by reflexivity. cbn. auto.
  - cbn [binary_normalize].
    assert (Hv : Z.pos p * 2 ^ (0 + K) < 2 ^ (K + 900)).
    { cbn [Z.add]. assert (2 ^ 53 * 2 ^ K <= 2 ^ (K + 900)).
      { rewrite <- Z.pow_add_r by lia. apply Z.pow_le_mono_r; lia. }
      assert (0 < 2 ^ K) by reflexivity. nia. }
    pose proof (binary_round_valid p 0 ltac:(lia) Hv) as V.
    destruct (binary_round_sval p 0 ltac:(lia) Hv) as [N S].
    rewrite Prim2SF_SF2Prim by exact V. split; [exact V|]. split; [exact N|].
    rewrite S. cbn [Z.add]. apply rnd_exact; [lia|lia].
Qed.

(** A valid positive double of a known value is normal when the value is
    at least one: its mantissa has 53 bits. *)
Lemma normal_mantissa m e v :
  valid_binary (S754_finite false m e) = true ->
  Z.pos m * 2 ^ (e + K) = v * 2 ^ K -> 1 <= v < 2 ^ 40 ->
  Z.log2 (Z.pos m) = 52 /\ -52 <= e <= -12.
Proof.
  intros V E Hv. K_value.
  destruct (valid_finite _ _ _ V) as [C _].
  destruct (Z.log2_spec (Z.pos m) ltac:(lia)) as [L U].
  pose proof (Z.log2_nonneg (Z.pos m)) as N.
  assert (PK : 0 < 2 ^ K) by reflexivity.
  assert (He : -1074 <= e) by lia.
  assert (Pe : 0 < 2 ^ (e + K)) by pow2_pos.
  assert (A : 2 ^ (Z.log2 (Z.pos m) + (e + K)) <= v * 2 ^ K).
  { rewrite Z.pow_add_r by lia. nia. }
  assert (B : v * 2 ^ K < 2 ^ (Z.succ (Z.log2 (Z.pos m)) + (e + K))).
  { rewrite Z.pow_add_r by lia. nia. }
  assert (A' : Z.log2 (Z.pos m) + (e + K) < 40 + K).
  { apply (Z.pow_lt_mono_r_iff 2); [lia|lia|].
    eapply Z.le_lt_trans; [exact A|]. rewrite Z.pow_add_r by lia. nia. }
  assert (B' : K < Z.succ (Z.log2 (Z.pos m)) + (e + K)).
  { apply (Z.pow_lt_mono_r_iff 2); [lia|lia|].
    eapply Z.le_lt_trans; [|exact B]. nia. }
  lia.
Qed.

(** ** Ranges of doubles *)

Lemma leb_sval x y :
  nonneg_SF (Prim2SF x) -> nonneg_SF (Prim2SF y) ->
  PrimFloat.leb x y = (sval (Prim2SF x) <=? sval (Prim2SF y)).
Proof.
  intros Nx Ny. rewrite leb_spec. apply SFleb_iff; auto using Prim2SF_valid.
Qed.

Lemma ltb_sval x y :
  nonneg_SF (Prim2SF x) -> nonneg_SF (Prim2SF y) ->
  PrimFloat.ltb x y = (sval (Prim2SF x) <? sval (Prim2SF y)).
Proof.
  intros Nx Ny. rewrite ltb_spec. apply SFltb_iff; auto using Prim2SF_valid.
Qed.

(** A range in terms of values is a range in terms of the comparisons of C,
    for bounds that are small integers. *)
Lemma in_range_between lo hi x :
  0 <= lo < 2 ^ 53 -> 0 <= hi < 2 ^ 53 ->
  in_range lo hi x -> between (int_to_double lo) (int_to_double hi) x.
Proof.
  intros Hlo Hhi [N [L H]]. unfold between.
  destruct (int_to_double_value lo Hlo) as (_ & Nl & Sl).
  destruct (int_to_double_value hi Hhi) as (_ & Nh & Sh).
  rewrite !leb_sval by assumption. rewrite Sl, Sh. split; apply Z.leb_le; assumption.
Qed.

Lemma in_unit_range x : in_unit x <-> in_range 0 1 x.
Proof.
  unfold in_range. split.
  - intros [H0 H1]. destruct (unit_interval x H0 H1) as (V & N & B).
    pose proof (sval_nonneg (Prim2SF x)). split; [exact N|]. lia.
  - intros [N [L H]]. unfold in_unit.
    assert (N0 : nonneg_SF (Prim2SF 0)) by exact I.
    assert (N1 : nonneg_SF (Prim2SF 1)).
    { change (Prim2SF 1) with (S754_finite false 4503599627370496 (-52)).
      simpl. unfold K. lia. }
    rewrite (leb_sval 0 x N0 N), (leb_sval x 1 N N1).
    change (sval (Prim2SF 0)) with 0. change (sval (Prim2SF 1)) with (2 ^ K).
    split; apply Z.leb_le; lia.
Qed.

(** ** random_double *)

Lemma quotient_range (x y : float) (a b lo hi : Z) :
  valid_binary (Prim2SF x) = true -> nonneg_SF (Prim2SF x) ->
  valid_binary (Prim2SF y) = true -> nonneg_SF (Prim2SF y) ->
  sval (Prim2SF x) = a * 2 ^ K -> sval (Prim2SF y) = b * 2 ^ K ->
  0 <= a < 2 ^ 40 -> 1 <= b < 2 ^ 40 ->
  0 <= lo <= hi -> hi < 2 ^ 53 -> lo * b <= a <= hi * b ->
  in_range lo hi (PrimFloat.div x y).
Proof.
  intros Vx Nx Vy Ny Sx Sy Ha Hb Hl Hh Hq. K_value. unfold in_range.
  assert (PK : 0 < 2 ^ K) by reflexivity.
  rewrite div_spec. unfold SF64div.
  destruct (Prim2SF y) as [sy|sy| |sy my ey]; try contradiction;
    [cbn [sval] in Sy; nia|].
  destruct sy; [contradiction|].
  destruct (normal_mantissa my ey b Vy Sy Hb) as [Ly Ey].
  destruct (Prim2SF x) as [sx|sx| |sx mx ex]; try contradiction.
  - cbn [SFdiv sval] in *. split; [exact I|]. assert (a = 0) by nia. subst a.
    assert (lo = 0) by nia. nia.
  - destruct sx; [contradiction|].
    assert (Ha1 : 1 <= a).
    { destruct (Z.eq_dec a 0) as [->|]; [|lia]. cbn [sval] in Sx.
      assert (0 < 2 ^ (ex + K)) by (simpl in Nx; pow2_pos). nia. }
    destruct (normal_mantissa mx ex a Vx Sx ltac:(lia)) as [Lx Ex].
    destruct (SFdiv_bounds mx my ex ey) as (V & N & U & L); try (unfold K; lia).
    split; [exact N|]. split.
    + destruct (Z.eq_dec lo 0) as [->|Nz]; [rewrite Z.mul_0_l; apply sval_nonneg|].
      apply L; [lia|apply rnd_int; lia|]. rewrite Sx, Sy. nia.
    + apply U; [lia|apply rnd_int; lia|]. rewrite Sx, Sy. nia.
Qed.

Lemma random_double_range rand i :
  0 <= rand i <= RAND_MAX -> in_range 0 1 (fst (random_double rand i)).
Proof.
  intros H. unfold random_double. cbn [fst]. unfold RAND_MAX in *.
  destruct (int_to_double_value (rand i)) as (Vx & Nx & Sx);
    [change (2 ^ 53) with 9007199254740992; lia|].
  destruct (int_to_double_value 2147483647) as (Vy & Ny & Sy);
    [change (2 ^ 53) with 9007199254740992; lia|].
  apply (quotient_range _ _ (rand i) 2147483647); auto;
    try change (2 ^ 40) with 1099511627776; try change (2 ^ 53) with 9007199254740992;
    lia.
Qed.

(** ** random_battery_level *)

Ltac closed :=
  repeat split; vm_compute; first [reflexivity | discriminate | (intros ?; discriminate)].

(** [lo + d * c] for [d] in the unit interval and small integers [lo], [c]. *)
Lemma level_range (d lo c : float) (Lo C : Z) (mc : positive) (ec : Z) :
  in_range 0 1 d ->
  Prim2SF c = S754_finite false mc ec ->
  2 ^ 52 <= Z.pos mc -> -100 <= ec <= 0 -> Z.pos mc = C * 2 ^ (- ec) -> 0 < C <= 1000 ->
  nonneg_SF (Prim2SF lo) -> sval (Prim2SF lo) = Lo * 2 ^ K -> 0 <= Lo <= 1000 ->
  in_range Lo (Lo + C) (PrimFloat.add lo (PrimFloat.mul d c)).
Proof.
  intros [Nd [Ld Ud]] Hc Hmc Hec HC HC' Nlo Slo HLo. K_value.
  assert (PK : 0 < 2 ^ K) by reflexivity.
  assert (Vm : valid_binary (Prim2SF (PrimFloat.mul d c)) = true) by apply Prim2SF_valid.
  unfold in_range. rewrite add_spec. unfold SF64add.
  rewrite mul_spec, Hc in *. unfold SF64mul in *.
  destruct (SFmul_const (Prim2SF d) mc ec C (Prim2SF_valid d) Nd ltac:(lia) Hmc Hec HC)
    as [Nm Sm]; [change (2 ^ 20) with 1048576; lia|].
  assert (Rm : 0 <= rnd (C * sval (Prim2SF d)) <= C * 2 ^ K).
  { split; [apply rnd_nonneg; nia|].
    rewrite <- (rnd_int C) by (change (2 ^ 53) with 9007199254740992; lia).
    apply rnd_mono; nia. }
  assert (P900 : 2048 * 2 ^ K <= 2 ^ (K + 900)).
  { change 2048 with (2 ^ 11). rewrite <- Z.pow_add_r by lia. apply Z.pow_le_mono_r; lia. }
  destruct (SFadd_sval (Prim2SF lo) _ (Prim2SF_valid lo) Vm Nlo Nm) as [Na Sa];
    [rewrite Slo, Sm; nia|].
  split; [exact Na|]. rewrite Sa, Slo, Sm. split.
  - rewrite <- (rnd_int Lo) at 1 by (change (2 ^ 53) with 9007199254740992; lia).
    apply rnd_mono; nia.
  - rewrite <- (rnd_int (Lo + C)) by (change (2 ^ 53) with 9007199254740992; lia).
    apply rnd_mono; nia.
Qed.

Lemma random_battery_level_range rand i :
  0 <= rand i <= RAND_MAX -> 0 <= rand (S i) <= RAND_MAX ->
  in_range 10 100 (fst (random_battery_level rand i))
  /\ snd (random_battery_level rand i) = S (S i).
Proof.
  intros H0 H1. unfold random_battery_level.
  pose proof (random_double_range rand (S i) H1) as Rd.
  unfold random_double in *. cbn [fst snd] in *.
  set (d := PrimFloat.div (int_to_double (rand (S i))) (int_to_double RAND_MAX)) in *.
  assert (PK : 0 < 2 ^ K) by reflexivity.
  assert (W : forall lo hi x, in_range lo hi x -> 10 <= lo -> hi <= 100 -> in_range 10 100 x).
  { intros lo hi x [N [L U]] A B. split; [exact N|]. nia. }
  destruct (PrimFloat.ltb _ 0.2); [|destruct (PrimFloat.ltb _ 0.8)]; cbn [fst snd];
    (split; [|reflexivity]).
  - apply (W 10 (10 + 30)); try lia.
    apply (level_range d 10 30 10 30 8444249301319680 (-48)); auto; closed.
  - apply (W 40 (40 + 40)); try lia.
    apply (level_range d 40 40 40 40 5629499534213120 (-47)); auto; closed.
  - apply (W 80 (80 + 20)); try lia.
    apply (level_range d 80 20 80 20 5629499534213120 (-48)); auto; closed.
Qed.

(** X19: for a value of [rand()] between 0 and RAND_MAX, random_double
    returns a double between 0 and 1 (1 for RAND_MAX) and calls [rand()]
    once; random_battery_level returns a double between 10 and 100 and
    calls [rand()] twice.  Both ends, 10 and 100, are reached. *)
Theorem random_values_in_range :
  (forall (rand : nat -> Z) (i : nat),
      0 <= rand i <= RAND_MAX ->
      in_unit (fst (random_double rand i)) /\ snd (random_double rand i) = S i)
  /\ (forall (rand : nat -> Z) (i : nat),
         0 <= rand i <= RAND_MAX -> 0 <= rand (S i) <= RAND_MAX ->
         between 10 100 (fst (random_battery_level rand i))
         /\ snd (random_battery_level rand i) = S (S i))
  /\ fst (random_double (fun _ => RAND_MAX) 0) = 1%float
  /\ fst (random_battery_level (fun _ => 0) 0) = 10%float
  /\ fst (random_battery_level (fun _ => RAND_MAX) 0) = 100%float.
Proof.
  split; [|split; [|repeat split; vm_compute; reflexivity]].
  - intros rand i H. split; [|reflexivity]. apply in_unit_range.
    now apply random_double_range.
  - intros rand i H0 H1. destruct (random_battery_level_range rand i H0 H1) as [R E].
    split; [|exact E].
    apply (in_range_between 10 100) in R;
      [exact R|change (2 ^ 53) with 9007199254740992; lia..].
Qed.

Lemma random_values_witness :
  between 10 100 (fst (random_battery_level (fun i => Z.of_nat i * 1000000000) 0))
  /\ snd (random_battery_level (fun i => Z.of_nat i * 1000000000) 0) = 2%nat.
Proof.
  refine (proj1 (proj2 random_values_in_range) (fun i => Z.of_nat i * 1000000000) 0%nat _ _);
    unfold RAND_MAX; cbn; lia.
Defined.

(** ** Printed digits *)

Lemma digit_char_spec d :
  0 <= d <= 9 -> isdigit (digit_char d) = true /\ digit_val (digit_char d) = d.
Proof.
  intros H.
  assert (C : d = 0 \/ d = 1 \/ d = 2 \/ d = 3 \/ d = 4 \/ d = 5 \/ d = 6 \/ d = 7
              \/ d = 8 \/ d = 9) by lia.
  repeat (destruct C as [->|C]; [split; reflexivity|]). subst. split; reflexivity.
Qed.

Lemma mod10 n : 0 <= n mod 10 <= 9.
Proof. pose proof (Z.mod_pos_bound n 10). lia. Qed.

Lemma digits_value_rev ds : digits_value (rev ds) = value_rev ds.
Proof.
  unfold digits_value, value_rev. rewrite <- fold_left_rev_right, rev_involutive. reflexivity.
Qed.

Lemma digits_rev_spec fuel : forall n,
  0 <= n < 10 ^ Z.of_nat fuel ->
  forallb isdigit (digits_rev fuel n) = true /\ value_rev (digits_rev fuel n) = n.
Proof.
  induction fuel as [|k IH]; intros n H.
  - cbn in *. split; [reflexivity|]. lia.
  - cbn [digits_rev]. destruct (digit_char_spec (n mod 10) (mod10 n)) as [D V].
    rewrite Nat2Z.inj_succ, Z.pow_succ_r in H by lia.
    pose proof (Z.div_mod n 10 ltac:(lia)) as DM.
    destruct (Z.eqb_spec (n / 10) 0) as [E|E].
    + cbn. rewrite D, V. split; [reflexivity|]. lia.
    + assert (B : 0 <= n / 10 < 10 ^ Z.of_nat k).
      { split; [apply Z.div_pos; lia|]. apply Z.div_lt_upper_bound; lia. }
      destruct (IH _ B) as [F W]. cbn [forallb value_rev fold_right].
      fold (value_rev (digits_rev k (n / 10))). rewrite D, F, V, W. split; [reflexivity|]. lia.
Qed.

Lemma pow2_le_pow10 k : 0 <= k -> 2 ^ k <= 10 ^ k.
Proof. intros H. apply Z.pow_le_mono_l. lia. Qed.

Lemma print_uint_spec n :
  0 <= n ->
  forallb isdigit (print_uint n) = true /\ digits_value (print_uint n) = n
  /\ print_uint n <> [].
Proof.
  intros H. unfold print_uint.
  assert (B : 0 <= n < 10 ^ Z.of_nat (S (Z.to_nat (Z.log2 n)))).
  { split; [exact H|]. pose proof (Z.log2_nonneg n).
    rewrite Nat2Z.inj_succ, Z2Nat.id by lia.
    destruct (Z.eq_dec n 0) as [->|]; [reflexivity|].
    destruct (Z.log2_spec n ltac:(lia)) as [_ U].
    eapply Z.lt_le_trans; [exact U|]. apply pow2_le_pow10. lia. }
  destruct (digits_rev_spec _ _ B) as [F V]. split; [|split].
  - rewrite forallb_forall in *. intros c Hc. apply F. now apply in_rev.
  - now rewrite digits_value_rev.
  - cbn [digits_rev]. intros E. apply (f_equal (@List.length ascii)) in E.
    rewrite length_rev in E. cbn in E. lia.
Qed.

Lemma fixed_digits_length w n : List.length (fixed_digits w n) = w.
Proof. induction w; cbn; auto. Qed.

Lemma fixed_digits_digits w n : forallb isdigit (fixed_digits w n) = true.
Proof.
  induction w as [|k IH]; [reflexivity|]. cbn [fixed_digits forallb].
  destruct (digit_char_spec _ (mod10 (n / 10 ^ Z.of_nat k))) as [D _]. now rewrite D, IH.
Qed.

(** Digits read after the digits [acc] has already taken in. *)
Lemma digits_value_app a b :
  digits_value (a ++ b) = digits_value a * 10 ^ Z.of_nat (List.length b) + digits_value b.
Proof.
  unfold digits_value. rewrite fold_left_app. generalize (fold_left
    (fun acc c => 10 * acc + digit_val c) a 0). intros x.
  revert x. induction b as [|c b IH]; intros x.
  - cbn. lia.
  - cbn [fold_left]. rewrite IH. rewrite (IH (10 * 0 + digit_val c)).
    cbn [List.length]. rewrite Nat2Z.inj_succ, Z.pow_succ_r by lia. ring.
Qed.

Lemma fixed_digits_value w n : 0 <= n -> digits_value (fixed_digits w n) = n mod 10 ^ Z.of_nat w.
Proof.
  intros H. induction w as [|k IH].
  - cbn. now rewrite Z.mod_1_r.
  - cbn [fixed_digits].
    change (digit_char ((n / 10 ^ Z.of_nat k) mod 10) :: fixed_digits k n)
      with ([digit_char ((n / 10 ^ Z.of_nat k) mod 10)] ++ fixed_digits k n)%list.
    rewrite digits_value_app, fixed_digits_length, IH.
    destruct (digit_char_spec _ (mod10 (n / 10 ^ Z.of_nat k))) as [_ V].
    unfold digits_value at 1. cbn [fold_left]. rewrite V.
    rewrite Nat2Z.inj_succ, Z.pow_succ_r by lia.
    assert (P : 0 < 10 ^ Z.of_nat k) by (apply Z.pow_pos_nonneg; lia).
    rewrite (Z.mul_comm 10 (10 ^ Z.of_nat k)), Z.rem_mul_r by lia. ring.
Qed.

Lemma span_digits_app ds rest :
  forallb isdigit ds = true ->
  match rest with [] => True | c :: _ => isdigit c = false end ->
  span_digits (ds ++ rest) = (ds, rest).
Proof.
  intros H R. induction ds as [|c ds IH].
  - cbn [app]. destruct rest as [|c r]; [reflexivity|]. cbn [span_digits]. now rewrite R.
  - cbn [forallb] in H. apply andb_true_iff in H. destruct H as [H1 H2].
    cbn [app span_digits]. rewrite H1, (IH H2). reflexivity.
Qed.

(** ** Reading a printed number *)

Lemma digit_is c :
  isdigit c = true ->
  c = "0"%char \/ c = "1"%char \/ c = "2"%char \/ c = "3"%char \/ c = "4"%char
  \/ c = "5"%char \/ c = "6"%char \/ c = "7"%char \/ c = "8"%char \/ c = "9"%char.
Proof.
  destruct c as [b0 b1 b2 b3 b4 b5 b6 b7].
  destruct b0, b1, b2, b3, b4, b5, b6, b7; try discriminate; intros _; auto 10.
Qed.

Ltac digit_cases c H :=
  destruct (digit_is c H) as [->|[->|[->|[->|[->|[->|[->|[->|[->| ->]]]]]]]]].

Lemma div_rne_nonneg a b : 0 <= a -> 0 < b -> 0 <= div_rne a b.
Proof.
  intros Ha Hb. unfold div_rne. cbv zeta. pose proof (Z.div_pos a b Ha Hb).
  destruct (2 * (a mod b) ?= b); [destruct (Z.even _)| |]; lia.
Qed.

Lemma scaled_round_nonneg p m e : 0 <= scaled_round p m e.
Proof.
  unfold scaled_round. assert (0 < 10 ^ Z.of_nat p) by (apply Z.pow_pos_nonneg; lia).
  destruct e as [|q|q].
  - change (2 ^ 0) with 1. nia.
  - assert (0 < 2 ^ Z.pos q) by (apply Z.pow_pos_nonneg; lia). nia.
  - apply div_rne_nonneg; [nia|apply Z.pow_pos_nonneg; lia].
Qed.

Lemma printed_digits_nonneg p x : 0 <= printed_digits p x.
Proof.
  unfold printed_digits. destruct (Prim2SF x); try lia. apply scaled_round_nonneg.
Qed.

Lemma print_fixed_text p x :
  sign_clear (Prim2SF x) ->
  print_fixed (S p) x
  = (print_uint (printed_digits (S p) x / 10 ^ Z.of_nat (S p))
     ++ "."%char :: fixed_digits (S p) (printed_digits (S p) x mod 10 ^ Z.of_nat (S p)))%list.
Proof.
  unfold print_fixed, printed_digits.
  destruct (Prim2SF x) as [s|s| |s m e]; try contradiction; cbn [sign_clear]; intros ->.
  - rewrite Z.mod_0_l, Z.div_0_l by (apply Z.pow_nonzero; lia). reflexivity.
  - reflexivity.
Qed.

Lemma scan_sign_digit c r : isdigit c = true -> scan_sign (c :: r) = (false, c :: r).
Proof. intros H. digit_cases c H; reflexivity. Qed.

Lemma strip_inf_digit c r : isdigit c = true -> strip_prefix_ci (lit "inf") (c :: r) = None.
Proof. intros H. digit_cases c H; reflexivity. Qed.

Lemma strip_nan_digit c r : isdigit c = true -> strip_prefix_ci (lit "nan") (c :: r) = None.
Proof. intros H. digit_cases c H; reflexivity. Qed.

Lemma strip_0x_not r :
  match r with
  | c2 :: _ => Ascii.eqb "x" (tolower c2) = false
  | [] => True
  end ->
  forall c, strip_prefix_ci (lit "0x") (c :: r) = None.
Proof.
  intros H c.
  change (strip_prefix_ci (lit "0x") (c :: r))
    with (if Ascii.eqb "0" (tolower c) then strip_prefix_ci (lit "x") r else None).
  destruct (Ascii.eqb "0" (tolower c)); [|reflexivity].
  destruct r as [|c2 r]; [reflexivity|].
  change (strip_prefix_ci (lit "x") (c2 :: r))
    with (if Ascii.eqb "x" (tolower c2) then strip_prefix_ci [] r else None).
  now rewrite H.
Qed.

(** [%lf] on digits, a point, digits and a separator. *)
Lemma scan_double_decimal ip fp c rest :
  forallb isdigit ip = true -> ip <> [] -> forallb isdigit fp = true -> separator c ->
  scan_double (ip ++ "."%char :: fp ++ c :: rest)
  = Some (dec_to_double false (digits_value (ip ++ fp)) (0 - Z.of_nat (List.length fp)),
          c :: rest).
Proof.
  intros Hi Ni Hf Hc.
  assert (Cd : isdigit c = false) by (destruct Hc as [->| ->]; reflexivity).
  assert (Ce : Ascii.eqb (tolower c) "e" = false) by (destruct Hc as [->| ->]; reflexivity).
  destruct ip as [|c1 ip]; [congruence|].
  cbn [forallb] in Hi. apply andb_true_iff in Hi. destruct Hi as [H1 Hi].
  assert (S1 : span_digits ((c1 :: ip) ++ "."%char :: fp ++ c :: rest)
               = (c1 :: ip, "."%char :: fp ++ c :: rest)).
  { apply span_digits_app; [cbn [forallb]; now rewrite H1, Hi|reflexivity]. }
  assert (S2 : span_digits (fp ++ c :: rest) = (fp, c :: rest))
    by (apply span_digits_app; assumption).
  assert (T : match (ip ++ "."%char :: fp ++ c :: rest)%list with
              | c2 :: _ => Ascii.eqb "x" (tolower c2) = false
              | [] => True
              end).
  { destruct ip as [|c2 ip]; [reflexivity|]. cbn [app forallb] in *.
    apply andb_true_iff in Hi. destruct Hi as [H2 _]. digit_cases c2 H2; reflexivity. }
  assert (D : scan_decimal false ((c1 :: ip) ++ "."%char :: fp ++ c :: rest)
              = Some (dec_to_double false (digits_value ((c1 :: ip) ++ fp))
                        (0 - Z.of_nat (List.length fp)), c :: rest)).
  { unfold scan_decimal. rewrite S1. cbn [Ascii.eqb Bool.eqb]. rewrite S2.
    cbn [app]. unfold scan_exponent. rewrite Ce. reflexivity. }
  unfold scan_double. cbn [app] in *.
  rewrite scan_sign_digit, strip_inf_digit, strip_nan_digit, (strip_0x_not _ T) by assumption.
  exact D.
Qed.

Lemma scan_double_printed p x c rest :
  sign_clear (Prim2SF x) -> separator c ->
  scan_double (print_fixed (S p) x ++ c :: rest) = Some (reread (S p) x, c :: rest).
Proof.
  intros Sx Sc. rewrite (print_fixed_text p x Sx).
  set (N := printed_digits (S p) x). set (P := 10 ^ Z.of_nat (S p)).
  assert (PP : 0 < P) by (apply Z.pow_pos_nonneg; lia).
  assert (NN : 0 <= N) by apply printed_digits_nonneg.
  assert (Q : 0 <= N / P) by (apply Z.div_pos; lia).
  destruct (print_uint_spec (N / P) Q) as (D1 & V1 & N1).
  rewrite <- app_assoc. cbn [app].
  rewrite scan_double_decimal; auto using fixed_digits_digits.
  unfold reread. fold N.
  rewrite digits_value_app, fixed_digits_length, V1, fixed_digits_value
    by (apply Z.mod_pos_bound; exact PP).
  fold P. rewrite Z.mod_mod by lia. rewrite Z.sub_0_l.
  replace (N / P * P + N mod P) with N by (rewrite (Z.div_mod N P) at 1 by lia; ring).
  reflexivity.
Qed.

Lemma skip_ws_digit c r : isdigit c = true -> skip_ws (c :: r) = c :: r.
Proof. intros H. digit_cases c H; reflexivity. Qed.

Lemma skip_ws_idem s : skip_ws (skip_ws s) = skip_ws s.
Proof.
  induction s as [|c s IH]; [reflexivity|]. cbn [skip_ws].
  destruct (isspace c) eqn:E; [exact IH|]. cbn [skip_ws]. now rewrite E.
Qed.

Lemma skip_ws_printed p x rest :
  sign_clear (Prim2SF x) ->
  skip_ws (print_fixed (S p) x ++ rest) = (print_fixed (S p) x ++ rest)%list
  /\ (print_fixed (S p) x ++ rest)%list <> [].
Proof.
  intros Sx. rewrite (print_fixed_text p x Sx).
  set (N := printed_digits (S p) x). set (P := 10 ^ Z.of_nat (S p)).
  assert (PP : 0 < P) by (apply Z.pow_pos_nonneg; lia).
  assert (NN : 0 <= N) by apply printed_digits_nonneg.
  assert (Q : 0 <= N / P) by (apply Z.div_pos; lia).
  destruct (print_uint_spec (N / P) Q) as (D1 & V1 & N1).
  destruct (print_uint (N / P)) as [|c r]; [congruence|].
  cbn [forallb] in D1. apply andb_true_iff in D1. destruct D1 as [D1 _].
  cbn [app]. split; [now apply skip_ws_digit|discriminate].
Qed.

(** [%lf] on white space and then a number [%.pf] printed. *)
Lemma run_scanf_printed ds inp vals p x c rest :
  sign_clear (Prim2SF x) -> separator c ->
  skip_ws inp = (print_fixed (S p) x ++ c :: rest)%list ->
  run_scanf (D_double :: ds) inp vals
  = run_scanf ds (c :: rest) (vals ++ [V_double (reread (S p) x)]).
Proof.
  intros Sx Sc E. rewrite run_scanf_double, E.
  destruct (skip_ws_printed p x (c :: rest) Sx) as [_ Ne].
  pose proof (scan_double_printed p x c rest Sx Sc) as Sd.
  destruct (print_fixed (S p) x ++ c :: rest)%list as [|a l]; [congruence|].
  now rewrite Sd.
Qed.

Lemma run_scanf_ws ds inp vals :
  run_scanf (D_ws :: ds) inp vals = run_scanf ds (skip_ws inp) vals.
Proof. reflexivity. Qed.

Lemma skip_ws_blank t : skip_ws (" "%char :: t) = skip_ws t.
Proof. reflexivity. Qed.

Lemma skip_ws_newline t : skip_ws (NL :: t) = skip_ws t.
Proof. reflexivity. Qed.

(** One line of the terminals file through [fscanf]. *)
Lemma scan_terminal_record inp x y b rest :
  sign_clear (Prim2SF x) -> sign_clear (Prim2SF y) -> sign_clear (Prim2SF b) ->
  skip_ws inp = (print_fixed 6 x ++ " "%char :: print_fixed 6 y ++ " "%char
                 :: print_fixed 1 b ++ NL :: rest)%list ->
  run_scanf (parse_format (lit "%lf %lf %lf")) inp []
  = mk_scan 3 [V_double (reread 6 x); V_double (reread 6 y); V_double (reread 1 b)]
      (NL :: rest).
Proof.
  intros Sx Sy Sb E.
  change (parse_format (lit "%lf %lf %lf"))
    with [D_double; D_ws; D_double; D_ws; D_double].
  rewrite (run_scanf_printed _ inp [] 5 x " "%char _ Sx (or_introl eq_refl) E).
  rewrite run_scanf_ws, skip_ws_blank.
  rewrite (run_scanf_printed _ _ _ 5 y " "%char
             (print_fixed 1 b ++ NL :: rest)%list Sy (or_introl eq_refl))
    by (rewrite skip_ws_idem; apply (skip_ws_printed 5 y _ Sy)).
  rewrite run_scanf_ws, skip_ws_blank.
  rewrite (run_scanf_printed _ _ _ 0 b NL rest Sb (or_intror eq_refl))
    by (rewrite skip_ws_idem; apply (skip_ws_printed 0 b _ Sb)).
  reflexivity.
Qed.

(** ** Signs and ranges of the printed numbers *)

Lemma bra_sign_clear m e l :
  nonneg_SF (binary_round_aux prec emax false m e l) ->
  sign_clear (binary_round_aux prec emax false m e l).
Proof.
  unfold binary_round_aux.
  destruct (shr_fexp prec emax m e l) as [mrs' e'].
  destruct (shr_fexp prec emax _ e' loc_Exact) as [mrs'' e''].
  destruct (shr_m mrs''); [reflexivity| |contradiction].
  destruct (e'' <=? emax - prec); [reflexivity|contradiction].
Qed.

Lemma int_to_double_sign z :
  0 <= z < 2 ^ 53 -> sign_clear (Prim2SF (int_to_double z)).
Proof.
  intros H. destruct (int_to_double_value z H) as (V & N & S).
  destruct (Z.eq_dec z 0) as [->|Nz]; [reflexivity|].
  destruct (Prim2SF (int_to_double z)) as [s|s| |s m e]; try contradiction.
  - cbn [sval] in S. assert (0 < 2 ^ K) by reflexivity. nia.
  - destruct s; [contradiction|reflexivity].
Qed.

Lemma random_double_sign rand i :
  0 <= rand i <= RAND_MAX -> sign_clear (Prim2SF (fst (random_double rand i))).
Proof.
  intros H. pose proof (random_double_range rand i H) as [N _].
  unfold random_double in *. cbn [fst] in *. unfold RAND_MAX in *.
  assert (Sx : sign_clear (Prim2SF (int_to_double (rand i))))
    by (apply int_to_double_sign; change (2 ^ 53) with 9007199254740992; lia).
  rewrite div_spec in *. unfold SF64div in *.
  change (Prim2SF (int_to_double 2147483647))
    with (S754_finite false 9007199250546688 (-22)) in *.
  destruct (Prim2SF (int_to_double (rand i))) as [s|s| |s m e]; try contradiction;
    cbn [sign_clear] in Sx; subst s.
  - reflexivity.
  - cbn [SFdiv xorb] in *.
    destruct (SFdiv_core_binary prec emax (Z.pos m) e 9007199250546688 (-22))
      as [[mz ez] lz].
    now apply bra_sign_clear.
Qed.

Lemma positive_range_sign lo hi x : 0 < lo -> in_range lo hi x -> sign_clear (Prim2SF x).
Proof.
  intros H [N [L _]]. assert (0 < 2 ^ K) by reflexivity.
  destruct (Prim2SF x) as [s|s| |s m e]; try contradiction.
  - cbn [sval] in L. nia.
  - destruct s; [contradiction|reflexivity].
Qed.

Lemma div_rne_range a b lo hi :
  0 < b -> lo * b <= a <= hi * b -> lo <= div_rne a b <= hi.
Proof.
  intros Hb [L U]. unfold div_rne. cbv zeta.
  pose proof (Z.div_mod a b ltac:(lia)) as DM.
  pose proof (Z.mod_pos_bound a b Hb) as MB.
  assert (Q1 : lo <= a / b) by (apply Z.div_le_lower_bound; lia).
  assert (Q2 : a / b <= hi) by (apply Z.div_le_upper_bound; nia || lia).
  destruct (Z.eq_dec (a / b) hi) as [E|Ne].
  - assert (a mod b = 0) by nia.
    replace (2 * (a mod b) ?= b) with Lt by (symmetry; apply Z.compare_lt_iff; lia). lia.
  - destruct (2 * (a mod b) ?= b); [destruct (Z.even _)| |]; lia.
Qed.

Lemma printed_digits_range p lo hi x :
  in_range lo hi x ->
  lo * 10 ^ Z.of_nat p <= printed_digits p x <= hi * 10 ^ Z.of_nat p.
Proof.
  intros [N [L U]]. unfold printed_digits. K_value.
  assert (PK : 0 < 2 ^ K) by reflexivity.
  assert (PP : 0 < 10 ^ Z.of_nat p) by (apply Z.pow_pos_nonneg; lia).
  destruct (Prim2SF x) as [s|s| |s m e]; try contradiction.
  - cbn [sval] in *. nia.
  - destruct s; [contradiction|]. cbn [nonneg_SF sval] in *.
    unfold scaled_round. destruct e as [|q|q].
    + change (2 ^ 0) with 1. cbn [Z.add] in *. nia.
    + rewrite Z.pow_add_r in L, U by lia.
      assert (0 < 2 ^ Z.pos q) by (apply Z.pow_pos_nonneg; lia). nia.
    + assert (Pq : 0 < 2 ^ Z.pos q) by (apply Z.pow_pos_nonneg; lia).
      assert (Pe : 0 < 2 ^ (Z.neg q + K)) by (apply Z.pow_pos_nonneg; lia).
      assert (E : 2 ^ K = 2 ^ Z.pos q * 2 ^ (Z.neg q + K))
        by (rewrite <- Z.pow_add_r by lia; f_equal; lia).
      rewrite E in L, U.
      apply div_rne_range; [exact Pq|]. nia.
Qed.

(** The double [%lf] reads from a printed number stays in the range of the
    number printed. *)
Lemma reread_range p lo hi x :
  in_range lo hi x -> 0 <= lo <= hi -> hi <= 1000 -> (1 <= p <= 6)%nat ->
  in_range lo hi (reread p x).
Proof.
  intros R Hl Hh Hp. pose proof (printed_digits_range p lo hi x R) as [L U].
  K_value. assert (PK : 0 < 2 ^ K) by reflexivity.
  assert (PP : 10 <= 10 ^ Z.of_nat p <= 10 ^ 6).
  { split.
    - change 10 with (10 ^ 1) at 1. apply Z.pow_le_mono_r; lia.
    - apply Z.pow_le_mono_r; lia. }
  change (10 ^ 6) with 1000000 in PP.
  unfold reread, dec_to_double, in_range.
  destruct (printed_digits p x) as [|n|n] eqn:E.
  - change (Prim2SF zero) with (S754_zero false). cbn [nonneg_SF sval].
    split; [exact I|]. nia.
  - destruct p as [|p']; [lia|]. cbn [Z.of_nat Z.opp].
    set (P := (10 ^ Pos.of_succ_nat p')%positive).
    assert (EP : Z.pos P = 10 ^ Z.of_nat (S p')) by (unfold P; now rewrite Pos2Z.inj_pow).
    rewrite <- EP in *.
    assert (L1 : Z.log2 (Z.pos n) <= 29).
    { change 29 with (Z.log2 1000000000). apply Z.log2_le_mono. nia. }
    assert (L2 : 3 <= Z.log2 (Z.pos P) <= 19).
    { split.
      - change 3 with (Z.log2 10). apply Z.log2_le_mono. lia.
      - change 19 with (Z.log2 1000000). apply Z.log2_le_mono. lia. }
    pose proof (Z.log2_nonneg (Z.pos n)) as L0.
    destruct (SFdiv_bounds n P 0 0) as (V & N & Up & Lo); cbv zeta; try lia.
    rewrite Prim2SF_SF2Prim by exact V.
    split; [exact N|]. split.
    + destruct (Z.eq_dec lo 0) as [->|Nz].
      * pose proof (sval_nonneg (SFdiv prec emax (S754_finite false n 0)
                                   (S754_finite false P 0))). lia.
      * apply Lo; [lia|apply rnd_int; change (2 ^ 53) with 9007199254740992; lia|].
        cbn [sval Z.add]. nia.
    + apply Up; [nia|apply rnd_int; change (2 ^ 53) with 9007199254740992; lia|].
      cbn [sval Z.add]. nia.
  - pose proof (printed_digits_nonneg p x). lia.
Qed.

(** ** The terminals file, written and read *)

Lemma random_battery_level_index rand i : snd (random_battery_level rand i) = S (S i).
Proof.
  unfold random_battery_level, random_double.
  destruct (PrimFloat.ltb _ 0.2); [|destruct (PrimFloat.ltb _ 0.8)]; reflexivity.
Qed.

Lemma terminal_records_step rand k i :
  Process.terminal_records (S k) rand i
  = (print_fixed 6 (fst (random_double rand i)) ++ " "%char
     :: print_fixed 6 (fst (random_double rand (S i))) ++ " "%char
     :: print_fixed 1 (fst (random_battery_level rand (S (S i)))) ++ NL
     :: Process.terminal_records k rand (S (S (S (S i)))))%list.
Proof.
  cbn [Process.terminal_records]. unfold random_double at 1 2. cbn [fst].
  pose proof (random_battery_level_index rand (S (S i))) as E.
  destruct (random_battery_level rand (S (S i))) as [b i3]. cbn [fst snd] in *.
  now subst i3.
Qed.

Lemma parse_generated_terminals rand :
  in_rand_range rand ->
  forall fuel n j inp,
    skip_ws inp = Process.terminal_records n rand (4 * j) ->
    parse_terminals_loop fuel inp (Z.of_nat j)
    = map (read_back rand) (seq j (Nat.min fuel n)).
Proof.
  intros Hr. induction fuel as [|fuel IH]; intros n j inp E; [reflexivity|].
  destruct n as [|n].
  - cbn [Process.terminal_records] in E. cbn [parse_terminals_loop].
    change (parse_format (lit "%lf %lf %lf"))
      with [D_double; D_ws; D_double; D_ws; D_double].
    rewrite run_scanf_double, E. reflexivity.
  - rewrite terminal_records_step in E.
    assert (S1 := random_double_sign rand (4 * j) (Hr _)).
    assert (S2 := random_double_sign rand (S (4 * j)) (Hr _)).
    destruct (random_battery_level_range rand (S (S (4 * j))) (Hr _) (Hr _)) as [Rb _].
    assert (S3 := positive_range_sign 10 100 _ ltac:(lia) Rb).
    cbn [parse_terminals_loop].
    rewrite (scan_terminal_record inp _ _ _ _ S1 S2 S3 E).
    cbn [sr_ret sr_vals sr_rest Z.eqb Pos.eqb Nat.min seq map].
    f_equal.
    + unfold read_back. repeat f_equal; lia.
    + replace (Z.of_nat j + 1) with (Z.of_nat (S j)) by lia.
      apply IH. rewrite skip_ws_newline.
      replace (4 * S j)%nat with (S (S (S (S (4 * j))))) by lia.
      destruct n as [|n']; [reflexivity|].
      rewrite terminal_records_step.
      apply (skip_ws_printed 5 _ _ (random_double_sign rand _ (Hr _))).
Qed.

Lemma read_back_ranges rand k :
  in_rand_range rand ->
  in_unit (t_x (read_back rand k)) /\ in_unit (t_y (read_back rand k))
  /\ between 10 100 (battery (read_back rand k)).
Proof.
  intros Hr. unfold read_back. cbn [t_x t_y battery].
  assert (U : forall i, in_unit (reread 6 (fst (random_double rand i)))).
  { intros i. apply in_unit_range, reread_range; try lia.
    apply random_double_range, Hr. }
  split; [apply U|split; [apply U|]].
  destruct (random_battery_level_range rand (4 * k + 2) (Hr _) (Hr _)) as [Rb _].
  apply (in_range_between 10 100); try (change (2 ^ 53) with 9007199254740992; lia).
  apply reread_range; try lia. exact Rb.
Qed.

(** X20: the text generate_terminals writes for [n] terminals is read by
    parse_terminals as the first [max_terminals] of them, or all [n]:
    terminal [k] has the three numbers of line [k] as they were printed
    (the values made of draws 4k to 4k + 3 of the generator, rounded to 6
    digits and to 1 digit after the point), coordinates between 0 and 1, a
    battery level between 10 and 100, the covered flag 1 and the id [k]. *)
Theorem terminals_file_read_back (rand : nat -> Z) (n : nat) (max_terminals : Z) :
  in_rand_range rand ->
  let ts := parse_terminals (Some (Process.terminal_records n rand 0)) max_terminals in
  count ts = Z.min (Z.max 0 max_terminals) (Z.of_nat n)
  /\ entries ts = map (read_back rand) (seq 0 (Z.to_nat (count ts)))
  /\ forall k : nat,
       in_unit (t_x (read_back rand k)) /\ in_unit (t_y (read_back rand k))
       /\ between 10 100 (battery (read_back rand k))
       /\ covered (read_back rand k) = 1 /\ terminal_id (read_back rand k) = Z.of_nat k.
Proof.
  intros Hr ts.
  assert (E : ts = Some (map (read_back rand)
                           (seq 0 (Nat.min (Z.to_nat max_terminals) n)))).
  { unfold ts, parse_terminals. f_equal.
    apply (parse_generated_terminals rand Hr _ n 0%nat).
    change (4 * 0)%nat with 0%nat.
    destruct n as [|n']; [reflexivity|]. rewrite terminal_records_step.
    apply (skip_ws_printed 5 _ _ (random_double_sign rand _ (Hr _))). }
  rewrite E. cbn [count entries]. rewrite length_map, length_seq.
  split; [lia|]. split; [now rewrite Nat2Z.id|].
  intros k. destruct (read_back_ranges rand k Hr) as (A & B & C).
  repeat split; try apply A; try apply B; try apply C.
Qed.

Lemma terminals_file_witness :
  count (parse_terminals
           (Some (Process.terminal_records 3 (fun i => if Nat.even i then 123456789 else 2000000000) 0)) 2) = 2.
Proof.
  refine (proj1 (terminals_file_read_back (fun i => if Nat.even i then 123456789 else 2000000000) 3 2 _)).
  intros i. cbv beta. unfold RAND_MAX. destruct (Nat.even i); lia.
Defined.
